(** * IVRE, TinyDB backend ([ivre/db/tiny.py]): a shallow embedding

    The development follows the layout of the Python module.

    - [Py] is the fragment of the Python object model the module relies on:
      JSON-like values, [==], [<], truthiness, [in], subscripting,
      iteration and dictionaries.  Python 3 semantics is followed: ordering
      two values of unrelated types raises [TypeError].  Numbers are
      integers, text and byte strings are sequences of 8-bit characters, and
      a native date/time value is an opaque integer code.
    - [TDB] is the storage collaborator (the [tinydb] package): queries are
      closures over a document, tables are lists of numbered documents.
    - [Tiny] holds the methods of [TinyDB], [TinyDBActive], [TinyDBNmap] and
      [TinyDBPassive] that the verified properties are about.

    Functions of [ivre.utils] and class attributes declared in
    [ivre/db/__init__.py] are parameters of the sections that use them. *)

From Stdlib Require Import ZArith List String Ascii Bool Lia.
From Stdlib Require Import Permutation Sorted.
Import ListNotations.

Set Warnings "-register-all".
Set Warnings "-automation".

Local Open Scope string_scope.
Local Open Scope list_scope.
Local Open Scope Z_scope.

(* ------------------------------------------------------------------ *)
(** * Python values and exceptions                                      *)
(* ------------------------------------------------------------------ *)

Module Py.

(** The exceptions that the modelled code can raise. *)
Inductive exn : Type :=
| KeyError
| TypeError
| ValueError
| AttributeError
| IndexError
| StructError
| SocketError.

(** The outcome of evaluating an expression: a value, or a raised
    exception. *)
Inductive result (A : Type) : Type :=
| Ok (a : A)
| Raise (e : exn).

Arguments Ok {A} a.
Arguments Raise {A} e.

Definition bind {A B : Type} (m : result A) (k : A -> result B) : result B :=
  match m with
  | Ok a => k a
  | Raise e => Raise e
  end.

Declare Scope py_scope.
Delimit Scope py_scope with py.
Notation "x <- m ;; k" := (bind m (fun x => k))
  (at level 61, m at next level, right associativity) : py_scope.
Notation "' p <- m ;; k" := (bind m (fun p => k))
  (at level 61, p pattern, m at next level, right associativity) : py_scope.
Local Open Scope py_scope.

(** Monadic traversal of a list, left to right, stopping at the first
    exception. *)
Fixpoint mapM {A B : Type} (f : A -> result B) (l : list A) : result (list B) :=
  match l with
  | [] => Ok []
  | x :: l' => y <- f x ;; ys <- mapM f l' ;; Ok (y :: ys)
  end.

(** [any(f(e) for e in l)]: stops at the first true element. *)
Fixpoint anyM {A : Type} (f : A -> result bool) (l : list A) : result bool :=
  match l with
  | [] => Ok false
  | x :: l' => b <- f x ;; if b then Ok true else anyM f l'
  end.

(** [all(f(e) for e in l)]: stops at the first false element. *)
Fixpoint allM {A : Type} (f : A -> result bool) (l : list A) : result bool :=
  match l with
  | [] => Ok true
  | x :: l' => b <- f x ;; if b then allM f l' else Ok false
  end.

(** JSON-like values.  A dictionary keeps its items in insertion order. *)
Inductive value : Type :=
| VNone
| VBool (b : bool)
| VInt (z : Z)
| VStr (s : string)
| VBytes (b : string)
| VDate (code : Z)
| VList (l : list value)
| VDict (d : list (string * value)).

Definition dict : Type := list (string * value).

(** ** Dictionaries *)

(** [d.get(k)] as an option; the first item with the key. *)
Fixpoint dict_get (k : string) (d : dict) : option value :=
  match d with
  | [] => None
  | (k', v) :: d' => if (k' =? k)%string then Some v else dict_get k d'
  end.

Definition dict_has (k : string) (d : dict) : bool :=
  match dict_get k d with Some _ => true | None => false end.

(** [d.get(k, dflt)] *)
Definition dict_get_default (k : string) (dflt : value) (d : dict) : value :=
  match dict_get k d with Some v => v | None => dflt end.

(** [d[k] = v]: in place when the key is present, appended otherwise. *)
Fixpoint dict_set (k : string) (v : value) (d : dict) : dict :=
  match d with
  | [] => [(k, v)]
  | (k', v') :: d' =>
      if (k' =? k)%string then (k', v) :: d' else (k', v') :: dict_set k v d'
  end.

(** Removal of a key (no effect when the key is absent). *)
Fixpoint dict_remove (k : string) (d : dict) : dict :=
  match d with
  | [] => []
  | (k', v') :: d' =>
      if (k' =? k)%string then dict_remove k d' else (k', v') :: dict_remove k d'
  end.

(** [del d[k]] *)
Definition dict_del (k : string) (d : dict) : result dict :=
  if dict_has k d then Ok (dict_remove k d) else Raise KeyError.

(** [d.update(other)] *)
Definition dict_update (d other : dict) : dict :=
  fold_left (fun acc kv => dict_set (fst kv) (snd kv) acc) other d.

Definition dict_keys (d : dict) : list string := map fst d.

(** Python dictionaries have pairwise distinct keys, at every depth. *)
Fixpoint wf_value (v : value) : Prop :=
  match v with
  | VList l => (fix all (l : list value) : Prop :=
                  match l with
                  | [] => True
                  | x :: l' => wf_value x /\ all l'
                  end) l
  | VDict d => NoDup (map fst d) /\
               (fix all (d : list (string * value)) : Prop :=
                  match d with
                  | [] => True
                  | (_, x) :: d' => wf_value x /\ all d'
                  end) d
  | _ => True
  end.

Definition wf_dict (d : dict) : Prop := wf_value (VDict d).

(** ** Equality, ordering, truthiness *)

(** The integer behind a number ([bool] is a subclass of [int]). *)
Definition as_num (v : value) : option Z :=
  match v with
  | VInt z => Some z
  | VBool b => Some (Z.b2z b)
  | _ => None
  end.

(** [a == b].  Two dictionaries are equal when they hold the same items,
    whatever the order. *)
Fixpoint py_eq (a b : value) {struct a} : bool :=
  match a, b with
  | VNone, VNone => true
  | VBool x, VBool y => Bool.eqb x y
  | VBool x, VInt y => Z.b2z x =? y
  | VInt x, VBool y => x =? Z.b2z y
  | VInt x, VInt y => x =? y
  | VStr x, VStr y => (x =? y)%string
  | VBytes x, VBytes y => (x =? y)%string
  | VDate x, VDate y => x =? y
  | VList l, VList m =>
      (fix eq_list (l m : list value) {struct l} : bool :=
         match l, m with
         | [], [] => true
         | x :: l', y :: m' => py_eq x y && eq_list l' m'
         | _, _ => false
         end) l m
  | VDict d, VDict e =>
      (fix incl_l (d : list (string * value)) : bool :=
         match d with
         | [] => true
         | (k, v) :: d' =>
             match dict_get k e with
             | Some v' => py_eq v v'
             | None => false
             end && incl_l d'
         end) d
      &&
      forallb (fun kv' : string * value =>
         (fix find_l (d : list (string * value)) : bool :=
            match d with
            | [] => false
            | (k, v) :: d' =>
                if (k =? fst kv')%string then py_eq v (snd kv') else find_l d'
            end) d) e
  | _, _ => false
  end.

(** [a < b] *)
Fixpoint py_lt (a b : value) {struct a} : result bool :=
  match a, b with
  | VBool x, VBool y => Ok (Z.b2z x <? Z.b2z y)
  | VBool x, VInt y => Ok (Z.b2z x <? y)
  | VInt x, VBool y => Ok (x <? Z.b2z y)
  | VInt x, VInt y => Ok (x <? y)
  | VStr x, VStr y => Ok (String.ltb x y)
  | VBytes x, VBytes y => Ok (String.ltb x y)
  | VDate x, VDate y => Ok (x <? y)
  | VList l, VList m =>
      (fix lt_list (l m : list value) {struct l} : result bool :=
         match l, m with
         | [], [] => Ok false
         | [], _ :: _ => Ok true
         | _ :: _, [] => Ok false
         | x :: l', y :: m' => if py_eq x y then lt_list l' m' else py_lt x y
         end) l m
  | _, _ => Raise TypeError
  end.

(** [a > b] is [b < a]. *)
Definition py_gt (a b : value) : result bool := py_lt b a.

Definition is_none (v : value) : bool :=
  match v with VNone => true | _ => false end.

(** [bool(v)] *)
Definition truthy (v : value) : bool :=
  match v with
  | VNone => false
  | VBool b => b
  | VInt z => negb (z =? 0)
  | VStr s => negb (s =? "")%string
  | VBytes s => negb (s =? "")%string
  | VDate _ => true
  | VList l => match l with [] => false | _ => true end
  | VDict d => match d with [] => false | _ => true end
  end.

(** [a or b] *)
Definition py_or (a b : value) : value := if truthy a then a else b.

(** [min(a, b)] and [max(a, b)]: the first argument wins ties. *)
Definition py_min (a b : value) : result value :=
  c <- py_lt b a ;; Ok (if c then b else a).

Definition py_max (a b : value) : result value :=
  c <- py_gt b a ;; Ok (if c then b else a).

(** [a + b] *)
Definition py_add (a b : value) : result value :=
  match a, b with
  | VStr x, VStr y => Ok (VStr (x ++ y)%string)
  | VBytes x, VBytes y => Ok (VBytes (x ++ y)%string)
  | VList x, VList y => Ok (VList (x ++ y))
  | _, _ =>
      match as_num a, as_num b with
      | Some x, Some y => Ok (VInt (x + y))
      | _, _ => Raise TypeError
      end
  end.

(** ** Containers *)

Definition is_substring (needle hay : string) : bool :=
  match String.index 0 needle hay with Some _ => true | None => false end.

(** [k in v], for a string [k]. *)
Definition py_in (k : string) (v : value) : result bool :=
  match v with
  | VDict d => Ok (dict_has k d)
  | VList l => Ok (existsb (fun e => py_eq e (VStr k)) l)
  | VStr s => Ok (is_substring k s)
  | _ => Raise TypeError
  end.

(** [v[k]], for a string [k]. *)
Definition py_getitem (k : string) (v : value) : result value :=
  match v with
  | VDict d => match dict_get k d with Some x => Ok x | None => Raise KeyError end
  | _ => Raise TypeError
  end.

(** [v.get(k, dflt)]: only dictionaries have the method. *)
Definition py_get (k : string) (dflt : value) (v : value) : result value :=
  match v with
  | VDict d => Ok (dict_get_default k dflt d)
  | _ => Raise AttributeError
  end.

Fixpoint chars (s : string) : list value :=
  match s with
  | EmptyString => []
  | String c s' => VStr (String c EmptyString) :: chars s'
  end.

Fixpoint byte_values (s : string) : list value :=
  match s with
  | EmptyString => []
  | String c s' => VInt (Z.of_N (N_of_ascii c)) :: byte_values s'
  end.

(** [iter(v)]: the elements of a list, the characters of a string, the
    bytes of a byte string, the keys of a dictionary. *)
Definition py_iter (v : value) : result (list value) :=
  match v with
  | VList l => Ok l
  | VStr s => Ok (chars s)
  | VBytes s => Ok (byte_values s)
  | VDict d => Ok (map VStr (dict_keys d))
  | _ => Raise TypeError
  end.

(** ** Strings *)

(** [s.split('.')] *)
Fixpoint split_dot (s : string) : list string :=
  match s with
  | EmptyString => [EmptyString]
  | String c rest =>
      if Ascii.eqb c "."%char then EmptyString :: split_dot rest
      else match split_dot rest with
           | [] => [String c EmptyString]
           | seg :: segs => String c seg :: segs
           end
  end.

(** ['%s.%s' % (base, fld)], or [fld] alone under an empty base. *)
Definition join_base (base fld : string) : string :=
  if (base =? "")%string then fld else (base ++ "." ++ fld)%string.

(** [s.split('.', 1)[1]]: what follows the first dot. *)
Fixpoint after_dot (s : string) : result string :=
  match s with
  | EmptyString => Raise IndexError
  | String c rest => if Ascii.eqb c "."%char then Ok rest else after_dot rest
  end.

End Py.

(* ------------------------------------------------------------------ *)
(** * The storage collaborator: [tinydb] queries and tables             *)
(* ------------------------------------------------------------------ *)

Module TDB.
Import Py.
Local Open Scope py_scope.

(** A query is a test run on a document ([QueryImpl.__call__]). *)
Definition query : Type := value -> result bool.

(** [value = value[part]] for every part of the path; [KeyError] and
    [TypeError] are caught by the caller, which then answers [False]. *)
Fixpoint resolve (path : list string) (v : value) : option value :=
  match path with
  | [] => Some v
  | part :: path' =>
      match py_getitem part v with
      | Ok x => resolve path' x
      | Raise _ => None
      end
  end.

(** [Query._generate_test]: resolve the path, then run the test. *)
Definition q_test (path : list string) (test : value -> result bool) : query :=
  fun v => match resolve path v with
           | Some x => test x
           | None => Ok false
           end.

(** [Query()], the query that [flt_empty] is bound to. *)
Definition q_empty : query := fun _ => Ok true.

Definition q_eq (path : list string) (rhs : value) : query :=
  q_test path (fun x => Ok (py_eq x rhs)).

Definition q_ne (path : list string) (rhs : value) : query :=
  q_test path (fun x => Ok (negb (py_eq x rhs))).

Definition q_lt (path : list string) (rhs : value) : query :=
  q_test path (fun x => py_lt x rhs).

Definition q_gt (path : list string) (rhs : value) : query :=
  q_test path (fun x => py_gt x rhs).

Definition q_exists (path : list string) : query :=
  q_test path (fun _ => Ok true).

(** [is_sequence(value) and any(cond(e) for e in value)] *)
Definition q_any (path : list string) (cond : query) : query :=
  q_test path (fun x => match py_iter x with
                        | Ok l => anyM cond l
                        | Raise _ => Ok false
                        end).

(** [is_sequence(value) and all(cond(e) for e in value)] *)
Definition q_all (path : list string) (cond : query) : query :=
  q_test path (fun x => match py_iter x with
                        | Ok l => allM cond l
                        | Raise _ => Ok false
                        end).

(** [a & b], [a | b] and [~a] *)
Definition q_and (a b : query) : query :=
  fun v => x <- a v ;; if x then b v else Ok false.

Definition q_or (a b : query) : query :=
  fun v => x <- a v ;; if x then Ok true else b v.

Definition q_not (a : query) : query :=
  fun v => x <- a v ;; Ok (negb x).

(** A table: the stored documents with their [doc_id], oldest first. *)
Definition document : Type := (Z * dict)%type.
Definition table : Type := list document.

Definition doc_id (d : document) : Z := fst d.
Definition doc_body (d : document) : dict := snd d.

(** [table.search(cond)] *)
Fixpoint search (cond : query) (t : table) : result (list document) :=
  match t with
  | [] => Ok []
  | d :: t' =>
      b <- cond (VDict (doc_body d)) ;;
      rest <- search cond t' ;;
      Ok (if b then d :: rest else rest)
  end.

(** [table.get(cond)]: the first document that passes the test. *)
Fixpoint get (cond : query) (t : table) : result (option document) :=
  match t with
  | [] => Ok None
  | d :: t' =>
      b <- cond (VDict (doc_body d)) ;;
      if b then Ok (Some d) else get cond t'
  end.

(** The identifier given to the next inserted document. *)
Definition next_id (t : table) : Z :=
  fold_right (fun d m => Z.max (doc_id d) m) 0 t + 1.

(** [table.insert(doc)] *)
Definition insert (doc : dict) (t : table) : Z * table :=
  (next_id t, t ++ [(next_id t, doc)]).

(** [table.update(transform, doc_ids=ids)]: the transform is run on the
    documents so numbered; nothing is written when it raises. *)
Definition update_one (transform : dict -> result dict) (id : Z) (t : table)
  : result table :=
  if existsb (fun d => doc_id d =? id) t
  then mapM (fun d : document =>
               if doc_id d =? id
               then body <- transform (doc_body d) ;; Ok (doc_id d, body)
               else Ok d) t
  else Raise KeyError.

Fixpoint update_ids (transform : dict -> result dict) (ids : list Z) (t : table)
  : result table :=
  match ids with
  | [] => Ok t
  | id :: ids' => t' <- update_one transform id t ;; update_ids transform ids' t'
  end.

(** [table.update(fields, cond)]: the documents that pass the test take the
    given fields; the identifiers of the updated documents are returned. *)
Fixpoint update_where (fields : dict) (cond : query) (t : table)
  : result (table * list Z) :=
  match t with
  | [] => Ok ([], [])
  | d :: t' =>
      b <- cond (VDict (doc_body d)) ;;
      r <- update_where fields cond t' ;;
      Ok (if b
          then ((doc_id d, dict_update (doc_body d) fields) :: fst r,
                doc_id d :: snd r)
          else (d :: fst r, snd r))
  end.

(** [table.upsert(doc, cond)] *)
Definition upsert (doc : dict) (cond : query) (t : table) : result table :=
  r <- update_where doc cond t ;;
  match snd r with
  | [] => Ok (snd (insert doc t))
  | _ :: _ => Ok (fst r)
  end.

End TDB.

(* ------------------------------------------------------------------ *)
(** * Library functions used by the module                              *)
(* ------------------------------------------------------------------ *)

Module PyLib.
Import Py.
Local Open Scope py_scope.

(** ** [struct], format ['!QQ']: two unsigned 64-bit integers, network
    byte order *)

Definition byte_of_Z (z : Z) : ascii := ascii_of_N (Z.to_N z).
Definition Z_of_byte (c : ascii) : Z := Z.of_N (N_of_ascii c).

(** The big-endian integer held by a byte string, after the digits [acc]. *)
Fixpoint be_decode (acc : Z) (bs : string) : Z :=
  match bs with
  | EmptyString => acc
  | String c bs' => be_decode (acc * 256 + Z_of_byte c) bs'
  end.

(** The [n] low-order bytes of [z], most significant first. *)
Fixpoint be_encode (n : nat) (z : Z) : string :=
  match n with
  | O => EmptyString
  | S n' => (be_encode n' (z / 256) ++ String (byte_of_Z (z mod 256)) EmptyString)%string
  end.

Definition fits_Q (z : Z) : bool := (0 <=? z) && (z <? 2 ^ 64).

(** [struct.unpack('!QQ', bs)] *)
Definition unpack_QQ (bs : string) : result (Z * Z) :=
  if (String.length bs =? 16)%nat
  then Ok (be_decode 0 (substring 0 8 bs), be_decode 0 (substring 8 8 bs))
  else Raise StructError.

(** [struct.pack('!QQ', hi, lo)] *)
Definition pack_QQ (hi lo : Z) : result string :=
  if fits_Q hi && fits_Q lo
  then Ok (be_encode 8 hi ++ be_encode 8 lo)%string
  else Raise StructError.

(** ** [sorted(l, key=cmp_to_key(cmp))]

    The wrapper built by [cmp_to_key] orders two items by [cmp(x, y) < 0]
    and [sorted] is stable: an item goes past the items that are strictly
    smaller, and stays before the others. *)

Section Sorted.
Context {A : Type}.
Variable cmp : A -> A -> result Z.

Fixpoint insert_sorted (x : A) (l : list A) : result (list A) :=
  match l with
  | [] => Ok [x]
  | y :: l' =>
      c <- cmp y x ;;
      if c <? 0 then r <- insert_sorted x l' ;; Ok (y :: r) else Ok (x :: l)
  end.

Fixpoint sorted (l : list A) : result (list A) :=
  match l with
  | [] => Ok []
  | x :: l' => s <- sorted l' ;; insert_sorted x s
  end.
End Sorted.

(** ** Slices [l[skip:]] and [l[:limit]]; a negative bound counts from the
    end of the list. *)

Definition slice_bound {A : Type} (n : Z) (l : list A) : nat :=
  if n <? 0 then Z.to_nat (Z.of_nat (List.length l) + n) else Z.to_nat n.

Definition slice_from {A : Type} (n : Z) (l : list A) : list A :=
  skipn (slice_bound n l) l.

Definition slice_to {A : Type} (n : Z) (l : list A) : list A :=
  firstn (slice_bound n l) l.

(** ** [collections.Counter]

    The keys are kept in the order of their first occurrence. *)

Section Counter.
Context {K : Type}.
Variable key_eqb : K -> K -> bool.

Definition counter : Type := list (K * Z).

(** [c[k] += n] *)
Fixpoint counter_add (k : K) (n : Z) (c : counter) : counter :=
  match c with
  | [] => [(k, n)]
  | (k', m) :: c' =>
      if key_eqb k' k then (k', m + n) :: c' else (k', m) :: counter_add k n c'
  end.

(** [Counter(stream)] *)
Definition count_all (stream : list K) : counter :=
  fold_left (fun c k => counter_add k 1 c) stream [].

(** Insertion of an item in a list ordered by decreasing count; the item
    stays before the items of equal count. *)
Fixpoint insert_desc (x : K * Z) (l : counter) : counter :=
  match l with
  | [] => [x]
  | y :: l' => if snd x <? snd y then y :: insert_desc x l' else x :: l
  end.

(** [sorted(c.items(), key=itemgetter(1), reverse=True)] *)
Definition sort_desc (c : counter) : counter :=
  fold_right insert_desc [] c.

(** [c.most_common(n)]; [n] is [None] or an integer. *)
Definition most_common (n : option Z) (c : counter) : counter :=
  match n with
  | None => sort_desc c
  | Some k => firstn (Z.to_nat k) (sort_desc c)
  end.
End Counter.

End PyLib.

(* ------------------------------------------------------------------ *)
(** * [ivre/db/tiny.py]                                                 *)
(* ------------------------------------------------------------------ *)

Module Tiny.
Import Py TDB PyLib.
Local Open Scope py_scope.

(** The tree of requested fields that [get] builds from dotted paths:
    [True] at a requested field, a dictionary above it. *)
Inductive ftree : Type :=
| FTrue
| FDict (items : list (string * ftree)).

Fixpoint ft_get (k : string) (t : list (string * ftree)) : option ftree :=
  match t with
  | [] => None
  | (k', v) :: t' => if (k' =? k)%string then Some v else ft_get k t'
  end.

Fixpoint ft_set (k : string) (v : ftree) (t : list (string * ftree))
  : list (string * ftree) :=
  match t with
  | [] => [(k, v)]
  | (k', v') :: t' =>
      if (k' =? k)%string then (k', v) :: t' else (k', v') :: ft_set k v t'
  end.

(** What a generator of field values yields: a value, or a value with the
    count that weighs it. *)
Inductive emitted : Type :=
| Plain (v : value)
| Weighted (v : value) (w : value).

Section TinyDB.

(** Declared by the classes of [ivre/db/__init__.py]: the dotted paths
    that hold arrays. *)
Variable list_fields : list string.

(** [ivre.utils]: the address codec, to and from 16 bytes. *)
Variable ip2bin : value -> result string.
Variable bin2ip : string -> result value.

Definition in_list_fields (fld : string) : bool :=
  existsb (String.eqb fld) list_fields.

(** ** [TinyDB.get] *)

(** One requested field enters the tree ([cur.setdefault(subfld, {})]
    along the path, then [cur[lastfld] = True]). *)
Fixpoint add_field (segs : list string) (t : list (string * ftree))
  : result (list (string * ftree)) :=
  match segs with
  | [] => Ok t
  | [lastfld] => Ok (ft_set lastfld FTrue t)
  | subfld :: ((_ :: more) as rest) =>
      match ft_get subfld t with
      | None =>
          sub <- add_field rest [] ;; Ok (ft_set subfld (FDict sub) t)
      | Some (FDict cur) =>
          sub <- add_field rest cur ;; Ok (ft_set subfld (FDict sub) t)
      | Some FTrue =>
          match more with
          | [] => Raise TypeError
          | _ :: _ => Raise AttributeError
          end
      end
  end.

Fixpoint build_fields (fields : list string) (t : list (string * ftree))
  : result (list (string * ftree)) :=
  match fields with
  | [] => Ok t
  | fld :: fields' =>
      t' <- add_field (split_dot fld) t ;; build_fields fields' t'
  end.

(** [_extractor(rec, wanted_fields, base)] *)
Fixpoint _extractor (wanted : ftree) (rec : value) (base : string)
  {struct wanted} : result dict :=
  match wanted with
  | FTrue => Ok []
  | FDict items =>
      (fix each (items : list (string * ftree)) (res : dict) {struct items}
         : result dict :=
         match items with
         | [] => Ok res
         | (fld, sub) :: items' =>
             present <- py_in fld rec ;;
             if negb present then each items' res
             else
               match sub with
               | FTrue =>
                   x <- py_getitem fld rec ;; each items' (dict_set fld x res)
               | FDict _ =>
                   let fullfld := join_base base fld in
                   x <- py_getitem fld rec ;;
                   if in_list_fields fullfld
                   then
                     subrecs <- py_iter x ;;
                     ys <- mapM (fun subrec =>
                                   r <- _extractor sub subrec fullfld ;;
                                   Ok (VDict r)) subrecs ;;
                     each items' (dict_set fld (VList ys) res)
                   else
                     r <- _extractor sub x fullfld ;;
                     each items' (dict_set fld (VDict r) res)
               end
         end) items []
  end.

(** The projection of a stored document keeps its [doc_id]. *)
Definition project (wanted : option (list (string * ftree)))
           (recs : list document) : result (list document) :=
  match wanted with
  | None => Ok recs
  | Some t =>
      mapM (fun rec : document =>
              r <- _extractor (FDict t) (VDict (doc_body rec)) "" ;;
              Ok (doc_id rec, r)) recs
  end.

(** One step of [f = (f or {}).get(sk)]. *)
Definition cmp_step (sk : string) (f : value) : result value :=
  if truthy f then py_get sk VNone f else Ok VNone.

(** [f1] and [f2] after the loop over [k.split('.')]. *)
Fixpoint cmp_walk (segs : list string) (f1 f2 : value)
  : result (value * value) :=
  match segs with
  | [] => Ok (f1, f2)
  | sk :: segs' =>
      g1 <- cmp_step sk f1 ;;
      g2 <- cmp_step sk f2 ;;
      cmp_walk segs' g1 g2
  end.

(** [_cmp(v1, v2)], for the [sort] argument of [get]. *)
Fixpoint _cmp (sort : list (string * Z)) (v1 v2 : value) : result Z :=
  match sort with
  | [] => Ok 0
  | (k, o) :: sort' =>
      '(f1, f2) <- cmp_walk (split_dot k) v1 v2 ;;
      if py_eq f1 f2 then _cmp sort' v1 v2
      else if is_none f1 then Ok (- o)
      else if is_none f2 then Ok o
      else
        lt <- py_lt f1 f2 ;;
        if lt then Ok (- o) else Ok o
  end.

Definition cmp_docs (sort : list (string * Z)) (d1 d2 : document) : result Z :=
  _cmp sort (VDict (doc_body d1)) (VDict (doc_body d2)).

Definition apply_skip (skip : option Z) (l : list document) : list document :=
  match skip with Some n => slice_from n l | None => l end.

Definition apply_limit (limit : option Z) (l : list document) : list document :=
  match limit with Some n => slice_to n l | None => l end.

(** [get(flt, fields, sort, limit, skip)] on the table [db]. *)
Definition get (db : table) (flt : query) (fields : option (list string))
           (sort : list (string * Z)) (limit skip : option Z)
  : result (list document) :=
  result <- search flt db ;;
  wanted <- match fields with
            | None => Ok None
            | Some flds => t <- build_fields flds [] ;; Ok (Some t)
            end ;;
  match sort with
  | [] =>
      project wanted (apply_limit limit (apply_skip skip result))
  | _ :: _ =>
      result' <- sorted (cmp_docs sort) result ;;
      project wanted (apply_limit limit (apply_skip skip result'))
  end.

(** ** [TinyDB._generate_field_values] *)

(** What is yielded for one value [val] found in [record]. *)
Definition emit (record : value) (countfield : option string)
           (countval : value) (val : value) : result emitted :=
  if negb (is_none countval) then Ok (Weighted val countval)
  else match countfield with
       | Some cf => w <- py_get cf (VInt 1) record ;; Ok (Weighted val w)
       | None => Ok (Plain val)
       end.

(** The generator, run to its end; [segs] is [field.split('.')]. *)
Fixpoint generate_segs (segs : list string) (record : value) (base : string)
         (countfield : option string) (countval : value) {struct segs}
  : result (list emitted) :=
  match segs with
  | [] => Ok []
  | [field] =>
      present <- py_in field record ;;
      if negb present then Ok []
      else
        let fullfield := join_base base field in
        x <- py_getitem field record ;;
        if in_list_fields fullfield
        then vals <- py_iter x ;; mapM (emit record countfield countval) vals
        else e <- emit record countfield countval x ;; Ok [e]
  | cur :: ((_ :: _) as field) =>
      present <- py_in cur record ;;
      if negb present then Ok []
      else
        '(countfield', countval') <-
          match countfield with
          | Some cf =>
              if String.prefix (cur ++ ".")%string cf
              then cf' <- after_dot cf ;; Ok (Some cf', countval)
              else w <- py_get cf (VInt 1) record ;; Ok (None, w)
          | None => Ok (None, countval)
          end ;;
        record' <- py_getitem cur record ;;
        let base' := join_base base cur in
        if in_list_fields base'
        then
          subrecs <- py_iter record' ;;
          vals <- mapM (fun subrec =>
                          generate_segs field subrec base' countfield' countval')
                       subrecs ;;
          Ok (List.concat vals)
        else generate_segs field record' base' countfield' countval'
  end.

Definition _generate_field_values (record : value) (field : string)
           (base : string) (countfield : option string) (countval : value)
  : result (list emitted) :=
  generate_segs (split_dot field) record base countfield countval.

(** ** [TinyDB._search_field_exists] *)

(** [baseq] is the path of the query under construction. *)
Fixpoint exists_segs (segs : list string) (base : string)
         (baseq : list string) {struct segs} : query :=
  match segs with
  | [] => q_exists baseq
  | [field] => q_exists (baseq ++ [field])
  | field :: ((_ :: _) as nextfields) =>
      let fullfield := join_base base field in
      if in_list_fields fullfield
      then q_any (baseq ++ [field]) (exists_segs nextfields fullfield [])
      else exists_segs nextfields fullfield (baseq ++ [field])
  end.

Definition _search_field_exists (field : string) : query :=
  exists_segs (split_dot field) "" [].

(** ** [TinyDB.ip2internal] and [TinyDB.internal2ip] *)

Definition ip2internal (addr : value) : result value :=
  match addr with
  | VInt _ | VBool _ => Ok addr
  | _ =>
      bs <- ip2bin addr ;;
      '(val1, val2) <- unpack_QQ bs ;;
      Ok (VInt (Z.shiftl val1 64 + val2))
  end.

Definition internal2ip (addr : value) : result value :=
  match as_num addr with
  | Some a =>
      bs <- pack_QQ (Z.shiftr a 64) (Z.land a 18446744073709551615) ;;
      bin2ip bs
  | None => Raise TypeError
  end.

(** ** [TinyDB._flt_and], [TinyDB._flt_or] *)

Definition _flt_and (cond1 cond2 : query) : query := q_and cond1 cond2.
Definition _flt_or (cond1 cond2 : query) : query := q_or cond1 cond2.

Definition flt_empty : query := q_empty.

(** Modelled from the spec: [DB.flt_and] belongs to [ivre/db/__init__.py];
    it is the conjunction of its arguments ("key = conjunction of equality
    predicates over all remaining fields"), taken with [_flt_and] from
    left to right, and the empty filter when there is none. *)
Definition flt_and (conds : list query) : query :=
  match conds with
  | [] => flt_empty
  | c :: conds' => fold_left _flt_and conds' c
  end.

End TinyDB.

(** ** [TinyDBActive.searchport] *)

Definition searchport (port protocol state : value) (neg : bool) : query :=
  if py_eq port (VStr "host")
  then
    let res := if neg then q_gt ["port"] (VInt 0)
               else q_eq ["port"] (VInt (-1)) in
    q_any ["ports"] res
  else
    let res := q_and (q_eq ["port"] port) (q_eq ["protocol"] protocol) in
    if neg
    then q_or (q_any ["ports"] (q_and res (q_ne ["state_state"] state)))
              (q_all ["ports"] (q_not res))
    else q_any ["ports"] (q_and res (q_eq ["state_state"] state)).

(** ** [TinyDBNmap.store_scan_doc] *)

Section TinyDBNmap.

(** [bytes.decode()] *)
Variable bytes_decode : string -> result string.

Definition py_decode (v : value) : result value :=
  match v with
  | VBytes b => s <- bytes_decode b ;; Ok (VStr s)
  | _ => Raise AttributeError
  end.

(** The call returns the stored identifier or raises; in both cases the
    table of scan documents that it leaves is given. *)
Definition store_scan_doc (scan : dict) (db_scans : table)
  : result value * table :=
  match (raw <- py_getitem "_id" (VDict scan) ;; py_decode raw) with
  | Raise e => (Raise e, db_scans)
  | Ok _id =>
      let scan' := dict_set "_id" _id scan in
      match TDB.get (q_eq ["_id"] _id) db_scans with
      | Raise e => (Raise e, db_scans)
      | Ok (Some _) => (Raise ValueError, db_scans)
      | Ok None => (Ok _id, snd (insert scan' db_scans))
      end
  end.

End TinyDBNmap.

(** ** [op_update] *)

Definition op_update (count firstseen lastseen : value) (doc : dict)
  : result dict :=
  c <- py_add (dict_get_default "count" (VInt 0) doc) count ;;
  let doc1 := dict_set "count" c doc in
  doc2 <- (if is_none firstseen then Ok doc1
           else f <- py_min (dict_get_default "firstseen" firstseen doc1)
                            firstseen ;;
                Ok (dict_set "firstseen" f doc1)) ;;
  if is_none lastseen then Ok doc2
  else l <- py_max (dict_get_default "lastseen" lastseen doc2) lastseen ;;
       Ok (dict_set "lastseen" l doc2).

(** ** [TinyDBPassive] *)

(** What a call of [insert_or_update] leaves behind: the exception it
    raised, if any, the table, and the records the resolver [getinfos] was
    called on. *)
Record outcome : Type := mk_outcome {
  raised : option exn;
  db_after : table;
  resolver_calls : list dict
}.

Section TinyDBPassive.

Variable list_fields : list string.
Variable ip2bin : value -> result string.
Variable bin2ip : string -> result value.

(** [ivre.utils]: [all2datetime], [datetime2timestamp], [decode_b64];
    and [str.encode()]. *)
Variable all2datetime : value -> result value.
Variable datetime2timestamp : value -> result value.
Variable decode_b64 : string -> result string.
Variable str_encode : string -> string.

(** [TinyDB.from_binary] *)
Definition from_binary (data : value) : result value :=
  match data with
  | VStr s => r <- decode_b64 (str_encode s) ;; Ok (VBytes r)
  | _ => Raise AttributeError
  end.

(** The normalisation of a time given as a date/time value or as text. *)
Definition to_timestamp (t : value) : result value :=
  match t with
  | VDate _ => datetime2timestamp t
  | VStr _ | VBytes _ => d <- all2datetime t ;; datetime2timestamp d
  | _ => Ok t
  end.

(** One round of the loop of [rec2internal] over [firstseen] and
    [lastseen]. *)
Definition rec2internal_fld (fld : string) (rec : dict) : result dict :=
  match dict_get fld rec with
  | None => Ok rec
  | Some x =>
      t <- to_timestamp x ;;
      Ok (dict_remove "_id" (dict_set fld t rec))
  end.

Definition rec2internal (rec : dict) : result dict :=
  rec1 <- match dict_get "addr" rec with
          | None => Ok rec
          | Some a =>
              match ip2internal ip2bin a with
              | Ok v => Ok (dict_set "addr" v rec)
              | Raise KeyError | Raise ValueError => Ok rec
              | Raise e => Raise e
              end
          end ;;
  rec2 <- rec2internal_fld "firstseen" rec1 ;;
  rec2internal_fld "lastseen" rec2.

Definition internal2rec_fld (fld : string) (rec : dict) : result dict :=
  match dict_get fld rec with
  | None => Ok rec
  | Some x =>
      match all2datetime x with
      | Ok d => Ok (dict_set fld d rec)
      | Raise KeyError => Ok rec
      | Raise e => Raise e
      end
  end.

Definition internal2rec (rec : document) : result document :=
  let body := doc_body rec in
  rec1 <- match dict_get "addr" body with
          | None => Ok body
          | Some a =>
              match internal2ip bin2ip a with
              | Ok v => Ok (dict_set "addr" v body)
              | Raise KeyError | Raise ValueError => Ok body
              | Raise e => Raise e
              end
          end ;;
  rec2 <- internal2rec_fld "firstseen" rec1 ;;
  rec3 <- internal2rec_fld "lastseen" rec2 ;;
  rec4 <- (if py_eq (dict_get_default "recontype" VNone rec3) (VStr "SSL_SERVER")
              && py_eq (dict_get_default "source" VNone rec3) (VStr "cert")
           then x <- py_getitem "value" (VDict rec3) ;;
                y <- from_binary x ;;
                Ok (dict_set "value" y rec3)
           else Ok rec3) ;;
  Ok (doc_id rec, dict_set "_id" (VInt (doc_id rec)) rec4).

(** [TinyDBPassive.get] *)
Definition passive_get (db : table) (flt : query)
           (fields : option (list string)) (sort : list (string * Z))
           (limit skip : option Z) : result (list document) :=
  recs <- get list_fields db flt fields sort limit skip ;;
  mapM internal2rec recs.

(** [TinyDBPassive.get_one] *)
Definition get_one (db : table) (flt : query)
           (fields : option (list string)) : result (option document) :=
  recs <- passive_get db flt fields [] None None ;;
  Ok (hd_error recs).

(** The key of an observation: [del spec['infos']], then
    [spec.pop("count", 1)]. *)
Definition spec_key (spec : dict) : dict :=
  dict_remove "count" (dict_remove "infos" spec).

(** The conjunction, by [flt_and], of the tests [getattr(q, key) == value]
    over the items of [spec]. *)
Definition spec_cond (spec : dict) : query :=
  flt_and (map (fun kv => q_eq [fst kv] (snd kv)) spec).

(** [TinyDBPassive.insert_or_update] *)
Definition insert_or_update (timestamp : value) (spec : option dict)
           (getinfos : option (dict -> result dict)) (lastseen : value)
           (db : table) : outcome :=
  match spec with
  | None => mk_outcome None db []
  | Some orig =>
      let prepared :=
        spec1 <- rec2internal orig ;;
        let count :=
          dict_get_default "count" (VInt 1) (dict_remove "infos" spec1) in
        let spec3 := spec_key spec1 in
        timestamp' <- to_timestamp timestamp ;;
        lastseen' <- to_timestamp lastseen ;;
        current <- get_one db (spec_cond spec3) (Some []) ;;
        Ok (spec3, count, spec_cond spec3, timestamp', lastseen', current) in
      match prepared with
      | Raise e => mk_outcome (Some e) db []
      | Ok (spec3, count, cond, timestamp', lastseen', Some current) =>
          match update_ids (op_update count timestamp'
                                      (py_or lastseen' timestamp'))
                           [doc_id current] db with
          | Ok db' => mk_outcome None db' []
          | Raise e => mk_outcome (Some e) db []
          end
      | Ok (spec3, count, cond, timestamp', lastseen', None) =>
          let doc :=
            dict_set "lastseen" (py_or lastseen' timestamp')
              (dict_set "firstseen" timestamp'
                 (dict_set "count" count spec3)) in
          match getinfos with
          | None =>
              match upsert doc cond db with
              | Ok db' => mk_outcome None db' []
              | Raise e => mk_outcome (Some e) db []
              end
          | Some resolver =>
              match resolver orig with
              | Raise e => mk_outcome (Some e) db [orig]
              | Ok infos =>
                  let orig' := dict_update orig infos in
                  let doc' := match dict_get "infos" orig' with
                              | Some i => dict_set "infos" i doc
                              | None => doc
                              end in
                  match upsert doc' cond db with
                  | Ok db' => mk_outcome None db' [orig]
                  | Raise e => mk_outcome (Some e) db [orig]
                  end
              end
          end
      end
  end.

End TinyDBPassive.

(** ** The end of [topvalues], in [TinyDBActive] and [TinyDBPassive]

    [stream] is what the extractor chosen for the field yields over the
    selected records; [K] is the type of the keys it yields. *)

Section TopValues.
Context {K : Type}.
Variable key_eqb : K -> K -> bool.
Variable _outputproc : K -> value.

Definition top_output (ranked : list (K * Z)) : list dict :=
  map (fun vc => [("_id", _outputproc (fst vc)); ("count", VInt (snd vc))])
      ranked.

(** [Counter(stream).most_common(topnbr)] *)
Definition topvalues_distinct (stream : list K) (topnbr : option Z)
  : list dict :=
  top_output (most_common topnbr (count_all key_eqb stream)).

(** [res[val] += count] for every pair of the stream, then
    [res.most_common(topnbr)]. *)
Definition topvalues_weighted (stream : list (K * Z)) (topnbr : option Z)
  : list dict :=
  top_output
    (most_common topnbr
       (fold_left (fun res vc => counter_add key_eqb (fst vc) (snd vc) res)
                  stream [])).

(** The counts of a result, in order. *)
Definition counts_of (out : list dict) : list value :=
  map (dict_get_default "count" VNone) out.
End TopValues.

End Tiny.

(* ------------------------------------------------------------------ *)
(** * Properties                                                        *)
(* ------------------------------------------------------------------ *)

Import Py TDB PyLib Tiny.
Local Open Scope py_scope.

(** ** Generic facts on the exception monad *)

Lemma anyM_pure {A : Type} (f : A -> result bool) (g : A -> bool) (l : list A) :
  (forall x, In x l -> f x = Ok (g x)) -> anyM f l = Ok (existsb g l).
Proof.
  induction l as [|x l IH]; intros H; simpl; [reflexivity|].
  rewrite (H x (or_introl eq_refl)); simpl.
  destruct (g x); [reflexivity|].
  apply IH. intros y Hy. apply H. now right.
Qed.

Lemma allM_pure {A : Type} (f : A -> result bool) (g : A -> bool) (l : list A) :
  (forall x, In x l -> f x = Ok (g x)) -> allM f l = Ok (forallb g l).
Proof.
  induction l as [|x l IH]; intros H; simpl; [reflexivity|].
  rewrite (H x (or_introl eq_refl)); simpl.
  destruct (g x); [|reflexivity].
  apply IH. intros y Hy. apply H. now right.
Qed.

Lemma mapM_pure {A B : Type} (f : A -> result B) (g : A -> B) (l : list A) :
  (forall x, In x l -> f x = Ok (g x)) -> mapM f l = Ok (map g l).
Proof.
  induction l as [|x l IH]; intros H; simpl; [reflexivity|].
  rewrite (H x (or_introl eq_refl)); simpl.
  rewrite IH; [reflexivity|]. intros y Hy. apply H. now right.
Qed.

(** ** The address codec *)

Section Codec.

Lemma Z_of_byte_range c : 0 <= Z_of_byte c < 256.
Proof.
  unfold Z_of_byte. pose proof (N_ascii_bounded c) as H. lia.
Qed.

Lemma byte_of_Z_of_byte c : byte_of_Z (Z_of_byte c) = c.
Proof.
  unfold byte_of_Z, Z_of_byte. rewrite N2Z.id. apply ascii_N_embedding.
Qed.

Lemma be_decode_acc bs : forall acc,
  be_decode acc bs = acc * 256 ^ Z.of_nat (String.length bs) + be_decode 0 bs.
Proof.
  induction bs as [|c bs IH]; intros acc; simpl String.length.
  - simpl. lia.
  - cbn [be_decode]. rewrite (IH (acc * 256 + Z_of_byte c)), (IH (0 * 256 + Z_of_byte c)).
    rewrite Nat2Z.inj_succ, Z.pow_succ_r by lia. ring.
Qed.

Lemma be_decode_range bs :
  0 <= be_decode 0 bs < 256 ^ Z.of_nat (String.length bs).
Proof.
  induction bs as [|c bs IH]; simpl String.length.
  - simpl. lia.
  - cbn [be_decode]. rewrite be_decode_acc.
    rewrite Nat2Z.inj_succ, Z.pow_succ_r by lia.
    pose proof (Z_of_byte_range c). nia.
Qed.

(** The encoder, read from the most significant byte. *)
Lemma be_encode_head n : forall z,
  be_encode (S n) z
  = String (byte_of_Z ((z / 256 ^ Z.of_nat n) mod 256)) (be_encode n z).
Proof.
  induction n as [|n IH]; intros z.
  - simpl. now rewrite Z.div_1_r.
  - change (be_encode (S (S n)) z)
      with (be_encode (S n) (z / 256) ++ String (byte_of_Z (z mod 256)) EmptyString)%string.
    rewrite IH. simpl String.append.
    rewrite Z.div_div by lia.
    rewrite Nat2Z.inj_succ, Z.pow_succ_r by lia.
    reflexivity.
Qed.

Lemma be_encode_decode bs : forall acc,
  be_encode (String.length bs) (be_decode acc bs) = bs.
Proof.
  induction bs as [|c bs IH]; intros acc; [reflexivity|].
  simpl String.length. rewrite be_encode_head. cbn [be_decode].
  rewrite IH. f_equal.
  rewrite be_decode_acc.
  pose proof (be_decode_range bs) as Hr.
  pose proof (Z_of_byte_range c) as Hc.
  assert (Hp : 0 < 256 ^ Z.of_nat (String.length bs)) by (apply Z.pow_pos_nonneg; lia).
  rewrite Z.div_add_l by lia.
  rewrite (Z.div_small (be_decode 0 bs)) by lia.
  rewrite Z.add_0_r, Z.add_comm, Z.mod_add by lia.
  rewrite Z.mod_small by lia.
  apply byte_of_Z_of_byte.
Qed.

Lemma split_16 bs :
  String.length bs = 16%nat ->
  String.length (substring 0 8 bs) = 8%nat /\
  String.length (substring 8 8 bs) = 8%nat /\
  (substring 0 8 bs ++ substring 8 8 bs)%string = bs.
Proof.
  intros H.
  do 16 (destruct bs as [|? bs]; [discriminate H|]).
  destruct bs; [|discriminate H].
  repeat split; reflexivity.
Qed.

Lemma unpack_pack bs val1 val2 :
  unpack_QQ bs = Ok (val1, val2) ->
  0 <= val1 < 2 ^ 64 /\ 0 <= val2 < 2 ^ 64 /\ pack_QQ val1 val2 = Ok bs.
Proof.
  unfold unpack_QQ. destruct (Nat.eqb_spec (String.length bs) 16) as [E|]; [|discriminate].
  intros H. injection H as <- <-.
  destruct (split_16 bs E) as (L1 & L2 & Hcat).
  pose proof (be_decode_range (substring 0 8 bs)) as R1.
  pose proof (be_decode_range (substring 8 8 bs)) as R2.
  rewrite L1 in R1. rewrite L2 in R2.
  change (256 ^ Z.of_nat 8) with (2 ^ 64) in R1, R2.
  split; [exact R1|]. split; [exact R2|].
  unfold pack_QQ, fits_Q.
  destruct R1 as [R1a R1b], R2 as [R2a R2b].
  rewrite (proj2 (Z.leb_le _ _) R1a), (proj2 (Z.ltb_lt _ _) R1b).
  rewrite (proj2 (Z.leb_le _ _) R2a), (proj2 (Z.ltb_lt _ _) R2b).
  simpl andb. cbv iota.
  pose proof (be_encode_decode (substring 0 8 bs) 0) as E1.
  pose proof (be_encode_decode (substring 8 8 bs) 0) as E2.
  rewrite L1 in E1. rewrite L2 in E2.
  now rewrite E1, E2, Hcat.
Qed.

Lemma join_split_128 val1 val2 :
  0 <= val1 < 2 ^ 64 -> 0 <= val2 < 2 ^ 64 ->
  let a := Z.shiftl val1 64 + val2 in
  0 <= a < 2 ^ 128 /\
  Z.shiftr a 64 = val1 /\
  Z.land a 18446744073709551615 = val2.
Proof.
  intros H1 H2 a. subst a.
  rewrite Z.shiftl_mul_pow2 by lia.
  split; [|split].
  - change (2 ^ 128) with (2 ^ 64 * 2 ^ 64). nia.
  - rewrite Z.shiftr_div_pow2 by lia.
    rewrite Z.div_add_l by lia. rewrite Z.div_small by lia. lia.
  - change 18446744073709551615 with (Z.ones 64).
    rewrite Z.land_ones by lia.
    rewrite Z.add_comm, Z.mod_add by lia. apply Z.mod_small; lia.
Qed.

End Codec.

(** C4. For an address text [a] that the codec of [ivre.utils] accepts
    ([ip2bin] gives its 16 bytes, from which [bin2ip] gives the canonical
    text), [ip2internal] returns an unsigned 128-bit integer, and
    [internal2ip] applied to that integer returns the canonical text. *)
Theorem ip2internal_internal2ip_roundtrip
        (ip2bin : value -> result string) (bin2ip : string -> result value)
        (a : string) (bs : string) (canonical : value) :
  ip2bin (VStr a) = Ok bs ->
  String.length bs = 16%nat ->
  bin2ip bs = Ok canonical ->
  exists n : Z,
    ip2internal ip2bin (VStr a) = Ok (VInt n) /\
    0 <= n < 2 ^ 128 /\
    internal2ip bin2ip (VInt n) = Ok canonical /\
    (addr <- ip2internal ip2bin (VStr a) ;; internal2ip bin2ip addr) = Ok canonical.
Proof.
  intros Hbin Hlen Hcanon.
  unfold ip2internal. rewrite Hbin. cbn [bind].
  destruct (unpack_QQ bs) as [[val1 val2]|e] eqn:Hu.
  - destruct (unpack_pack _ _ _ Hu) as (R1 & R2 & Hp).
    destruct (join_split_128 val1 val2 R1 R2) as (Hr & Hhi & Hlo).
    exists (Z.shiftl val1 64 + val2). cbn [bind].
    assert (Hback : internal2ip bin2ip (VInt (Z.shiftl val1 64 + val2)) = Ok canonical).
    { unfold internal2ip. cbn [as_num]. rewrite Hhi, Hlo, Hp. cbn [bind]. exact Hcanon. }
    repeat split; try exact Hback; apply Hr.
  - exfalso. unfold unpack_QQ in Hu. rewrite Hlen in Hu. discriminate Hu.
Qed.

(** The IPv4 address 1.2.3.4, in the IPv4-mapped range. *)
Definition sample_ip_bytes : string :=
  be_encode 8 0 ++ be_encode 8 (65535 * 2 ^ 32 + 16909060).

Lemma ip2internal_internal2ip_roundtrip_witness :
  exists n : Z,
    ip2internal (fun _ => Ok sample_ip_bytes) (VStr "1.2.3.4") = Ok (VInt n) /\
    0 <= n < 2 ^ 128 /\
    internal2ip (fun _ => Ok (VStr "1.2.3.4")) (VInt n) = Ok (VStr "1.2.3.4") /\
    (addr <- ip2internal (fun _ => Ok sample_ip_bytes) (VStr "1.2.3.4") ;;
     internal2ip (fun _ => Ok (VStr "1.2.3.4")) addr) = Ok (VStr "1.2.3.4").
Proof.
  apply (ip2internal_internal2ip_roundtrip
           (fun _ => Ok sample_ip_bytes) (fun _ => Ok (VStr "1.2.3.4"))
           "1.2.3.4" sample_ip_bytes (VStr "1.2.3.4")).
  - reflexivity.
  - reflexivity.
  - reflexivity.
Defined.

(** C9. [ip2internal] returns an integer argument as it is, and applying
    it to its own result changes nothing: whatever the argument, text or
    integer, a second application returns what the first one returned. *)
Theorem ip2internal_idempotent (ip2bin : value -> result string) :
  (forall z : Z, ip2internal ip2bin (VInt z) = Ok (VInt z)) /\
  (forall a : value,
      (i <- ip2internal ip2bin a ;; ip2internal ip2bin i)
      = ip2internal ip2bin a).
Proof.
  split; [reflexivity|].
  intros a. unfold ip2internal.
  destruct a; try reflexivity;
    (destruct (ip2bin _) as [bs|e]; [|reflexivity]; cbn [bind];
     destruct (unpack_QQ bs) as [[v1 v2]|e]; reflexivity).
Qed.

(** ** [searchport] *)

(** A field of an array element is present and equal to [rhs]. *)
Definition field_is (k : string) (rhs : value) (e : value) : bool :=
  match resolve [k] e with
  | Some x => py_eq x rhs
  | None => false
  end.

(** A field of an array element is present and different from [rhs]. *)
Definition field_differs (k : string) (rhs : value) (e : value) : bool :=
  match resolve [k] e with
  | Some x => negb (py_eq x rhs)
  | None => false
  end.

(** The element is a port with the given number and protocol. *)
Definition is_port (port protocol : value) (e : value) : bool :=
  field_is "port" port e && field_is "protocol" protocol e.

(** The elementwise negation of the positive search: every port fails
    "number, protocol and state". *)
Definition elementwise_negation (port protocol state : value) : query :=
  q_all ["ports"]
        (q_not (q_and (q_and (q_eq ["port"] port) (q_eq ["protocol"] protocol))
                      (q_eq ["state_state"] state))).

Definition port_entry (protocol : string) (port : Z) (state : string) : value :=
  VDict [("protocol", VStr protocol); ("port", VInt port);
         ("state_state", VStr state)].

(** The host of the scenario: 80/tcp open and 22/tcp closed. *)
Definition scenario_host : dict :=
  [("addr", VInt 281470698520833);
   ("ports", VList [port_entry "tcp" 80 "open"; port_entry "tcp" 22 "closed"])].

(** A host that reports 80/tcp twice, open and closed. *)
Definition twofold_host : dict :=
  [("ports", VList [port_entry "tcp" 80 "open"; port_entry "tcp" 80 "closed"])].

Lemma resolve_field_absent k d :
  dict_get k d = None -> resolve [k] (VDict d) = None.
Proof. intros H. cbn [resolve py_getitem]. now rewrite H. Qed.

Section SearchPort.
Variables port protocol state : value.

Lemma q_eq_field k rhs e : q_eq [k] rhs e = Ok (field_is k rhs e).
Proof.
  unfold q_eq, q_test, field_is. now destruct (resolve [k] e).
Qed.

Lemma q_ne_field k rhs e : q_ne [k] rhs e = Ok (field_differs k rhs e).
Proof.
  unfold q_ne, q_test, field_differs. now destruct (resolve [k] e).
Qed.

Lemma res_is_port e :
  q_and (q_eq ["port"] port) (q_eq ["protocol"] protocol) e
  = Ok (is_port port protocol e).
Proof.
  unfold q_and, is_port. rewrite !q_eq_field. cbn [bind].
  now destruct (field_is "port" port e).
Qed.

Lemma resolve_ports host ps :
  dict_get "ports" host = Some (VList ps) ->
  resolve ["ports"] (VDict host) = Some (VList ps).
Proof. intros H. cbn [resolve py_getitem]. now rewrite H. Qed.

Lemma searchport_neg_eval host ps :
  py_eq port (VStr "host") = false ->
  dict_get "ports" host = Some (VList ps) ->
  searchport port protocol state true (VDict host)
  = Ok (existsb (fun e => is_port port protocol e
                          && field_differs "state_state" state e) ps
        || forallb (fun e => negb (is_port port protocol e)) ps).
Proof.
  intros Hport Hps. unfold searchport. rewrite Hport.
  unfold q_or, q_any, q_all, q_test.
  rewrite (resolve_ports _ _ Hps). cbn [py_iter].
  rewrite (anyM_pure _ (fun e => is_port port protocol e
                                 && field_differs "state_state" state e)).
  2:{ intros e _. unfold q_and at 1. rewrite res_is_port. cbn [bind].
      rewrite q_ne_field. now destruct (is_port port protocol e). }
  cbn [bind].
  rewrite (allM_pure _ (fun e => negb (is_port port protocol e))).
  2:{ intros e _. unfold q_not. now rewrite res_is_port. }
  now destruct (existsb _ ps).
Qed.

End SearchPort.

(** The ports of a host: [host.get('ports', [])]. *)
Definition host_ports (host : dict) : list value :=
  match dict_get_default "ports" (VList []) host with
  | VList ps => ps
  | _ => []
  end.

(** A host that has no [ports] field. *)
Definition portless_host : dict := [("addr", VInt 281470698520833)].




(** ** Missing paths *)

(** The record [r] lacks the path whose segments are [segs], under the
    base path [base]: along the path, a segment is absent from the
    document it is looked up in; below an array field, every element of the
    array lacks the rest of the path. *)
Inductive lacks (list_fields : list string)
  : list string -> value -> string -> Prop :=
| lacks_here seg rest d base :
    dict_get seg d = None ->
    lacks list_fields (seg :: rest) (VDict d) base
| lacks_below seg rest d base x :
    rest <> [] ->
    dict_get seg d = Some x ->
    in_list_fields list_fields (join_base base seg) = false ->
    lacks list_fields rest x (join_base base seg) ->
    lacks list_fields (seg :: rest) (VDict d) base
| lacks_in_array seg rest d base xs :
    rest <> [] ->
    dict_get seg d = Some (VList xs) ->
    in_list_fields list_fields (join_base base seg) = true ->
    (forall x, In x xs -> lacks list_fields rest x (join_base base seg)) ->
    lacks list_fields (seg :: rest) (VDict d) base.

(** The values on which [field in record] raises [TypeError]: neither a
    document, nor an array, nor a text. *)
Definition not_container (v : value) : bool :=
  match v with
  | VNone | VBool _ | VInt _ | VBytes _ | VDate _ => true
  | VStr _ | VList _ | VDict _ => false
  end.

(** Under the base path [base], the path whose segments are [segs] runs,
    from the record, through documents and outside of the array fields,
    into a value that is not a container, with segments still to look
    up. *)
Inductive runs_into (list_fields : list string)
  : list string -> value -> string -> Prop :=
| runs_here seg rest v base :
    not_container v = true ->
    runs_into list_fields (seg :: rest) v base
| runs_below seg rest d base x :
    rest <> [] ->
    dict_get seg d = Some x ->
    in_list_fields list_fields (join_base base seg) = false ->
    runs_into list_fields rest x (join_base base seg) ->
    runs_into list_fields (seg :: rest) (VDict d) base.

Section MissingPath.
Variable list_fields : list string.

Lemma resolve_app p q v :
  resolve (p ++ q) v
  = match resolve p v with Some x => resolve q x | None => None end.
Proof.
  revert v. induction p as [|s p IH]; intros v; simpl; [reflexivity|].
  destruct (py_getitem s v); [apply IH|reflexivity].
Qed.

Lemma resolve_absent seg d : dict_get seg d = None -> resolve [seg] (VDict d) = None.
Proof. intros H. cbn [resolve py_getitem]. now rewrite H. Qed.

Lemma resolve_present seg d x :
  dict_get seg d = Some x -> resolve [seg] (VDict d) = Some x.
Proof. intros H. cbn [resolve py_getitem]. now rewrite H. Qed.

Lemma exists_segs_cons field s r base baseq :
  exists_segs list_fields (field :: s :: r) base baseq
  = if in_list_fields list_fields (join_base base field)
    then q_any (baseq ++ [field])
               (exists_segs list_fields (s :: r) (join_base base field) [])
    else exists_segs list_fields (s :: r) (join_base base field)
                     (baseq ++ [field]).
Proof. reflexivity. Qed.

Lemma generate_segs_cons cur s r record base countfield countval :
  generate_segs list_fields (cur :: s :: r) record base countfield countval
  = (present <- py_in cur record ;;
     if negb present then Ok []
     else
       '(countfield', countval') <-
         match countfield with
         | Some cf =>
             if String.prefix (cur ++ ".")%string cf
             then cf' <- after_dot cf ;; Ok (Some cf', countval)
             else w <- py_get cf (VInt 1) record ;; Ok (None, w)
         | None => Ok (None, countval)
         end ;;
       record' <- py_getitem cur record ;;
       if in_list_fields list_fields (join_base base cur)
       then
         subrecs <- py_iter record' ;;
         vals <- mapM (fun subrec =>
                         generate_segs list_fields (s :: r) subrec
                                       (join_base base cur)
                                       countfield' countval')
                      subrecs ;;
         Ok (List.concat vals)
       else generate_segs list_fields (s :: r) record' (join_base base cur)
                          countfield' countval').
Proof. reflexivity. Qed.

(** Below a path that does not resolve, no field exists. *)
Lemma exists_unresolved segs : forall base baseq v,
  resolve baseq v = None ->
  exists_segs list_fields segs base baseq v = Ok false.
Proof.
  induction segs as [|seg rest IH]; intros base baseq v Hnone.
  - cbn [exists_segs]. unfold q_exists, q_test. now rewrite Hnone.
  - assert (Hext : resolve (baseq ++ [seg]) v = None)
      by (rewrite resolve_app; now rewrite Hnone).
    destruct rest as [|seg' rest'].
    + cbn [exists_segs]. unfold q_exists, q_test. now rewrite Hext.
    + rewrite exists_segs_cons.
      destruct (in_list_fields list_fields (join_base base seg)).
      * unfold q_any, q_test. now rewrite Hext.
      * now apply IH.
Qed.

Lemma exists_lacking segs x base :
  lacks list_fields segs x base ->
  forall baseq v, resolve baseq v = Some x ->
                  exists_segs list_fields segs base baseq v = Ok false.
Proof.
  induction 1 as [seg rest d base Hget
                 |seg rest d base x Hrest Hget Hlf _ IH
                 |seg rest d base xs Hrest Hget Hlf _ IH];
    intros baseq v Hres.
  - assert (Hext : resolve (baseq ++ [seg]) v = None)
      by (rewrite resolve_app, Hres; now apply resolve_absent).
    destruct rest as [|seg' rest'].
    + cbn [exists_segs]. unfold q_exists, q_test. now rewrite Hext.
    + rewrite exists_segs_cons.
      destruct (in_list_fields list_fields (join_base base seg)).
      * unfold q_any, q_test. now rewrite Hext.
      * now apply exists_unresolved.
  - assert (Hext : resolve (baseq ++ [seg]) v = Some x)
      by (rewrite resolve_app, Hres; now apply resolve_present).
    destruct rest as [|seg' rest']; [congruence|].
    rewrite exists_segs_cons, Hlf. now apply IH.
  - assert (Hext : resolve (baseq ++ [seg]) v = Some (VList xs))
      by (rewrite resolve_app, Hres; now apply resolve_present).
    destruct rest as [|seg' rest']; [congruence|].
    rewrite exists_segs_cons, Hlf.
    unfold q_any, q_test. rewrite Hext. cbn [py_iter].
    rewrite (anyM_pure _ (fun _ => false)).
    + f_equal. clear. now induction xs.
    + intros e He. now apply (IH e He [] e).
Qed.

Lemma prefix_after_dot cur : forall cf,
  String.prefix (cur ++ ".")%string cf = true -> exists cf', after_dot cf = Ok cf'.
Proof.
  induction cur as [|c cur IH]; intros cf H.
  - destruct cf as [|c' cf]; [discriminate H|].
    cbn [String.append String.prefix] in H.
    destruct (ascii_dec "."%char c') as [<-|]; [|discriminate H].
    cbn. eauto.
  - destruct cf as [|c' cf]; [discriminate H|].
    cbn [String.append String.prefix] in H.
    destruct (ascii_dec c c') as [<-|]; [|discriminate H].
    cbn [after_dot]. destruct (Ascii.eqb c "."%char); eauto.
Qed.

Lemma generate_lacking segs x base :
  lacks list_fields segs x base ->
  forall countfield countval,
    generate_segs list_fields segs x base countfield countval = Ok [].
Proof.
  induction 1 as [seg rest d base Hget
                 |seg rest d base x Hrest Hget Hlf _ IH
                 |seg rest d base xs Hrest Hget Hlf _ IH];
    intros countfield countval.
  - assert (Hin : py_in seg (VDict d) = Ok false)
      by (cbn [py_in]; unfold dict_has; now rewrite Hget).
    destruct rest as [|seg' rest'];
      [cbn [generate_segs]|rewrite generate_segs_cons]; now rewrite Hin.
  - assert (Hin : py_in seg (VDict d) = Ok true)
      by (cbn [py_in]; unfold dict_has; now rewrite Hget).
    destruct rest as [|seg' rest']; [congruence|].
    rewrite generate_segs_cons, Hin. cbn [bind negb].
    assert (Hitem : py_getitem seg (VDict d) = Ok x)
      by (cbn [py_getitem]; now rewrite Hget).
    destruct countfield as [cf|].
    + destruct (String.prefix (seg ++ ".") cf) eqn:Hp.
      * destruct (prefix_after_dot _ _ Hp) as [cf' ->]. cbn [bind].
        rewrite Hitem. cbn [bind]. rewrite Hlf. apply IH.
      * cbn [py_get bind]. rewrite Hitem. cbn [bind]. rewrite Hlf. apply IH.
    + cbn [bind]. rewrite Hitem. cbn [bind]. rewrite Hlf. apply IH.
  - assert (Hin : py_in seg (VDict d) = Ok true)
      by (cbn [py_in]; unfold dict_has; now rewrite Hget).
    destruct rest as [|seg' rest']; [congruence|].
    rewrite generate_segs_cons, Hin. cbn [bind negb].
    assert (Hitem : py_getitem seg (VDict d) = Ok (VList xs))
      by (cbn [py_getitem]; now rewrite Hget).
    assert (Hall : forall cf cv,
               mapM (fun subrec =>
                       generate_segs list_fields (seg' :: rest') subrec
                                     (join_base base seg) cf cv) xs
               = Ok (map (fun _ => []) xs))
      by (intros cf cv; apply mapM_pure; intros e He; now apply IH).
    assert (Hflat : List.concat (map (fun _ : value => @nil emitted) xs) = [])
      by (clear; now induction xs).
    destruct countfield as [cf|].
    + destruct (String.prefix (seg ++ ".") cf) eqn:Hp.
      * destruct (prefix_after_dot _ _ Hp) as [cf' ->]. cbn [bind].
        rewrite Hitem. cbn [bind py_iter]. rewrite Hlf, Hall. cbn [bind].
        now rewrite Hflat.
      * cbn [py_get bind]. rewrite Hitem. cbn [bind py_iter].
        rewrite Hlf, Hall. cbn [bind]. now rewrite Hflat.
    + cbn [bind]. rewrite Hitem. cbn [bind py_iter]. rewrite Hlf, Hall.
      cbn [bind]. now rewrite Hflat.
Qed.

Lemma resolve_not_container seg v :
  not_container v = true -> resolve [seg] v = None.
Proof. intros H. now destruct v. Qed.

Lemma py_in_not_container seg v :
  not_container v = true -> py_in seg v = Raise TypeError.
Proof. intros H. now destruct v. Qed.

Lemma exists_running segs x base :
  runs_into list_fields segs x base ->
  forall baseq v, resolve baseq v = Some x ->
                  exists_segs list_fields segs base baseq v = Ok false.
Proof.
  induction 1 as [seg rest x base Hx
                 |seg rest d base x Hrest Hget Hlf _ IH];
    intros baseq v Hres.
  - assert (Hext : resolve (baseq ++ [seg]) v = None)
      by (rewrite resolve_app, Hres; now apply resolve_not_container).
    destruct rest as [|seg' rest'].
    + cbn [exists_segs]. unfold q_exists, q_test. now rewrite Hext.
    + rewrite exists_segs_cons.
      destruct (in_list_fields list_fields (join_base base seg)).
      * unfold q_any, q_test. now rewrite Hext.
      * now apply exists_unresolved.
  - assert (Hext : resolve (baseq ++ [seg]) v = Some x)
      by (rewrite resolve_app, Hres; now apply resolve_present).
    destruct rest as [|seg' rest']; [congruence|].
    rewrite exists_segs_cons, Hlf. now apply IH.
Qed.

Lemma generate_running segs x base :
  runs_into list_fields segs x base ->
  forall countfield countval,
    generate_segs list_fields segs x base countfield countval
    = Raise TypeError.
Proof.
  induction 1 as [seg rest x base Hx
                 |seg rest d base x Hrest Hget Hlf _ IH];
    intros countfield countval.
  - pose proof (py_in_not_container seg x Hx) as Hin.
    destruct rest as [|seg' rest'];
      [cbn [generate_segs]|rewrite generate_segs_cons]; now rewrite Hin.
  - assert (Hin : py_in seg (VDict d) = Ok true)
      by (cbn [py_in]; unfold dict_has; now rewrite Hget).
    destruct rest as [|seg' rest']; [congruence|].
    rewrite generate_segs_cons, Hin. cbn [bind negb].
    assert (Hitem : py_getitem seg (VDict d) = Ok x)
      by (cbn [py_getitem]; now rewrite Hget).
    destruct countfield as [cf|].
    + destruct (String.prefix (seg ++ ".") cf) eqn:Hp.
      * destruct (prefix_after_dot _ _ Hp) as [cf' ->]. cbn [bind].
        rewrite Hitem. cbn [bind]. rewrite Hlf. apply IH.
      * cbn [py_get bind]. rewrite Hitem. cbn [bind]. rewrite Hlf. apply IH.
    + cbn [bind]. rewrite Hitem. cbn [bind]. rewrite Hlf. apply IH.
Qed.

End MissingPath.


(** A record whose [infos] field is [None]. *)
Definition empty_infos : dict :=
  [("recontype", VStr "DNS_ANSWER"); ("infos", VNone)].



(** ** Tables and pure queries *)

Section PureQueries.
Variable cond : query.
Variable test : dict -> bool.
Hypothesis cond_pure : forall d : dict, cond (VDict d) = Ok (test d).

Definition passes (d : document) : bool := test (doc_body d).

Lemma get_pure (t : table) : TDB.get cond t = Ok (find passes t).
Proof.
  induction t as [|d t IH]; [reflexivity|].
  cbn [TDB.get find]. rewrite cond_pure. cbn [bind].
  change (passes d) with (test (doc_body d)).
  now destruct (test (doc_body d)).
Qed.

Lemma search_pure (t : table) : search cond t = Ok (filter passes t).
Proof.
  induction t as [|d t IH]; [reflexivity|].
  cbn [search filter]. rewrite cond_pure, IH. cbn [bind].
  change (passes d) with (test (doc_body d)).
  now destruct (test (doc_body d)).
Qed.

Lemma update_where_none (fields : dict) (t : table) :
  filter passes t = [] -> update_where fields cond t = Ok (t, []).
Proof.
  induction t as [|d t IH]; [reflexivity|].
  cbn [filter update_where]. rewrite cond_pure.
  change (passes d) with (test (doc_body d)).
  destruct (test (doc_body d)); [discriminate|].
  intros H. rewrite (IH H). reflexivity.
Qed.
End PureQueries.

(** ** [store_scan_doc] *)

(** C8. When the identifier of the scan document is the identifier of a
    stored scan document, [store_scan_doc] raises [ValueError] and the
    table of scan documents is what it was before the call. *)
Theorem store_scan_doc_duplicate
        (bytes_decode : string -> result string)
        (scan : dict) (db_scans : table)
        (raw id : string) (stored : document) :
  dict_get "_id" scan = Some (VBytes raw) ->
  bytes_decode raw = Ok id ->
  In stored db_scans ->
  dict_get "_id" (doc_body stored) = Some (VStr id) ->
  store_scan_doc bytes_decode scan db_scans = (Raise ValueError, db_scans).
Proof.
  intros Hraw Hdec Hin Hid.
  unfold store_scan_doc. cbn [py_getitem]. rewrite Hraw. cbn [bind py_decode].
  rewrite Hdec. cbn [bind].
  rewrite (get_pure _ (fun d => field_is "_id" (VStr id) (VDict d)))
    by (intros d; apply q_eq_field).
  destruct (find _ db_scans) as [d|] eqn:Hfind; [reflexivity|].
  exfalso.
  apply (find_none _ _ Hfind) in Hin.
  unfold passes, field_is in Hin. cbn [resolve py_getitem] in Hin.
  rewrite Hid in Hin. cbn [py_eq] in Hin.
  now rewrite String.eqb_refl in Hin.
Qed.

Lemma store_scan_doc_duplicate_witness :
  store_scan_doc (fun b => Ok b)
                 [("_id", VBytes "f00d"); ("scanner", VStr "nmap")]
                 [(1, [("_id", VStr "f00d"); ("scanner", VStr "masscan")])]
  = (Raise ValueError,
     [(1, [("_id", VStr "f00d"); ("scanner", VStr "masscan")])]).
Proof.
  apply (store_scan_doc_duplicate
           (fun b => Ok b) _ _ "f00d" "f00d"
           (1, [("_id", VStr "f00d"); ("scanner", VStr "masscan")])).
  - reflexivity.
  - reflexivity.
  - left. reflexivity.
  - reflexivity.
Defined.

(** ** [insert_or_update] without a record *)

(** C10. Called with [None] as the record, [insert_or_update] returns at
    once: no exception, the table is the one it was given, and the
    resolver is not called, whatever the timestamp, the resolver and the
    [lastseen] argument. *)
Theorem insert_or_update_none
        (list_fields : list string)
        (ip2bin : value -> result string) (bin2ip : string -> result value)
        (all2datetime datetime2timestamp : value -> result value)
        (decode_b64 : string -> result string) (str_encode : string -> string)
        (timestamp lastseen : value)
        (getinfos : option (dict -> result dict)) (db : table) :
  let out := insert_or_update list_fields ip2bin bin2ip all2datetime
                              datetime2timestamp decode_b64 str_encode
                              timestamp None getinfos lastseen db in
  raised out = None /\ db_after out = db /\ resolver_calls out = [].
Proof. repeat split. Qed.

(** ** [topvalues] *)

Section Ranking.
Context {K : Type}.
Variable key_eqb : K -> K -> bool.
Variable _outputproc : K -> value.

(** Counts from the highest to the lowest. *)
Definition by_count_desc (x y : K * Z) : Prop := snd x >= snd y.

Lemma insert_desc_Forall (P : K * Z -> Prop) x l :
  P x -> Forall P l -> Forall P (insert_desc x l).
Proof.
  intros Hx Hl. induction Hl as [|y l Hy Hl IH]; cbn [insert_desc].
  - now constructor.
  - destruct (snd x <? snd y); constructor; auto.
Qed.

Lemma insert_desc_sorted x l :
  StronglySorted by_count_desc l -> StronglySorted by_count_desc (insert_desc x l).
Proof.
  induction 1 as [|y l Hs IH Hy]; cbn [insert_desc].
  - constructor; constructor.
  - destruct (Z.ltb_spec (snd x) (snd y)) as [Hlt|Hge].
    + constructor; [exact IH|].
      apply insert_desc_Forall; [unfold by_count_desc; lia|exact Hy].
    + constructor; [now constructor|].
      constructor; [unfold by_count_desc; lia|].
      eapply Forall_impl; [|exact Hy].
      unfold by_count_desc. intros z Hz. lia.
Qed.

Lemma sort_desc_sorted (c : list (K * Z)) : StronglySorted by_count_desc (sort_desc c).
Proof.
  induction c as [|x c IH]; cbn [sort_desc fold_right].
  - constructor.
  - now apply insert_desc_sorted.
Qed.

Lemma firstn_sorted {A : Type} (R : A -> A -> Prop) n : forall l,
  StronglySorted R l -> StronglySorted R (firstn n l).
Proof.
  induction n as [|n IH]; intros l Hs; [constructor|].
  destruct Hs as [|x l Hs Hx]; [constructor|].
  cbn [firstn]. constructor; [now apply IH|].
  rewrite Forall_forall in *. intros y Hy. apply Hx.
  eapply (In_nth_error) in Hy. destruct Hy as [i Hi].
  apply nth_error_In with (n := i).
  rewrite nth_error_firstn in Hi. now destruct (i <? n)%nat.
Qed.

Lemma most_common_sorted (n : option Z) (c : list (K * Z)) :
  StronglySorted by_count_desc (most_common n c).
Proof.
  destruct n as [k|]; cbn [most_common].
  - apply firstn_sorted, sort_desc_sorted.
  - apply sort_desc_sorted.
Qed.

Lemma most_common_length (k : Z) (c : list (K * Z)) :
  0 <= k -> Z.of_nat (List.length (most_common (Some k) c)) <= k.
Proof.
  intros Hk. cbn [most_common].
  pose proof (firstn_le_length (Z.to_nat k) (sort_desc c)). lia.
Qed.

Lemma top_output_counts (ranked : list (K * Z)) :
  map (dict_get "count") (top_output _outputproc ranked)
  = map (fun c => Some (VInt c)) (map snd ranked).
Proof.
  unfold top_output. rewrite !map_map. apply map_ext. reflexivity.
Qed.

Lemma counts_sorted (ranked : list (K * Z)) :
  StronglySorted by_count_desc ranked -> StronglySorted Z.ge (map snd ranked).
Proof.
  induction 1 as [|x l Hs IH Hx]; cbn [map]; constructor; [exact IH|].
  rewrite Forall_map. exact Hx.
Qed.

Lemma top_output_ranked (ranked : list (K * Z)) (k : Z) :
  Z.of_nat (List.length ranked) <= k ->
  StronglySorted by_count_desc ranked ->
  Z.of_nat (List.length (top_output _outputproc ranked)) <= k /\
  exists counts : list Z,
    map (dict_get "count") (top_output _outputproc ranked)
    = map (fun c => Some (VInt c)) counts /\
    StronglySorted Z.ge counts.
Proof.
  intros Hlen Hs. split.
  - unfold top_output. now rewrite length_map.
  - exists (map snd ranked). split; [apply top_output_counts|now apply counts_sorted].
Qed.

End Ranking.

(** C6. For a bound [topnbr] that is not negative, and whatever the
    extractor yields, [topvalues] returns at most [topnbr] entries and their
    counts never increase along the list; this holds when occurrences are
    counted and when the recorded counts are summed. *)
Theorem topvalues_at_most_topnbr_sorted
        {K : Type} (key_eqb : K -> K -> bool) (_outputproc : K -> value)
        (stream : list K) (weighted_stream : list (K * Z)) (topnbr : Z)
        (out : list dict) :
  0 <= topnbr ->
  out = topvalues_distinct key_eqb _outputproc stream (Some topnbr) \/
  out = topvalues_weighted key_eqb _outputproc weighted_stream (Some topnbr) ->
  Z.of_nat (List.length out) <= topnbr /\
  exists counts : list Z,
    map (dict_get "count") out = map (fun c => Some (VInt c)) counts /\
    StronglySorted Z.ge counts.
Proof.
  intros Hk [->| ->]; unfold topvalues_distinct, topvalues_weighted;
    apply top_output_ranked;
    auto using most_common_length, most_common_sorted.
Qed.

Lemma topvalues_at_most_topnbr_sorted_witness :
  Z.of_nat (List.length
              (topvalues_distinct Z.eqb VInt [53; 80; 80; 443; 443; 443] (Some 2)))
  <= 2 /\
  exists counts : list Z,
    map (dict_get "count")
        (topvalues_distinct Z.eqb VInt [53; 80; 80; 443; 443; 443] (Some 2))
    = map (fun c => Some (VInt c)) counts /\
    StronglySorted Z.ge counts.
Proof.
  apply (topvalues_at_most_topnbr_sorted
           Z.eqb VInt [53; 80; 80; 443; 443; 443] [] 2).
  - lia.
  - left. reflexivity.
Defined.

(** ** Equality of values *)

Section ValueInduction.
Variable P : value -> Prop.
Hypothesis P_none : P VNone.
Hypothesis P_bool : forall b, P (VBool b).
Hypothesis P_int : forall z, P (VInt z).
Hypothesis P_str : forall s, P (VStr s).
Hypothesis P_bytes : forall b, P (VBytes b).
Hypothesis P_date : forall c, P (VDate c).
Hypothesis P_list : forall l, Forall P l -> P (VList l).
Hypothesis P_dict : forall d, Forall (fun kv => P (snd kv)) d -> P (VDict d).

Fixpoint value_induction (v : value) : P v :=
  match v with
  | VNone => P_none
  | VBool b => P_bool b
  | VInt z => P_int z
  | VStr s => P_str s
  | VBytes b => P_bytes b
  | VDate c => P_date c
  | VList l =>
      P_list l ((fix all (l : list value) : Forall P l :=
                   match l with
                   | [] => Forall_nil P
                   | x :: l' => Forall_cons x (value_induction x) (all l')
                   end) l)
  | VDict d =>
      P_dict d ((fix all (d : list (string * value))
                   : Forall (fun kv => P (snd kv)) d :=
                   match d with
                   | [] => Forall_nil _
                   | kv :: d' =>
                       Forall_cons kv (value_induction (snd kv)) (all d')
                   end) d)
  end.
End ValueInduction.

(** Two lists are equal when they have the same length and equal
    elements. *)
Fixpoint list_eqb (l m : list value) : bool :=
  match l, m with
  | [], [] => true
  | x :: l', y :: m' => py_eq x y && list_eqb l' m'
  | _, _ => false
  end.

(** Every item of [d] has an equal value under the same key in [e]. *)
Definition items_in (d e : dict) : bool :=
  forallb (fun kv => match dict_get (fst kv) e with
                     | Some v' => py_eq (snd kv) v'
                     | None => false
                     end) d.

(** Every item of [e] has an equal value under the same key in [d]. *)
Definition items_from (d e : dict) : bool :=
  forallb (fun kv' => match dict_get (fst kv') d with
                      | Some v => py_eq v (snd kv')
                      | None => false
                      end) e.

Lemma forallb_agree {A : Type} (f g : A -> bool) (l : list A) :
  (forall x, In x l -> f x = g x) -> forallb f l = forallb g l.
Proof.
  induction l as [|x l IH]; intros H; [reflexivity|].
  cbn [forallb]. rewrite (H x (or_introl eq_refl)). f_equal.
  apply IH. intros y Hy. apply H. now right.
Qed.

Lemma py_eq_list l m : py_eq (VList l) (VList m) = list_eqb l m.
Proof.
  revert m. induction l as [|x l IH]; intros [|y m]; reflexivity.
Qed.

Lemma py_eq_dict d e : py_eq (VDict d) (VDict e) = items_in d e && items_from d e.
Proof.
  cbn [py_eq]. f_equal.
  - unfold items_in. induction d as [|[k v] d IH]; [reflexivity|].
    cbn [forallb fst snd]. now rewrite <- IH.
  - unfold items_from. apply forallb_agree. intros [k' v'] _. cbn [fst snd].
    induction d as [|[k v] d IH]; [reflexivity|].
    cbn [dict_get]. now destruct (k =? k')%string.
Qed.

Lemma dict_get_In k d v : dict_get k d = Some v -> In (k, v) d.
Proof.
  induction d as [|[k' v'] d IH]; [discriminate|].
  cbn [dict_get]. destruct (String.eqb_spec k' k) as [->|Hne].
  - intros [= ->]. now left.
  - intros H. right. now apply IH.
Qed.

Lemma dict_get_NoDup k d v :
  NoDup (map fst d) -> In (k, v) d -> dict_get k d = Some v.
Proof.
  induction d as [|[k' v'] d IH]; intros Hnd Hin; [contradiction|].
  cbn [map fst] in Hnd. apply NoDup_cons_iff in Hnd as [Hnotin Hnd].
  cbn [dict_get]. destruct Hin as [[= -> ->]|Hin].
  - now rewrite String.eqb_refl.
  - destruct (String.eqb_spec k' k) as [->|Hne]; [|now apply IH].
    exfalso. apply Hnotin. change k with (fst (k, v)). now apply in_map.
Qed.

Lemma py_eq_sym a : forall b, py_eq a b = py_eq b a.
Proof.
  induction a as [| x | x | x | x | x | l IH | d IH] using value_induction;
    intros b.
  - now destruct b.
  - destruct b as [|y|y| | | | |]; try reflexivity; cbn [py_eq].
    + now destruct x, y.
    + apply Z.eqb_sym.
  - destruct b as [|y|y| | | | |]; try reflexivity; cbn [py_eq]; apply Z.eqb_sym.
  - destruct b as [| | |y| | | |]; try reflexivity. apply String.eqb_sym.
  - destruct b as [| | | |y| | |]; try reflexivity. apply String.eqb_sym.
  - destruct b as [| | | | |y| |]; try reflexivity. apply Z.eqb_sym.
  - destruct b as [| | | | | |m|]; try reflexivity.
    rewrite !py_eq_list. revert m.
    induction IH as [|x l Hx _ IHl]; intros [|y m]; try reflexivity.
    cbn [list_eqb]. now rewrite Hx, IHl.
  - destruct b as [| | | | | | |e]; try reflexivity.
    rewrite !py_eq_dict.
    rewrite andb_comm. rewrite Forall_forall in IH. f_equal.
    + unfold items_from, items_in. apply forallb_agree. intros [k' v'] _.
      cbn [fst snd].
      destruct (dict_get k' d) as [v|] eqn:Hget; [|reflexivity].
      apply dict_get_In in Hget.
      apply (IH _ Hget).
    + unfold items_from, items_in. apply forallb_agree. intros [k v] Hin.
      cbn [fst snd].
      destruct (dict_get k e); [|reflexivity].
      apply (IH _ Hin).
Qed.

Lemma py_eq_num a b :
  py_eq a b = true ->
  match as_num a with
  | Some x => as_num b = Some x
  | None => as_num b = None
  end.
Proof.
  destruct a, b; cbn [py_eq as_num]; try discriminate; try reflexivity;
    intros H.
  - now destruct b0, b; try discriminate.
  - apply Z.eqb_eq in H. now subst.
  - apply Z.eqb_eq in H. now subst.
  - apply Z.eqb_eq in H. now subst.
Qed.

Lemma py_eq_trans a : forall b c,
  py_eq a b = true -> py_eq b c = true -> py_eq a c = true.
Proof.
  induction a as [| x | x | x | x | x | l IH | d IH] using value_induction;
    intros b c Hab Hbc.
  - destruct b; try discriminate Hab. exact Hbc.
  - apply py_eq_num in Hab. cbn [as_num] in Hab.
    assert (Hc := py_eq_num _ _ Hbc). rewrite Hab in Hc.
    destruct c; try discriminate Hc; cbn [as_num py_eq] in *.
    + injection Hc as Hc. destruct b0, x; try discriminate Hc; reflexivity.
    + injection Hc as ->. apply Z.eqb_refl.
  - apply py_eq_num in Hab. cbn [as_num] in Hab.
    assert (Hc := py_eq_num _ _ Hbc). rewrite Hab in Hc.
    destruct c; try discriminate Hc; cbn [as_num py_eq] in *.
    + injection Hc as ->. apply Z.eqb_refl.
    + injection Hc as ->. apply Z.eqb_refl.
  - destruct b; try discriminate Hab. cbn [py_eq] in Hab.
    apply String.eqb_eq in Hab. now subst.
  - destruct b; try discriminate Hab. cbn [py_eq] in Hab.
    apply String.eqb_eq in Hab. now subst.
  - destruct b; try discriminate Hab. cbn [py_eq] in Hab.
    apply Z.eqb_eq in Hab. now subst.
  - destruct b as [| | | | | |m|]; try discriminate Hab.
    destruct c as [| | | | | |n|]; try discriminate Hbc.
    rewrite py_eq_list in *. revert m n Hab Hbc.
    induction IH as [|x l Hx _ IHl]; intros [|y m] [|z n] Hab Hbc;
      try discriminate; try reflexivity.
    cbn [list_eqb] in *.
    apply andb_true_iff in Hab as [H1 H2]. apply andb_true_iff in Hbc as [H3 H4].
    rewrite (Hx _ _ H1 H3), (IHl _ _ H2 H4). reflexivity.
  - destruct b as [| | | | | | |e]; try discriminate Hab.
    destruct c as [| | | | | | |f]; try discriminate Hbc.
    rewrite py_eq_dict in *.
    apply andb_true_iff in Hab as [Hde Hde']. apply andb_true_iff in Hbc as [Hef Hef'].
    unfold items_in, items_from in *.
    rewrite forallb_forall in Hde, Hde', Hef, Hef'.
    rewrite Forall_forall in IH.
    apply andb_true_iff. split; apply forallb_forall.
    + intros [k v] Hin. cbn [fst snd].
      specialize (Hde _ Hin). cbn [fst snd] in Hde.
      destruct (dict_get k e) as [v'|] eqn:Hge; [|discriminate Hde].
      specialize (Hef _ (dict_get_In _ _ _ Hge)). cbn [fst snd] in Hef.
      destruct (dict_get k f) as [v''|]; [|discriminate Hef].
      apply (IH _ Hin v' v'' Hde Hef).
    + intros [k v''] Hin. cbn [fst snd].
      specialize (Hef' _ Hin). cbn [fst snd] in Hef'.
      destruct (dict_get k e) as [v'|] eqn:Hge; [|discriminate Hef'].
      specialize (Hde' _ (dict_get_In _ _ _ Hge)). cbn [fst snd] in Hde'.
      destruct (dict_get k d) as [v|] eqn:Hgd; [|discriminate Hde'].
      apply (IH _ (dict_get_In _ _ _ Hgd) v' v'' Hde' Hef').
Qed.

Lemma wf_list_inv l : wf_value (VList l) <-> Forall wf_value l.
Proof.
  induction l as [|x l IH].
  - split; [constructor|exact (fun _ => I)].
  - split.
    + intros [Hx Hl]. constructor; [exact Hx|now apply IH].
    + intros H. inversion H; subst. split; [assumption|now apply IH].
Qed.

Lemma wf_dict_inv d :
  wf_value (VDict d) <->
  NoDup (map fst d) /\ Forall (fun kv => wf_value (snd kv)) d.
Proof.
  cbn [wf_value].
  assert (H : (fix all (d : list (string * value)) : Prop :=
                 match d with
                 | [] => True
                 | (_, x) :: d' => wf_value x /\ all d'
                 end) d <-> Forall (fun kv => wf_value (snd kv)) d).
  { induction d as [|[k v] d IH].
    - split; [constructor|exact (fun _ => I)].
    - split.
      + intros [Hx Hl]. constructor; [exact Hx|now apply IH].
      + intros H. inversion H; subst. split; [assumption|now apply IH]. }
  tauto.
Qed.

Lemma py_eq_refl a : wf_value a -> py_eq a a = true.
Proof.
  induction a as [| x | x | x | x | x | l IH | d IH] using value_induction;
    intros Hwf.
  - reflexivity.
  - now destruct x.
  - apply Z.eqb_refl.
  - apply String.eqb_refl.
  - apply String.eqb_refl.
  - apply Z.eqb_refl.
  - rewrite py_eq_list. apply wf_list_inv in Hwf.
    induction IH as [|x l Hx _ IHl]; [reflexivity|].
    inversion Hwf; subst. cbn [list_eqb]. rewrite Hx by assumption. now apply IHl.
  - rewrite py_eq_dict. apply wf_dict_inv in Hwf as [Hnd Hall].
    rewrite Forall_forall in IH, Hall.
    apply andb_true_iff. split; apply forallb_forall; intros [k v] Hin;
      cbn [fst snd]; rewrite (dict_get_NoDup _ _ _ Hnd Hin);
      apply (IH _ Hin), (Hall _ Hin).
Qed.

(** ** The model of [sorted]: permutation, stability, blocks *)

Section SortedFacts.
Context {A : Type}.
Variable cmp : A -> A -> result Z.

Lemma insert_sorted_perm x l : forall l',
  insert_sorted cmp x l = Ok l' -> Permutation (x :: l) l'.
Proof.
  induction l as [|y l IH]; intros l' H; cbn [insert_sorted] in H.
  - injection H as <-. apply Permutation_refl.
  - destruct (cmp y x) as [c|e]; [|discriminate H]. cbn [bind] in H.
    destruct (c <? 0).
    + destruct (insert_sorted cmp x l) as [r|e]; [|discriminate H].
      injection H as <-. rewrite perm_swap. apply perm_skip. now apply IH.
    + injection H as <-. apply Permutation_refl.
Qed.

Lemma sorted_perm l : forall l', sorted cmp l = Ok l' -> Permutation l l'.
Proof.
  induction l as [|x l IH]; intros l' H; cbn [sorted] in H.
  - injection H as <-. apply perm_nil.
  - destruct (sorted cmp l) as [s|e]; [|discriminate H]. cbn [bind] in H.
    apply insert_sorted_perm in H.
    rewrite <- H. apply perm_skip. now apply IH.
Qed.

(** No comparison fails when every pair of the list can be compared. *)
Lemma insert_sorted_total x l :
  (forall y, In y l -> exists c, cmp y x = Ok c) ->
  exists l', insert_sorted cmp x l = Ok l'.
Proof.
  induction l as [|y l IH]; intros H; cbn [insert_sorted]; [eauto|].
  destruct (H y (or_introl eq_refl)) as [c ->]. cbn [bind].
  destruct (c <? 0); [|eauto].
  destruct IH as [r ->]; [|cbn [bind]; eauto].
  intros z Hz. apply H. now right.
Qed.

Lemma sorted_total l :
  (forall x y, In x l -> In y l -> exists c, cmp x y = Ok c) ->
  exists l', sorted cmp l = Ok l'.
Proof.
  induction l as [|x l IH]; intros H; cbn [sorted]; [eauto|].
  destruct IH as [s Hs].
  { intros y z Hy Hz. apply H; now right. }
  rewrite Hs. cbn [bind]. apply insert_sorted_total.
  intros y Hy. apply H; [right|now left].
  eapply Permutation_in; [apply Permutation_sym, sorted_perm; exact Hs|exact Hy].
Qed.

(** Stability: the items of a class keep their order, when two items of
    the class always compare as equal. *)
Section Stability.
Variable same : A -> bool.
Hypothesis same_tie : forall x y, same x = true -> same y = true -> cmp y x = Ok 0.

Lemma insert_sorted_stable x l : forall l',
  insert_sorted cmp x l = Ok l' -> filter same l' = filter same (x :: l).
Proof.
  induction l as [|y l IH]; intros l' H; cbn [insert_sorted] in H.
  - now injection H as <-.
  - destruct (cmp y x) as [c|e] eqn:Hc; [|discriminate H]. cbn [bind] in H.
    destruct (c <? 0) eqn:Hneg.
    + destruct (insert_sorted cmp x l) as [r|e]; [|discriminate H].
      injection H as <-. cbn [filter]. rewrite (IH r eq_refl). cbn [filter].
      destruct (same y) eqn:Hy, (same x) eqn:Hx; try reflexivity.
      rewrite (same_tie x y Hx Hy) in Hc. injection Hc as <-. discriminate Hneg.
    + now injection H as <-.
Qed.

Lemma sorted_stable l : forall l',
  sorted cmp l = Ok l' -> filter same l' = filter same l.
Proof.
  induction l as [|x l IH]; intros l' H; cbn [sorted] in H.
  - now injection H as <-.
  - destruct (sorted cmp l) as [s|e]; [|discriminate H]. cbn [bind] in H.
    rewrite (insert_sorted_stable _ _ _ H). cbn [filter].
    now rewrite (IH s eq_refl).
Qed.
End Stability.

(** Blocks: when the items of a class go past the others and the others
    stop at them, the sorted list is made of the class, then the others. *)
Section Blocks.
Variable first : A -> bool.
Hypothesis goes_past : forall y x c,
  first y = true -> first x = false -> cmp y x = Ok c -> c < 0.
Hypothesis stops_at : forall y x c,
  first y = false -> first x = true -> cmp y x = Ok c -> 0 <= c.

Definition in_blocks (l : list A) : Prop :=
  exists a b, l = a ++ b /\
              Forall (fun x => first x = true) a /\
              Forall (fun x => first x = false) b.

Lemma insert_sorted_first x a : forall b l',
  first x = true ->
  Forall (fun y => first y = true) a ->
  Forall (fun y => first y = false) b ->
  insert_sorted cmp x (a ++ b) = Ok l' ->
  exists a', l' = a' ++ b /\ Forall (fun y => first y = true) a'.
Proof.
  induction a as [|y a IH]; intros b l' Hx Ha Hb H.
  - cbn [app] in H. destruct b as [|y b]; cbn [insert_sorted] in H.
    + injection H as <-. exists [x]. auto.
    + destruct (cmp y x) as [c|e] eqn:Hc; [|discriminate H]. cbn [bind] in H.
      inversion Hb; subst.
      pose proof (stops_at _ _ _ H2 Hx Hc) as Hge.
      destruct (Z.ltb_spec c 0); [lia|].
      injection H as <-. exists [x]. auto.
  - inversion Ha; subst. cbn [app insert_sorted] in H.
    destruct (cmp y x) as [c|e]; [|discriminate H]. cbn [bind] in H.
    destruct (c <? 0).
    + destruct (insert_sorted cmp x (a ++ b)) as [r|e] eqn:Hr; [|discriminate H].
      injection H as <-.
      destruct (IH b r Hx H3 Hb Hr) as (a' & -> & Ha').
      exists (y :: a'). auto.
    + injection H as <-. exists (x :: y :: a). auto.
Qed.

Lemma insert_sorted_other x b : forall l',
  first x = false ->
  Forall (fun y => first y = false) b ->
  insert_sorted cmp x b = Ok l' ->
  Forall (fun y => first y = false) l'.
Proof.
  intros l' Hx Hb H. apply insert_sorted_perm in H.
  eapply Permutation_Forall; [exact H|]. now constructor.
Qed.

Lemma insert_sorted_second x a : forall b l',
  first x = false ->
  Forall (fun y => first y = true) a ->
  Forall (fun y => first y = false) b ->
  insert_sorted cmp x (a ++ b) = Ok l' ->
  exists b', l' = a ++ b' /\ Forall (fun y => first y = false) b'.
Proof.
  induction a as [|y a IH]; intros b l' Hx Ha Hb H.
  - exists l'. split; [reflexivity|]. eapply insert_sorted_other; eauto.
  - inversion Ha; subst. cbn [app insert_sorted] in H.
    destruct (cmp y x) as [c|e] eqn:Hc; [|discriminate H]. cbn [bind] in H.
    pose proof (goes_past _ _ _ H2 Hx Hc) as Hlt.
    destruct (Z.ltb_spec c 0); [|lia].
    destruct (insert_sorted cmp x (a ++ b)) as [r|e] eqn:Hr; [|discriminate H].
    injection H as <-.
    destruct (IH b r Hx H3 Hb Hr) as (b' & -> & Hb').
    exists b'. auto.
Qed.

Lemma sorted_in_blocks l : forall l', sorted cmp l = Ok l' -> in_blocks l'.
Proof.
  induction l as [|x l IH]; intros l' H; cbn [sorted] in H.
  - injection H as <-. exists [], []. auto.
  - destruct (sorted cmp l) as [s|e]; [|discriminate H]. cbn [bind] in H.
    destruct (IH s eq_refl) as (a & b & -> & Ha & Hb).
    destruct (first x) eqn:Hx.
    + destruct (insert_sorted_first x a b l' Hx Ha Hb H) as (a' & -> & Ha').
      exists a', b. auto.
    + destruct (insert_sorted_second x a b l' Hx Ha Hb H) as (b' & -> & Hb').
      exists a, b'. auto.
Qed.
End Blocks.

End SortedFacts.

(** ** The comparator of [get] *)

(** The walk of the comparator along a sort key, one record at a time. *)
Fixpoint key_value (segs : list string) (f : value) : result value :=
  match segs with
  | [] => Ok f
  | sk :: segs' => g <- cmp_step sk f ;; key_value segs' g
  end.

(** The comparator finds equal values at the key [k] in two records. *)
Definition tied_on (k : string) (v1 v2 : value) : bool :=
  match cmp_walk (split_dot k) v1 v2 with
  | Ok (f1, f2) => py_eq f1 f2
  | Raise _ => false
  end.

(** The comparator finds equal values at every key of [sort]. *)
Definition tied (sort : list (string * Z)) (v1 v2 : value) : bool :=
  forallb (fun ko => tied_on (fst ko) v1 v2) sort.

Definition tied_docs (sort : list (string * Z)) (r d : document) : bool :=
  tied sort (VDict (doc_body r)) (VDict (doc_body d)).

(** The order given by one key, in direction [o], to two values that
    differ: [None] is lower than anything. *)
Definition decide_key (o : Z) (f1 f2 : value) : result Z :=
  if is_none f1 then Ok (- o)
  else if is_none f2 then Ok o
  else lt <- py_lt f1 f2 ;; if lt then Ok (- o) else Ok o.

(** The comparator finds [None] at the key [k] in the document. *)
Definition none_at (k : string) (d : document) : bool :=
  match key_value (split_dot k) (VDict (doc_body d)) with
  | Ok VNone => true
  | _ => false
  end.

Lemma cmp_walk_split segs : forall f1 f2 g1 g2,
  cmp_walk segs f1 f2 = Ok (g1, g2) <->
  key_value segs f1 = Ok g1 /\ key_value segs f2 = Ok g2.
Proof.
  induction segs as [|sk segs IH]; intros f1 f2 g1 g2; cbn [cmp_walk key_value].
  - split; [intros [= -> ->]; auto|intros [[= ->] [= ->]]; reflexivity].
  - destruct (cmp_step sk f1) as [h1|e1], (cmp_step sk f2) as [h2|e2];
      cbn [bind]; try apply IH; split; try discriminate;
      intros [? ?]; discriminate.
Qed.

Lemma tied_on_spec k v1 v2 :
  tied_on k v1 v2 = true <->
  exists f1 f2, key_value (split_dot k) v1 = Ok f1 /\
                key_value (split_dot k) v2 = Ok f2 /\
                py_eq f1 f2 = true.
Proof.
  unfold tied_on. split.
  - destruct (cmp_walk (split_dot k) v1 v2) as [[f1 f2]|e] eqn:H; [|discriminate].
    apply cmp_walk_split in H as [H1 H2]. eauto.
  - intros (f1 & f2 & H1 & H2 & He).
    now rewrite (proj2 (cmp_walk_split _ _ _ _ _) (conj H1 H2)).
Qed.

Lemma tied_on_trans k r x y :
  tied_on k r x = true -> tied_on k r y = true -> tied_on k y x = true.
Proof.
  rewrite !tied_on_spec.
  intros (fr & fx & Hr & Hx & Hrx) (fr' & fy & Hr' & Hy & Hry).
  rewrite Hr in Hr'. injection Hr' as <-.
  exists fy, fx. repeat split; try assumption.
  apply (py_eq_trans fy fr fx); [|assumption].
  now rewrite py_eq_sym.
Qed.

Lemma tied_trans sort r x y :
  tied sort r x = true -> tied sort r y = true -> tied sort y x = true.
Proof.
  unfold tied. rewrite !forallb_forall. intros Hx Hy ko Hko.
  eapply tied_on_trans; eauto.
Qed.

Lemma cmp_tied sort v1 v2 : tied sort v1 v2 = true -> _cmp sort v1 v2 = Ok 0.
Proof.
  induction sort as [|[k o] sort IH]; intros H; [reflexivity|].
  cbn [tied forallb fst] in H. apply andb_true_iff in H as [Hk Hrest].
  cbn [_cmp]. unfold tied_on in Hk.
  destruct (cmp_walk (split_dot k) v1 v2) as [[f1 f2]|e]; [|discriminate Hk].
  cbn [bind]. rewrite Hk. now apply IH.
Qed.

Lemma cmp_first_difference pre k o post v1 v2 f1 f2 :
  tied pre v1 v2 = true ->
  cmp_walk (split_dot k) v1 v2 = Ok (f1, f2) ->
  py_eq f1 f2 = false ->
  _cmp (pre ++ (k, o) :: post) v1 v2 = decide_key o f1 f2.
Proof.
  induction pre as [|[k' o'] pre IH]; intros Hpre Hw Hne.
  - cbn [app _cmp]. rewrite Hw. cbn [bind]. rewrite Hne. reflexivity.
  - cbn [tied forallb fst] in Hpre. apply andb_true_iff in Hpre as [Hk Hrest].
    cbn [app _cmp]. unfold tied_on in Hk.
    destruct (cmp_walk (split_dot k') v1 v2) as [[g1 g2]|e]; [|discriminate Hk].
    cbn [bind]. rewrite Hk. now apply IH.
Qed.

(** The first key of the sort decides between a record without a value
    there and a record with one. *)
Lemma cmp_docs_none_left k o post y x c :
  none_at k y = true -> none_at k x = false ->
  cmp_docs ((k, o) :: post) y x = Ok c -> c = - o.
Proof.
  unfold none_at, cmp_docs. cbn [_cmp]. intros Hy Hx H.
  destruct (cmp_walk _ _ _) as [[f1 f2]|e] eqn:Hw; [|discriminate H].
  apply cmp_walk_split in Hw as [H1 H2]. rewrite H1 in Hy. rewrite H2 in Hx.
  cbn [bind] in H.
  destruct f1; try discriminate Hy.
  destruct f2; try discriminate Hx; cbn [py_eq is_none] in H; congruence.
Qed.

Lemma cmp_docs_none_right k o post y x c :
  none_at k y = false -> none_at k x = true ->
  cmp_docs ((k, o) :: post) y x = Ok c -> c = o.
Proof.
  unfold none_at, cmp_docs. cbn [_cmp]. intros Hy Hx H.
  destruct (cmp_walk _ _ _) as [[f1 f2]|e] eqn:Hw; [|discriminate H].
  apply cmp_walk_split in Hw as [H1 H2]. rewrite H1 in Hy. rewrite H2 in Hx.
  cbn [bind] in H.
  destruct f2; try discriminate Hx.
  destruct f1; try discriminate Hy; cbn [py_eq is_none] in H; congruence.
Qed.

Lemma sorted_ascending_nones_first k post l l' :
  sorted (cmp_docs ((k, 1) :: post)) l = Ok l' ->
  exists nones others,
    l' = nones ++ others /\
    Forall (fun d => none_at k d = true) nones /\
    Forall (fun d => none_at k d = false) others.
Proof.
  intros H.
  apply (sorted_in_blocks (cmp_docs ((k, 1) :: post)) (none_at k)) in H.
  - exact H.
  - intros y x c Hy Hx Hc. rewrite (cmp_docs_none_left _ _ _ _ _ _ Hy Hx Hc). lia.
  - intros y x c Hy Hx Hc. rewrite (cmp_docs_none_right _ _ _ _ _ _ Hy Hx Hc). lia.
Qed.

Lemma sorted_descending_nones_last k post l l' :
  sorted (cmp_docs ((k, -1) :: post)) l = Ok l' ->
  exists others nones,
    l' = others ++ nones /\
    Forall (fun d => none_at k d = false) others /\
    Forall (fun d => none_at k d = true) nones.
Proof.
  intros H.
  apply (sorted_in_blocks (cmp_docs ((k, -1) :: post))
                          (fun d => negb (none_at k d))) in H.
  - destruct H as (a & b & -> & Ha & Hb). exists a, b.
    repeat split; [|eapply Forall_impl; [|exact Hb]];
      [eapply Forall_impl; [|exact Ha]|];
      cbv beta; intros d Hd; now destruct (none_at k d).
  - intros y x c Hy Hx Hc.
    apply negb_true_iff in Hy. apply negb_false_iff in Hx.
    rewrite (cmp_docs_none_right _ _ _ _ _ _ Hy Hx Hc). lia.
  - intros y x c Hy Hx Hc.
    apply negb_false_iff in Hy. apply negb_true_iff in Hx.
    rewrite (cmp_docs_none_left _ _ _ _ _ _ Hy Hx Hc). lia.
Qed.

Lemma sorted_docs_stable sort l l' r :
  sorted (cmp_docs sort) l = Ok l' ->
  filter (tied_docs sort r) l' = filter (tied_docs sort r) l.
Proof.
  apply sorted_stable. intros x y Hx Hy.
  apply cmp_tied. unfold tied_docs in *. eapply tied_trans; eassumption.
Qed.

(** *** The value of a record at a sort key

    What a record holds at a dotted sort key, stated apart from the code
    of the comparator: the documents are followed key by key; a key that a
    document does not hold, or a parent that is [None], gives [None]; the
    value is not defined when the path meets a value that is neither a
    document nor [None] before its end. *)
Fixpoint sort_value (segs : list string) (v : value) : option value :=
  match segs with
  | [] => Some v
  | sk :: segs' =>
      match v with
      | VNone => Some VNone
      | VDict d =>
          match dict_get sk d with
          | Some x => sort_value segs' x
          | None => Some VNone
          end
      | _ => None
      end
  end.

(** The two records have equal values at the key [k]. *)
Definition same_on (k : string) (v1 v2 : value) : bool :=
  match sort_value (split_dot k) v1, sort_value (split_dot k) v2 with
  | Some x1, Some x2 => py_eq x1 x2
  | _, _ => false
  end.

(** The two records have equal values at every key of [sort]. *)
Definition same_keys (sort : list (string * Z)) (v1 v2 : value) : bool :=
  forallb (fun ko => same_on (fst ko) v1 v2) sort.

Definition same_keys_docs (sort : list (string * Z)) (r d : document) : bool :=
  same_keys sort (VDict (doc_body r)) (VDict (doc_body d)).

(** The value of the document at the key [k] is missing or [None]. *)
Definition lacks_value (k : string) (d : document) : bool :=
  match sort_value (split_dot k) (VDict (doc_body d)) with
  | Some VNone => true
  | _ => false
  end.

(** The document has a value that is not [None] at the key [k]. *)
Definition holds_value (k : string) (d : document) : bool :=
  match sort_value (split_dot k) (VDict (doc_body d)) with
  | Some VNone | None => false
  | Some _ => true
  end.

(** The walk of the comparator from [None] stays at [None]. *)
Lemma key_value_none segs : key_value segs VNone = Ok VNone.
Proof.
  induction segs as [|sk segs IH]; [reflexivity|].
  cbn [key_value cmp_step truthy bind]. exact IH.
Qed.

(** The walk of the comparator computes the value at the key: a missing
    key and a missing parent give [None]. *)
Lemma key_value_sort_value segs : forall v x,
  sort_value segs v = Some x -> key_value segs v = Ok x.
Proof.
  induction segs as [|sk segs IH]; intros v x H; cbn [sort_value] in H.
  - now injection H as <-.
  - destruct v as [| | | | | |l|d]; try discriminate H.
    + injection H as <-. apply key_value_none.
    + cbn [key_value]. unfold cmp_step.
      destruct (dict_get sk d) as [y|] eqn:Hy.
      * assert (Ht : truthy (VDict d) = true)
          by (destruct d; [discriminate Hy|reflexivity]).
        rewrite Ht. cbn [py_get]. unfold dict_get_default. rewrite Hy.
        cbn [bind]. now apply IH.
      * injection H as <-.
        destruct (truthy (VDict d)); cbn [py_get]; unfold dict_get_default;
          rewrite ?Hy; cbn [bind]; apply key_value_none.
Qed.

Lemma same_on_tied k v1 v2 : same_on k v1 v2 = true -> tied_on k v1 v2 = true.
Proof.
  unfold same_on. intros H. apply tied_on_spec.
  destruct (sort_value (split_dot k) v1) as [x1|] eqn:H1; [|discriminate H].
  destruct (sort_value (split_dot k) v2) as [x2|] eqn:H2; [|discriminate H].
  exists x1, x2. auto using key_value_sort_value.
Qed.

Lemma same_keys_tied sort v1 v2 :
  same_keys sort v1 v2 = true -> tied sort v1 v2 = true.
Proof.
  unfold same_keys, tied. rewrite !forallb_forall.
  intros H ko Hko. apply same_on_tied. now apply H.
Qed.

Lemma sort_value_walk k v1 v2 x1 x2 :
  sort_value (split_dot k) v1 = Some x1 ->
  sort_value (split_dot k) v2 = Some x2 ->
  cmp_walk (split_dot k) v1 v2 = Ok (x1, x2).
Proof.
  intros H1 H2. apply cmp_walk_split. auto using key_value_sort_value.
Qed.

Lemma lacks_value_none_at k d :
  sort_value (split_dot k) (VDict (doc_body d)) <> None ->
  none_at k d = lacks_value k d /\ negb (none_at k d) = holds_value k d.
Proof.
  unfold none_at, lacks_value, holds_value. intros Hdef.
  destruct (sort_value (split_dot k) (VDict (doc_body d))) as [x|] eqn:Hx;
    [|now elim Hdef].
  rewrite (key_value_sort_value _ _ _ Hx). now destruct x.
Qed.

Lemma same_keys_stable sort l l' r :
  sorted (cmp_docs sort) l = Ok l' ->
  filter (same_keys_docs sort r) l' = filter (same_keys_docs sort r) l.
Proof.
  apply sorted_stable. intros x y Hx Hy.
  apply cmp_tied. unfold same_keys_docs in *.
  apply (tied_trans sort (VDict (doc_body r))); now apply same_keys_tied.
Qed.

Lemma defined_after_sort (sort : list (string * Z)) k l l' :
  Forall (fun d => sort_value (split_dot k) (VDict (doc_body d)) <> None) l ->
  sorted (cmp_docs sort) l = Ok l' ->
  Forall (fun d => sort_value (split_dot k) (VDict (doc_body d)) <> None) l'.
Proof.
  intros Hdef Hs. apply sorted_perm in Hs.
  rewrite Forall_forall in *. intros d Hd. apply Hdef.
  eapply Permutation_in; [apply Permutation_sym; exact Hs|exact Hd].
Qed.


(** Three scan records: the first has no [infos] at all, the second an
    [infos] without [as_num], the third has both. *)
Definition nested_records : list document :=
  [(1, [("source", VStr "s"); ("infos", VDict [("as_num", VInt 3)])]);
   (2, [("source", VStr "s")]);
   (3, [("source", VStr "s"); ("infos", VDict [("country", VStr "FR")])])].


(** The records, sorted on the nested key: in direction 1 the two records
    without [infos.as_num] come first, in their order; in direction -1
    they come last, in their order. *)
Example nested_key_sorted :
  sorted (cmp_docs [("infos.as_num", 1)]) nested_records
  = Ok [(2, [("source", VStr "s")]);
        (3, [("source", VStr "s"); ("infos", VDict [("country", VStr "FR")])]);
        (1, [("source", VStr "s"); ("infos", VDict [("as_num", VInt 3)])])] /\
  sorted (cmp_docs [("infos.as_num", -1)]) nested_records
  = Ok [(1, [("source", VStr "s"); ("infos", VDict [("as_num", VInt 3)])]);
        (2, [("source", VStr "s")]);
        (3, [("source", VStr "s"); ("infos", VDict [("country", VStr "FR")])])].
Proof. split; reflexivity. Qed.

(** Two records, the first of which holds a number where the sort key
    goes on. *)
Definition number_parent : list document :=
  [(1, [("a", VInt 5)]); (2, [("a", VDict [("b", VInt 1)])])].


(** ** Dictionaries: reading after writing *)

Lemma dict_get_set_same k v d : dict_get k (dict_set k v d) = Some v.
Proof.
  induction d as [|[k' v'] d IH]; cbn [dict_set dict_get].
  - now rewrite String.eqb_refl.
  - destruct (k' =? k)%string eqn:E; cbn [dict_get]; now rewrite E.
Qed.

Lemma dict_get_set_other k k' v d :
  k' <> k -> dict_get k (dict_set k' v d) = dict_get k d.
Proof.
  intros Hne. induction d as [|[k0 v0] d IH]; cbn [dict_set dict_get].
  - now rewrite (proj2 (String.eqb_neq k' k) Hne).
  - destruct (String.eqb_spec k0 k') as [->|Hne0]; cbn [dict_get].
    + now rewrite (proj2 (String.eqb_neq k' k) Hne).
    + now rewrite IH.
Qed.

Lemma dict_get_remove_same k d : dict_get k (dict_remove k d) = None.
Proof.
  induction d as [|[k' v'] d IH]; [reflexivity|]. cbn [dict_remove].
  destruct (k' =? k)%string eqn:E; [exact IH|]. cbn [dict_get]. now rewrite E.
Qed.

Lemma dict_get_remove_other k k' d :
  k' <> k -> dict_get k (dict_remove k' d) = dict_get k d.
Proof.
  intros Hne. induction d as [|[k0 v0] d IH]; [reflexivity|].
  cbn [dict_remove dict_get].
  destruct (String.eqb_spec k0 k') as [->|Hne0].
  - rewrite IH. now rewrite (proj2 (String.eqb_neq k' k) Hne).
  - cbn [dict_get]. now rewrite IH.
Qed.

Lemma dict_get_none_keys k d : dict_get k d = None <-> ~ In k (map fst d).
Proof.
  induction d as [|[k' v'] d IH]; cbn [dict_get map fst In]; [tauto|].
  destruct (String.eqb_spec k' k) as [->|Hne].
  - split; [discriminate|]. intros H. exfalso. apply H. now left.
  - rewrite IH. tauto.
Qed.

Lemma dict_remove_keys k k' d :
  In k (map fst (dict_remove k' d)) -> In k (map fst d) /\ k <> k'.
Proof.
  induction d as [|[k0 v0] d IH]; [contradiction|]. cbn [dict_remove].
  destruct (String.eqb_spec k0 k') as [->|Hne]; cbn [map fst In].
  - intros H. apply IH in H. tauto.
  - intros [<-|H]; [auto|]. apply IH in H. tauto.
Qed.

Lemma dict_remove_In kv k' d : In kv (dict_remove k' d) -> In kv d.
Proof.
  induction d as [|[k0 v0] d IH]; [contradiction|]. cbn [dict_remove].
  destruct (k0 =? k')%string; cbn [In]; intuition.
Qed.

Lemma dict_remove_NoDup k' d :
  NoDup (map fst d) -> NoDup (map fst (dict_remove k' d)).
Proof.
  induction d as [|[k0 v0] d IH]; intros H; [constructor|].
  cbn [map fst] in H. apply NoDup_cons_iff in H as [Hnotin Hnd].
  cbn [dict_remove]. destruct (k0 =? k')%string; [now apply IH|].
  cbn [map fst]. constructor; [|now apply IH].
  intros Hin. apply dict_remove_keys in Hin. tauto.
Qed.

Lemma dict_set_keys k k' v d :
  In k (map fst (dict_set k' v d)) -> In k (map fst d) \/ k = k'.
Proof.
  induction d as [|[k0 v0] d IH]; cbn [dict_set map fst In].
  - intros [<-|[]]. now right.
  - destruct (String.eqb_spec k0 k') as [->|Hne]; cbn [map fst In].
    + tauto.
    + intros [<-|H]; [auto|]. apply IH in H. tauto.
Qed.

Lemma dict_set_In kv k' v d : In kv (dict_set k' v d) -> In kv d \/ kv = (k', v).
Proof.
  induction d as [|[k0 v0] d IH]; cbn [dict_set In].
  - intros [<-|[]]. now right.
  - destruct (String.eqb_spec k0 k') as [->|Hne]; cbn [In].
    + intros [<-|H]; auto.
    + intros [<-|H]; [auto|]. apply IH in H. tauto.
Qed.

Lemma dict_set_NoDup k' v d :
  NoDup (map fst d) -> NoDup (map fst (dict_set k' v d)).
Proof.
  induction d as [|[k0 v0] d IH]; intros H; cbn [dict_set].
  - cbn. constructor; [intros []|constructor].
  - cbn [map fst] in H. apply NoDup_cons_iff in H as [Hnotin Hnd].
    destruct (String.eqb_spec k0 k') as [->|Hne]; cbn [map fst].
    + now constructor.
    + constructor; [|now apply IH].
      intros Hin. apply dict_set_keys in Hin as [Hin| ->]; [auto|congruence].
Qed.

Lemma wf_dict_remove k d : wf_dict d -> wf_dict (dict_remove k d).
Proof.
  unfold wf_dict. rewrite !wf_dict_inv. intros [Hnd Hall]. split.
  - now apply dict_remove_NoDup.
  - rewrite Forall_forall in *. intros kv Hin. apply Hall.
    eapply dict_remove_In; eassumption.
Qed.

Lemma wf_dict_set k v d : wf_value v -> wf_dict d -> wf_dict (dict_set k v d).
Proof.
  unfold wf_dict. rewrite !wf_dict_inv. intros Hv [Hnd Hall]. split.
  - now apply dict_set_NoDup.
  - rewrite Forall_forall in *. intros kv Hin.
    apply dict_set_In in Hin as [Hin| ->]; [now apply Hall|exact Hv].
Qed.

(** ** The passive merge *)

(** The stored record [d] has, under every key of [s], a value equal to
    the value of [s]. *)
Definition matches (s : dict) (d : dict) : bool :=
  forallb (fun kv => field_is (fst kv) (snd kv) (VDict d)) s.

(** The [lastseen] argument: absent, or a number. *)
Definition lastseen_arg (l : option Z) : value :=
  match l with
  | Some x => VInt x
  | None => VNone
  end.

(** The value stored as [lastseen] at creation: [lastseen or timestamp]. *)
Definition effective_lastseen (l : option Z) (timestamp : Z) : Z :=
  match l with
  | Some x => if x =? 0 then timestamp else x
  | None => timestamp
  end.

(** The record holds two numbers, [firstseen] not after [lastseen]. *)
Definition seen_ok (d : document) : Prop :=
  exists f l, dict_get "firstseen" (doc_body d) = Some (VInt f) /\
              dict_get "lastseen" (doc_body d) = Some (VInt l) /\
              f <= l.

Lemma fold_and_pure (kvs : dict) (d : dict) : forall (c : query) (b : bool),
  c (VDict d) = Ok b ->
  fold_left _flt_and (map (fun kv => q_eq [fst kv] (snd kv)) kvs) c (VDict d)
  = Ok (b && matches kvs d).
Proof.
  induction kvs as [|kv kvs IH]; intros c b Hc; cbn [map fold_left].
  - cbn. now rewrite andb_true_r.
  - rewrite (IH _ (b && field_is (fst kv) (snd kv) (VDict d))).
    + cbn [matches forallb]. now rewrite andb_assoc.
    + unfold _flt_and, q_and. rewrite Hc. cbn [bind].
      destruct b; [apply q_eq_field|reflexivity].
Qed.

Lemma spec_cond_pure (s d : dict) : spec_cond s (VDict d) = Ok (matches s d).
Proof.
  unfold spec_cond, flt_and. destruct s as [|kv s]; [reflexivity|].
  cbn [map]. rewrite (fold_and_pure s d _ _ (q_eq_field _ _ _)).
  reflexivity.
Qed.

Lemma matches_set_other s k v d :
  dict_get k s = None -> matches s (dict_set k v d) = matches s d.
Proof.
  intros Hk. unfold matches. apply forallb_agree. intros [k' v'] Hin.
  unfold field_is. cbn [fst snd resolve py_getitem].
  rewrite dict_get_set_other; [reflexivity|].
  intros ->. apply dict_get_none_keys in Hk. apply Hk.
  change k' with (fst (k', v')). now apply in_map.
Qed.

Lemma matches_self s : wf_dict s -> matches s s = true.
Proof.
  intros Hwf. apply wf_dict_inv in Hwf as [Hnd Hall].
  rewrite Forall_forall in Hall.
  unfold matches. apply forallb_forall. intros [k v] Hin.
  unfold field_is. cbn [fst snd resolve py_getitem].
  rewrite (dict_get_NoDup _ _ _ Hnd Hin).
  apply py_eq_refl. apply (Hall _ Hin).
Qed.

(** ** Tables: the last document, fresh identifiers *)

Lemma next_id_above (t : table) d : In d t -> doc_id d < next_id t.
Proof.
  unfold next_id. induction t as [|x t IH]; [contradiction|].
  cbn [fold_right]. intros [->|Hin]; [lia|]. specialize (IH Hin). lia.
Qed.

Lemma next_id_fresh (t : table) : ~ In (next_id t) (map doc_id t).
Proof.
  intros Hin. apply in_map_iff in Hin as (d & Hd & Hin).
  apply next_id_above in Hin. lia.
Qed.

Lemma update_one_last transform id pre doc doc' :
  ~ In id (map doc_id pre) ->
  transform doc = Ok doc' ->
  update_one transform id (pre ++ [(id, doc)]) = Ok (pre ++ [(id, doc')]).
Proof.
  intros Hfresh Ht. unfold update_one.
  assert (Hex : existsb (fun d : document => doc_id d =? id) (pre ++ [(id, doc)]) = true).
  { rewrite existsb_app. cbn. rewrite Z.eqb_refl. now rewrite orb_true_r. }
  rewrite Hex. clear Hex.
  induction pre as [|d pre IH]; cbn [app mapM].
  - cbn [doc_id doc_body fst snd]. rewrite Z.eqb_refl, Ht. reflexivity.
  - cbn [map In] in Hfresh.
    destruct (Z.eqb_spec (doc_id d) id) as [E|_]; [tauto|].
    cbn [bind]. rewrite IH by tauto. reflexivity.
Qed.

Lemma update_one_Forall (P : document -> Prop) transform id :
  (forall d body, P d -> transform (doc_body d) = Ok body -> P (doc_id d, body)) ->
  forall t t', Forall P t -> update_one transform id t = Ok t' -> Forall P t'.
Proof.
  intros Hstep t t' Ht. unfold update_one.
  destruct (existsb _ t); [|discriminate].
  revert t'. induction Ht as [|d t Hd Ht IH]; intros t' H; cbn [mapM] in H.
  - injection H as <-. constructor.
  - destruct (doc_id d =? id).
    + destruct (transform (doc_body d)) as [body|e] eqn:Hb; [|discriminate H].
      cbn [bind] in H.
      destruct (mapM _ t) as [r|e]; [|discriminate H]. injection H as <-.
      constructor; [now apply Hstep|now apply IH].
    + cbn [bind] in H.
      destruct (mapM _ t) as [r|e]; [|discriminate H]. injection H as <-.
      constructor; [exact Hd|now apply IH].
Qed.

Lemma hd_error_filter {A B : Type} (f : A -> B) (p : A -> bool) (l : list A) :
  hd_error (map f (filter p l)) = option_map f (find p l).
Proof.
  induction l as [|x l IH]; [reflexivity|]. cbn [filter find].
  destruct (p x); [reflexivity|exact IH].
Qed.

Lemma find_none_filter {A : Type} (p : A -> bool) (l : list A) :
  find p l = None <-> filter p l = [].
Proof.
  induction l as [|x l IH]; cbn [find filter]; [tauto|].
  destruct (p x); [split; discriminate|exact IH].
Qed.

Section PassiveMerge.
Variable list_fields : list string.
Variable ip2bin : value -> result string.
Variable bin2ip : string -> result value.
Variable all2datetime : value -> result value.
Variable datetime2timestamp : value -> result value.
Variable decode_b64 : string -> result string.
Variable str_encode : string -> string.

Local Abbreviation insert_or_update' :=
  (insert_or_update list_fields ip2bin bin2ip all2datetime datetime2timestamp
                    decode_b64 str_encode).
Local Abbreviation rec2internal' :=
  (rec2internal ip2bin all2datetime datetime2timestamp).
Local Abbreviation get_one' :=
  (get_one list_fields bin2ip all2datetime decode_b64 str_encode).

(** What [get_one(spec_cond, fields=[])] returns for a stored document. *)
Definition found (d : document) : document :=
  (doc_id d, [("_id", VInt (doc_id d))]).

Lemma mapM_map_found (l : list document) :
  mapM (internal2rec bin2ip all2datetime decode_b64 str_encode)
       (map (fun rec : document => (doc_id rec, @nil (string * value))) l)
  = Ok (map found l).
Proof.
  induction l as [|d l IH]; [reflexivity|].
  cbn [map mapM]. rewrite IH. reflexivity.
Qed.

Lemma get_one_pure (cond : query) (test : dict -> bool) (db : table) :
  (forall d : dict, cond (VDict d) = Ok (test d)) ->
  get_one' db cond (Some []) = Ok (option_map found (find (passes test) db)).
Proof.
  intros Hpure. unfold get_one, passive_get, get.
  rewrite (search_pure cond test Hpure). cbn [bind build_fields].
  cbn [project apply_skip apply_limit].
  rewrite (mapM_pure _ (fun rec : document => (doc_id rec, @nil (string * value))))
    by reflexivity.
  cbn [bind]. rewrite mapM_map_found.
  cbn [bind]. now rewrite hd_error_filter.
Qed.

(** The fold of one sighting in a record that holds numbers. *)
Lemma op_update_numbers (count : value) (t u : Z) (doc doc' : dict) (f l : Z) :
  dict_get "firstseen" doc = Some (VInt f) ->
  dict_get "lastseen" doc = Some (VInt l) ->
  op_update count (VInt t) (VInt u) doc = Ok doc' ->
  exists c,
    py_add (dict_get_default "count" (VInt 0) doc) count = Ok c /\
    doc' = dict_set "lastseen" (VInt (Z.max l u))
             (dict_set "firstseen" (VInt (Z.min f t))
                (dict_set "count" c doc)).
Proof.
  intros Hf Hl. unfold op_update.
  destruct (py_add _ count) as [c|e]; [|discriminate]. cbn [bind is_none].
  unfold dict_get_default.
  rewrite (dict_get_set_other "firstseen" "count") by discriminate.
  rewrite Hf. cbn [py_min py_lt bind].
  rewrite (dict_get_set_other "lastseen" "firstseen") by discriminate.
  rewrite (dict_get_set_other "lastseen" "count") by discriminate.
  rewrite Hl. cbn [py_max py_gt py_lt bind].
  intros [= <-]. exists c. split; [reflexivity|].
  assert (E1 : (if l <? u then VInt u else VInt l) = VInt (Z.max l u))
    by (destruct (Z.ltb_spec l u); f_equal; lia).
  assert (E2 : (if t <? f then VInt t else VInt f) = VInt (Z.min f t))
    by (destruct (Z.ltb_spec t f); f_equal; lia).
  now rewrite E1, E2.
Qed.

Lemma op_update_numbers_ok (n : Z) (t u : Z) (doc : dict) (c f l : Z) :
  dict_get "count" doc = Some (VInt c) ->
  dict_get "firstseen" doc = Some (VInt f) ->
  dict_get "lastseen" doc = Some (VInt l) ->
  op_update (VInt n) (VInt t) (VInt u) doc
  = Ok (dict_set "lastseen" (VInt (Z.max l u))
          (dict_set "firstseen" (VInt (Z.min f t))
             (dict_set "count" (VInt (c + n)) doc))).
Proof.
  intros Hc Hf Hl. unfold op_update, dict_get_default.
  rewrite Hc. cbn [py_add as_num bind is_none].
  rewrite (dict_get_set_other "firstseen" "count") by discriminate.
  rewrite Hf. cbn [py_min py_lt bind].
  rewrite (dict_get_set_other "lastseen" "firstseen") by discriminate.
  rewrite (dict_get_set_other "lastseen" "count") by discriminate.
  rewrite Hl. cbn [py_max py_gt py_lt bind].
  assert (E1 : (if l <? u then VInt u else VInt l) = VInt (Z.max l u))
    by (destruct (Z.ltb_spec l u); f_equal; lia).
  assert (E2 : (if t <? f then VInt t else VInt f) = VInt (Z.min f t))
    by (destruct (Z.ltb_spec t f); f_equal; lia).
  now rewrite E1, E2.
Qed.

Lemma py_or_lastseen (ls : option Z) (ts : Z) :
  py_or (lastseen_arg ls) (VInt ts) = VInt (effective_lastseen ls ts).
Proof.
  destruct ls as [x|]; [|reflexivity].
  unfold py_or. cbn [lastseen_arg truthy effective_lastseen].
  now destruct (x =? 0).
Qed.

Lemma upsert_absent (doc : dict) (s : dict) (db : table) :
  find (passes (matches s)) db = None ->
  upsert doc (spec_cond s) db = Ok (db ++ [(next_id db, doc)]).
Proof.
  intros Hnone. apply find_none_filter in Hnone.
  unfold upsert.
  rewrite (update_where_none (spec_cond s) (matches s) (spec_cond_pure s) doc db Hnone).
  reflexivity.
Qed.

(** The record that a creating call stores, before the derived
    information is attached. *)
Definition created (s1 : dict) (ts : Z) (ls : option Z) : dict :=
  dict_set "lastseen" (VInt (effective_lastseen ls ts))
    (dict_set "firstseen" (VInt ts)
       (dict_set "count"
          (dict_get_default "count" (VInt 1) (dict_remove "infos" s1))
          (spec_key s1))).

(** The derived information, attached when the resolver gives some. *)
Definition with_infos (orig infos doc : dict) : dict :=
  match dict_get "infos" (dict_update orig infos) with
  | Some i => dict_set "infos" i doc
  | None => doc
  end.

(** A call with numbers for the times, unfolded. *)
Lemma insert_or_update_eval (ts : Z) (ls : option Z) (orig s1 : dict)
      (getinfos : option (dict -> result dict)) (db : table) :
  rec2internal' orig = Ok s1 ->
  insert_or_update' (VInt ts) (Some orig) getinfos (lastseen_arg ls) db
  = match find (passes (matches (spec_key s1))) db with
    | Some cur =>
        match update_ids
                (op_update (dict_get_default "count" (VInt 1)
                                             (dict_remove "infos" s1))
                           (VInt ts) (VInt (effective_lastseen ls ts)))
                [doc_id cur] db with
        | Ok db' => mk_outcome None db' []
        | Raise e => mk_outcome (Some e) db []
        end
    | None =>
        match getinfos with
        | None =>
            mk_outcome None (db ++ [(next_id db, created s1 ts ls)]) []
        | Some resolver =>
            match resolver orig with
            | Raise e => mk_outcome (Some e) db [orig]
            | Ok infos =>
                mk_outcome None
                  (db ++ [(next_id db,
                           with_infos orig infos (created s1 ts ls))])
                  [orig]
            end
        end
    end.
Proof.
  intros Hrec. unfold insert_or_update. rewrite Hrec. cbn [bind to_timestamp].
  assert (Hls : to_timestamp all2datetime datetime2timestamp (lastseen_arg ls)
                = Ok (lastseen_arg ls)) by now destruct ls.
  rewrite Hls. cbn [bind].
  rewrite (get_one_pure _ _ db (spec_cond_pure (spec_key s1))).
  cbn [bind]. rewrite py_or_lastseen.
  destruct (find (passes (matches (spec_key s1))) db) as [cur|] eqn:Hfind;
    cbn [option_map].
  - reflexivity.
  - fold (created s1 ts ls).
    destruct getinfos as [resolver|].
    + destruct (resolver orig) as [infos|e]; [|reflexivity].
      fold (with_infos orig infos (created s1 ts ls)).
      now rewrite (upsert_absent _ _ _ Hfind).
    + now rewrite (upsert_absent _ _ _ Hfind).
Qed.

Lemma insert_or_update_raise (timestamp lastseen : value) (orig : dict)
      (getinfos : option (dict -> result dict)) (db : table) e :
  rec2internal' orig = Raise e ->
  insert_or_update' timestamp (Some orig) getinfos lastseen db
  = mk_outcome (Some e) db [].
Proof. intros Hrec. unfold insert_or_update. now rewrite Hrec. Qed.

(** *** Sequences of calls *)

(** A call of [insert_or_update] with numbers for the times. *)
Record call : Type := mk_call {
  call_time : Z;
  call_spec : option dict;
  call_resolver : option (dict -> result dict);
  call_lastseen : option Z
}.

(** The table after the call. *)
Definition step (c : call) (db : table) : table :=
  db_after (insert_or_update' (VInt (call_time c)) (call_spec c)
                              (call_resolver c)
                              (lastseen_arg (call_lastseen c)) db).

Fixpoint run (cs : list call) (db : table) : table :=
  match cs with
  | [] => db
  | c :: cs' => run cs' (step c db)
  end.

(** The call finds no stored record for the observation, and creates
    one. *)
Definition creates (orig : dict) (db : table) : Prop :=
  exists s1, rec2internal' orig = Ok s1 /\
             search (spec_cond (spec_key s1)) db = Ok [].

(** A call that creates a record has no [lastseen] before its
    timestamp. *)
Definition creation_in_order (c : call) (db : table) : Prop :=
  forall orig, call_spec c = Some orig -> creates orig db ->
               call_time c <= effective_lastseen (call_lastseen c) (call_time c).

Fixpoint creations_in_order (cs : list call) (db : table) : Prop :=
  match cs with
  | [] => True
  | c :: cs' => creation_in_order c db /\ creations_in_order cs' (step c db)
  end.

Lemma created_seen (s1 : dict) (ts : Z) (ls : option Z) :
  dict_get "firstseen" (created s1 ts ls) = Some (VInt ts) /\
  dict_get "lastseen" (created s1 ts ls)
  = Some (VInt (effective_lastseen ls ts)).
Proof.
  unfold created. split.
  - rewrite dict_get_set_other by discriminate. apply dict_get_set_same.
  - apply dict_get_set_same.
Qed.

Lemma with_infos_get k orig infos doc :
  k <> "infos" -> dict_get k (with_infos orig infos doc) = dict_get k doc.
Proof.
  intros Hk. unfold with_infos.
  destruct (dict_get "infos" (dict_update orig infos)); [|reflexivity].
  apply dict_get_set_other. congruence.
Qed.

Lemma op_update_seen_ok count t u (d : document) body :
  seen_ok d ->
  op_update count (VInt t) (VInt u) (doc_body d) = Ok body ->
  seen_ok (doc_id d, body).
Proof.
  intros (f & l & Hf & Hl & Hle) Hop.
  destruct (op_update_numbers _ _ _ _ _ _ _ Hf Hl Hop) as (c & _ & ->).
  exists (Z.min f t), (Z.max l u). cbn [doc_body snd]. repeat split.
  - rewrite dict_get_set_other by discriminate. apply dict_get_set_same.
  - apply dict_get_set_same.
  - lia.
Qed.

Lemma step_seen_ok (c : call) (db : table) :
  Forall seen_ok db -> creation_in_order c db -> Forall seen_ok (step c db).
Proof.
  intros Hdb Hc. unfold step, creation_in_order in *.
  destruct c as [ts spec getinfos ls]. cbn [call_time call_spec call_resolver call_lastseen] in *.
  destruct spec as [orig|]; [|exact Hdb].
  destruct (rec2internal' orig) as [s1|e] eqn:Hrec.
  2:{ now rewrite (insert_or_update_raise _ _ _ _ _ _ Hrec). }
  rewrite (insert_or_update_eval ts ls orig s1 getinfos db Hrec).
  destruct (find (passes (matches (spec_key s1))) db) as [cur|] eqn:Hfind.
  - cbn [update_ids].
    destruct (update_one _ (doc_id cur) db) as [db'|e] eqn:Hup; [|exact Hdb].
    cbn [bind db_after].
    eapply update_one_Forall; [|exact Hdb|exact Hup].
    intros d body Hd Hop. eapply op_update_seen_ok; eassumption.
  - assert (Hle : ts <= effective_lastseen ls ts).
    { apply (Hc orig eq_refl). exists s1. split; [exact Hrec|].
      rewrite (search_pure _ _ (spec_cond_pure (spec_key s1))).
      f_equal. now apply find_none_filter. }
    destruct (created_seen s1 ts ls) as [Hf Hl].
    destruct getinfos as [resolver|].
    + destruct (resolver orig) as [infos|e]; [|exact Hdb].
      cbn [db_after]. apply Forall_app. split; [exact Hdb|].
      constructor; [|constructor].
      exists ts, (effective_lastseen ls ts). cbn [doc_body snd].
      rewrite !with_infos_get by discriminate. auto.
    + cbn [db_after]. apply Forall_app. split; [exact Hdb|].
      constructor; [|constructor].
      exists ts, (effective_lastseen ls ts). cbn [doc_body snd]. auto.
Qed.

Lemma run_seen_ok (cs : list call) : forall db,
  Forall seen_ok db -> creations_in_order cs db -> Forall seen_ok (run cs db).
Proof.
  induction cs as [|c cs IH]; intros db Hdb Hcs; [exact Hdb|].
  destruct Hcs as [Hc Hcs]. cbn [run]. apply IH; [|exact Hcs].
  now apply step_seen_ok.
Qed.


(** *** The same observation, several times *)

(** The observation [orig] is inserted once for every timestamp, with no
    [lastseen] argument; the result is the table, or the first exception. *)
Fixpoint feed (orig : dict) (getinfos : option (dict -> result dict))
         (timestamps : list Z) (db : table) : result table :=
  match timestamps with
  | [] => Ok db
  | t :: timestamps' =>
      let out := insert_or_update' (VInt t) (Some orig) getinfos VNone db in
      match raised out with
      | None => feed orig getinfos timestamps' (db_after out)
      | Some e => Raise e
      end
  end.

Lemma ip2internal_scalar a v :
  ip2internal ip2bin a = Ok v -> wf_value v.
Proof.
  unfold ip2internal.
  destruct a; try (intros [= <-]; exact I);
    (destruct (ip2bin _) as [bs|e]; [|discriminate]; cbn [bind];
     destruct (unpack_QQ bs) as [[v1 v2]|e]; [|discriminate];
     intros [= <-]; exact I).
Qed.

(** The normalisation of a record without [firstseen] and [lastseen]
    changes at most its address. *)
Lemma rec2internal_plain (orig s1 : dict) :
  wf_dict orig ->
  dict_get "firstseen" orig = None ->
  dict_get "lastseen" orig = None ->
  rec2internal' orig = Ok s1 ->
  wf_dict s1 /\
  dict_get "firstseen" s1 = None /\
  dict_get "lastseen" s1 = None /\
  dict_get "count" s1 = dict_get "count" orig.
Proof.
  intros Hwf Hf Hl. unfold rec2internal.
  assert (Hplain : forall r,
             dict_get "firstseen" r = None -> dict_get "lastseen" r = None ->
             (rec2 <- rec2internal_fld all2datetime datetime2timestamp "firstseen" r ;;
              rec2internal_fld all2datetime datetime2timestamp "lastseen" rec2)
             = Ok r).
  { intros r Hrf Hrl. unfold rec2internal_fld. rewrite Hrf. cbn [bind].
    now rewrite Hrl. }
  destruct (dict_get "addr" orig) as [a|] eqn:Ha.
  - destruct (ip2internal ip2bin a) as [v|e] eqn:Hv.
    + cbn [bind]. rewrite Hplain
        by (rewrite dict_get_set_other by discriminate; assumption).
      intros [= <-]. split; [|split; [|split]].
      * apply wf_dict_set; [eapply ip2internal_scalar; eassumption|exact Hwf].
      * rewrite dict_get_set_other by discriminate. assumption.
      * rewrite dict_get_set_other by discriminate. assumption.
      * now rewrite dict_get_set_other by discriminate.
    + destruct e; cbn [bind]; try discriminate;
        rewrite Hplain by assumption; intros [= <-]; auto.
  - cbn [bind]. rewrite Hplain by assumption. intros [= <-]. auto.
Qed.

Lemma find_app {A : Type} (p : A -> bool) (a b : list A) :
  find p (a ++ b) = match find p a with Some x => Some x | None => find p b end.
Proof.
  induction a as [|x a IH]; [reflexivity|]. cbn [app find].
  destruct (p x); [reflexivity|exact IH].
Qed.

Section SameObservation.
Variables orig s1 : dict.
Variable getinfos : option (dict -> result dict).
Hypothesis orig_wf : wf_dict orig.
Hypothesis orig_firstseen : dict_get "firstseen" orig = None.
Hypothesis orig_lastseen : dict_get "lastseen" orig = None.
Hypothesis orig_count :
  dict_get "count" orig = None \/ dict_get "count" orig = Some (VInt 1).
Hypothesis orig_internal : rec2internal' orig = Ok s1.
Hypothesis resolver_answers :
  forall resolver, getinfos = Some resolver ->
                   exists infos, resolver orig = Ok infos.

Lemma key_absent k :
  k = "count" \/ k = "infos" \/ k = "firstseen" \/ k = "lastseen" ->
  dict_get k (spec_key s1) = None.
Proof.
  destruct (rec2internal_plain orig s1 orig_wf orig_firstseen orig_lastseen
                               orig_internal) as (_ & Hf & Hl & _).
  unfold spec_key. intros [->|[->|[->| ->]]].
  - apply dict_get_remove_same.
  - rewrite dict_get_remove_other by discriminate. apply dict_get_remove_same.
  - now rewrite !dict_get_remove_other by discriminate.
  - now rewrite !dict_get_remove_other by discriminate.
Qed.

Lemma key_wf : wf_dict (spec_key s1).
Proof.
  destruct (rec2internal_plain orig s1 orig_wf orig_firstseen orig_lastseen
                               orig_internal) as (Hwf & _).
  unfold spec_key. now apply wf_dict_remove, wf_dict_remove.
Qed.

Lemma count_is_one :
  dict_get_default "count" (VInt 1) (dict_remove "infos" s1) = VInt 1.
Proof.
  destruct (rec2internal_plain orig s1 orig_wf orig_firstseen orig_lastseen
                               orig_internal) as (_ & _ & _ & Hc).
  unfold dict_get_default.
  rewrite dict_get_remove_other by discriminate. rewrite Hc.
  now destruct orig_count as [-> | ->].
Qed.

Lemma created_matches ts :
  matches (spec_key s1) (created s1 ts None) = true /\
  dict_get "count" (created s1 ts None) = Some (VInt 1) /\
  dict_get "firstseen" (created s1 ts None) = Some (VInt ts) /\
  dict_get "lastseen" (created s1 ts None) = Some (VInt ts).
Proof.
  destruct (created_seen s1 ts None) as [Hf Hl].
  repeat split; try assumption.
  - unfold created.
    rewrite !matches_set_other by (apply key_absent; tauto).
    apply matches_self, key_wf.
  - unfold created. rewrite !dict_get_set_other by discriminate.
    rewrite count_is_one. apply dict_get_set_same.
Qed.

(** The first insertion creates the record, at the end of the table. *)
Lemma first_insertion ts db :
  find (passes (matches (spec_key s1))) db = None ->
  exists doc,
    insert_or_update' (VInt ts) (Some orig) getinfos VNone db
    = mk_outcome None (db ++ [(next_id db, doc)])
                 (match getinfos with Some _ => [orig] | None => [] end) /\
    matches (spec_key s1) doc = true /\
    dict_get "count" doc = Some (VInt 1) /\
    dict_get "firstseen" doc = Some (VInt ts) /\
    dict_get "lastseen" doc = Some (VInt ts).
Proof.
  intros Hfind.
  change VNone with (lastseen_arg None).
  rewrite (insert_or_update_eval ts None orig s1 getinfos db orig_internal).
  rewrite Hfind.
  destruct (created_matches ts) as (Hm & Hc & Hf & Hl).
  destruct getinfos as [resolver|] eqn:Hg.
  - destruct (resolver_answers resolver eq_refl) as [infos ->].
    exists (with_infos orig infos (created s1 ts None)).
    split; [reflexivity|].
    rewrite !with_infos_get by discriminate.
    repeat split; try assumption.
    unfold with_infos.
    destruct (dict_get "infos" (dict_update orig infos)); [|exact Hm].
    rewrite matches_set_other by (apply key_absent; tauto). exact Hm.
  - exists (created s1 ts None). auto.
Qed.

(** A later insertion folds the sighting in the record. *)
Lemma later_insertion ts db doc c f l :
  find (passes (matches (spec_key s1))) db = None ->
  matches (spec_key s1) doc = true ->
  dict_get "count" doc = Some (VInt c) ->
  dict_get "firstseen" doc = Some (VInt f) ->
  dict_get "lastseen" doc = Some (VInt l) ->
  exists doc',
    insert_or_update' (VInt ts) (Some orig) getinfos VNone
                      (db ++ [(next_id db, doc)])
    = mk_outcome None (db ++ [(next_id db, doc')]) [] /\
    matches (spec_key s1) doc' = true /\
    dict_get "count" doc' = Some (VInt (c + 1)) /\
    dict_get "firstseen" doc' = Some (VInt (Z.min f ts)) /\
    dict_get "lastseen" doc' = Some (VInt (Z.max l ts)).
Proof.
  intros Hfind Hm Hc Hf Hl.
  change VNone with (lastseen_arg None).
  rewrite (insert_or_update_eval ts None orig s1 getinfos _ orig_internal).
  rewrite find_app, Hfind. cbn [find]. unfold passes at 1.
  cbn [doc_body snd]. rewrite Hm. cbn [doc_id fst update_ids].
  rewrite count_is_one. cbn [effective_lastseen].
  rewrite (update_one_last _ _ _ _ _ (next_id_fresh db)
                           (op_update_numbers_ok 1 ts ts doc c f l Hc Hf Hl)).
  cbn [bind]. eexists. split; [reflexivity|].
  repeat split.
  - rewrite !matches_set_other by (apply key_absent; tauto). exact Hm.
  - rewrite !dict_get_set_other by discriminate. apply dict_get_set_same.
  - rewrite dict_get_set_other by discriminate. apply dict_get_set_same.
  - apply dict_get_set_same.
Qed.

Lemma feed_later timestamps db : forall doc c f l,
  find (passes (matches (spec_key s1))) db = None ->
  matches (spec_key s1) doc = true ->
  dict_get "count" doc = Some (VInt c) ->
  dict_get "firstseen" doc = Some (VInt f) ->
  dict_get "lastseen" doc = Some (VInt l) ->
  exists doc',
    feed orig getinfos timestamps (db ++ [(next_id db, doc)])
    = Ok (db ++ [(next_id db, doc')]) /\
    matches (spec_key s1) doc' = true /\
    dict_get "count" doc'
    = Some (VInt (c + Z.of_nat (List.length timestamps))) /\
    dict_get "firstseen" doc' = Some (VInt (fold_left Z.min timestamps f)) /\
    dict_get "lastseen" doc' = Some (VInt (fold_left Z.max timestamps l)).
Proof.
  induction timestamps as [|t timestamps IH]; intros doc c f l Hfind Hm Hc Hf Hl.
  - exists doc. cbn [feed List.length fold_left]. rewrite Z.add_0_r. auto.
  - destruct (later_insertion t db doc c f l Hfind Hm Hc Hf Hl)
      as (doc1 & Hcall & Hm1 & Hc1 & Hf1 & Hl1).
    cbn [feed]. rewrite Hcall. cbn [raised db_after].
    destruct (IH doc1 _ _ _ Hfind Hm1 Hc1 Hf1 Hl1)
      as (doc' & Hfeed & Hm' & Hc' & Hf' & Hl').
    exists doc'. split; [exact Hfeed|]. split; [exact Hm'|].
    cbn [List.length fold_left]. rewrite Hc', Hf', Hl'.
    repeat split. do 2 f_equal. lia.
Qed.

End SameObservation.


End PassiveMerge.

(** ** The scenarios of the passive merge *)

(** Stand-ins for the functions of [ivre.utils]; the records below hold
    no address, no text time and no certificate, and never reach them. *)
Definition no_address : value -> result string := fun _ => Raise ValueError.
Definition no_text : string -> result value := fun _ => Raise ValueError.
Definition no_time : value -> result value := fun _ => Raise ValueError.
Definition no_base64 : string -> result string := fun _ => Raise ValueError.

(** The observation of the scenario. *)
Definition observation : dict :=
  [("sensor", VStr "S"); ("recontype", VStr "DNS_ANSWER");
   ("value", VStr "example.com")].

Lemma observation_wf : wf_dict observation.
Proof.
  unfold wf_dict, observation. cbn [wf_value map fst].
  split; [|tauto].
  repeat constructor; cbn [In]; intuition discriminate.
Defined.

(** A table that holds a record of another name. *)
Definition other_names : table :=
  [(1, [("sensor", VStr "S"); ("recontype", VStr "DNS_ANSWER");
        ("value", VStr "example.net"); ("count", VInt 4);
        ("firstseen", VInt 2); ("lastseen", VInt 3)])].


(** The scenario on that table, evaluated: the record of the other name
    is as it was, and the three sightings make one record. *)
Example three_sightings_beside :
  feed [] no_address no_text no_time no_time no_base64 (fun s => s)
       observation None [10; 5; 20] other_names
  = Ok (other_names
        ++ [(2, observation ++ [("count", VInt 3); ("firstseen", VInt 5);
                                ("lastseen", VInt 20)])]).
Proof. reflexivity. Qed.

(** The observation, carrying a [firstseen] field. *)
Definition seen_observation : dict := observation ++ [("firstseen", VInt 7)].


(** The scenario, evaluated: three sightings at 10, 5 and 20 leave one
    record with count 3, first seen at 5 and last seen at 20. *)
Example three_sightings :
  feed [] no_address no_text no_time no_time no_base64 (fun s => s)
       observation None [10; 5; 20] []
  = Ok [(1, observation ++ [("count", VInt 3); ("firstseen", VInt 5);
                            ("lastseen", VInt 20)])].
Proof. reflexivity. Qed.


(** A record created with [lastseen] before the timestamp: the call at
    10 with [lastseen=5], on an empty table. *)
Definition early_lastseen_call : outcome :=
  insert_or_update [] no_address no_text no_time no_time no_base64
                   (fun s => s)
                   (VInt 10) (Some observation) None (VInt 5) [].


(* ------------------------------------------------------------------ *)
(** * Further properties of the address codec                           *)
(* ------------------------------------------------------------------ *)

Lemma be_encode_length n : forall z, String.length (be_encode n z) = n.
Proof.
  induction n as [|n IH]; intros z; [reflexivity|].
  rewrite be_encode_head. cbn [String.length]. now rewrite IH.
Qed.

Lemma be_decode_encode n : forall z,
  be_decode 0 (be_encode n z) = z mod 256 ^ Z.of_nat n.
Proof.
  induction n as [|n IH]; intros z.
  - cbn. now rewrite Z.mod_1_r.
  - rewrite be_encode_head. cbn [be_decode].
    rewrite be_decode_acc, be_encode_length, IH.
    unfold Z_of_byte, byte_of_Z.
    assert (Hp : 0 < 256 ^ Z.of_nat n) by (apply Z.pow_pos_nonneg; lia).
    assert (Hb : 0 <= (z / 256 ^ Z.of_nat n) mod 256 < 256)
      by (apply Z.mod_pos_bound; lia).
    rewrite N_ascii_embedding by lia.
    rewrite Z2N.id by lia.
    rewrite Nat2Z.inj_succ, Z.pow_succ_r by lia.
    rewrite (Z.mul_comm 256), Z.rem_mul_r by lia.
    ring.
Qed.

Lemma append_8_8 (a b : string) :
  String.length a = 8%nat -> String.length b = 8%nat ->
  String.length (a ++ b) = 16%nat /\
  substring 0 8 (a ++ b) = a /\ substring 8 8 (a ++ b) = b.
Proof.
  intros Ha Hb.
  do 8 (destruct a as [|? a]; [discriminate Ha|]).
  destruct a; [|discriminate Ha].
  do 8 (destruct b as [|? b]; [discriminate Hb|]).
  destruct b; [|discriminate Hb].
  repeat split; reflexivity.
Qed.

Lemma pack_unpack hi lo :
  0 <= hi < 2 ^ 64 -> 0 <= lo < 2 ^ 64 ->
  exists bs, pack_QQ hi lo = Ok bs /\
             String.length bs = 16%nat /\
             unpack_QQ bs = Ok (hi, lo).
Proof.
  intros [H1 H2] [H3 H4]. unfold pack_QQ, fits_Q.
  rewrite (proj2 (Z.leb_le _ _) H1), (proj2 (Z.ltb_lt _ _) H2).
  rewrite (proj2 (Z.leb_le _ _) H3), (proj2 (Z.ltb_lt _ _) H4).
  cbn [andb]. eexists. split; [reflexivity|].
  destruct (append_8_8 (be_encode 8 hi) (be_encode 8 lo)
                       (be_encode_length 8 hi) (be_encode_length 8 lo))
    as (Hlen & Ha & Hb).
  split; [exact Hlen|].
  unfold unpack_QQ. rewrite Hlen. cbn [Nat.eqb].
  rewrite Ha, Hb, !be_decode_encode.
  change (256 ^ Z.of_nat 8) with (2 ^ 64).
  now rewrite !Z.mod_small by lia.
Qed.

Lemma split_join_128 n :
  0 <= n < 2 ^ 128 ->
  0 <= Z.shiftr n 64 < 2 ^ 64 /\
  0 <= Z.land n 18446744073709551615 < 2 ^ 64 /\
  Z.shiftl (Z.shiftr n 64) 64 + Z.land n 18446744073709551615 = n.
Proof.
  intros Hn.
  change 18446744073709551615 with (Z.ones 64).
  rewrite Z.land_ones, Z.shiftr_div_pow2, Z.shiftl_mul_pow2 by lia.
  pose proof (Z.mod_pos_bound n (2 ^ 64) ltac:(lia)).
  pose proof (Z.div_mod n (2 ^ 64) ltac:(lia)).
  assert (0 <= n / 2 ^ 64 < 2 ^ 64).
  { split; [apply Z.div_pos; lia|].
    apply Z.div_lt_upper_bound; [lia|].
    change (2 ^ 64 * 2 ^ 64) with (2 ^ 128). lia. }
  lia.
Qed.

Lemma internal2ip_in_range (bin2ip : string -> result value) (n : Z) :
  0 <= n < 2 ^ 128 ->
  exists bs,
    String.length bs = 16%nat /\
    unpack_QQ bs = Ok (Z.shiftr n 64, Z.land n 18446744073709551615) /\
    internal2ip bin2ip (VInt n) = bin2ip bs.
Proof.
  intros Hn. destruct (split_join_128 n Hn) as (Hhi & Hlo & _).
  destruct (pack_unpack _ _ Hhi Hlo) as (bs & Hp & Hlen & Hu).
  exists bs. repeat split; try assumption.
  unfold internal2ip. cbn [as_num]. now rewrite Hp.
Qed.

Lemma internal2ip_out_of_range (bin2ip : string -> result value) (n : Z) :
  ~ (0 <= n < 2 ^ 128) -> internal2ip bin2ip (VInt n) = Raise StructError.
Proof.
  intros Hn. unfold internal2ip, pack_QQ, fits_Q. cbn [as_num].
  rewrite Z.shiftr_div_pow2 by lia.
  assert (Hout : (0 <=? n / 2 ^ 64) && (n / 2 ^ 64 <? 2 ^ 64) = false).
  { apply andb_false_iff.
    destruct (Z.leb_spec 0 (n / 2 ^ 64)) as [Hge|Hlt]; [right|now left].
    apply Z.ltb_ge.
    assert (0 <= n).
    { destruct (Z.lt_ge_cases n 0) as [Hneg|]; [|assumption].
      pose proof (Z.div_lt_upper_bound n (2 ^ 64) 0 ltac:(lia) ltac:(lia)). lia. }
    apply Z.div_le_lower_bound; [lia|].
    change (2 ^ 64 * 2 ^ 64) with (2 ^ 128). lia. }
  now rewrite Hout.
Qed.

(** X1. [internal2ip] accepts exactly the unsigned 128-bit integers: for
    such an integer it hands [bin2ip] the 16 bytes that hold its two
    64-bit halves, and for any other integer it raises the error of
    [struct.pack]. *)
Theorem internal2ip_accepts_128_bits (bin2ip : string -> result value) (n : Z) :
  (0 <= n < 2 ^ 128 ->
   exists bs,
     String.length bs = 16%nat /\
     unpack_QQ bs = Ok (Z.shiftr n 64, Z.land n 18446744073709551615) /\
     internal2ip bin2ip (VInt n) = bin2ip bs) /\
  (~ (0 <= n < 2 ^ 128) -> internal2ip bin2ip (VInt n) = Raise StructError).
Proof.
  split.
  - apply internal2ip_in_range.
  - apply internal2ip_out_of_range.
Qed.

Lemma internal2ip_accepts_128_bits_witness :
  exists bs,
    String.length bs = 16%nat /\
    unpack_QQ bs = Ok (Z.shiftr 281470698520833 64,
                       Z.land 281470698520833 18446744073709551615) /\
    internal2ip (fun _ => Ok (VStr "1.2.3.1")) (VInt 281470698520833)
    = (fun _ => Ok (VStr "1.2.3.1")) bs.
Proof.
  apply (proj1 (internal2ip_accepts_128_bits
                  (fun _ => Ok (VStr "1.2.3.1")) 281470698520833)).
  lia.
Defined.

(** X2. The round trip from the integer side: when [internal2ip] turns
    an unsigned 128-bit integer into a text, and [ip2bin] reads that text
    back to the 16 bytes [bin2ip] printed it from, [ip2internal] of the
    text is the integer. *)
Theorem internal2ip_ip2internal_roundtrip
        (ip2bin : value -> result string) (bin2ip : string -> result value)
        (n : Z) (text : value) :
  0 <= n < 2 ^ 128 ->
  internal2ip bin2ip (VInt n) = Ok text ->
  as_num text = None ->
  (forall bs, String.length bs = 16%nat -> bin2ip bs = Ok text ->
              ip2bin text = Ok bs) ->
  ip2internal ip2bin text = Ok (VInt n).
Proof.
  intros Hn Hback Htext Hinv.
  destruct (internal2ip_in_range bin2ip n Hn) as (bs & Hlen & Hu & Heq).
  rewrite Heq in Hback.
  destruct (split_join_128 n Hn) as (_ & _ & Hjoin).
  unfold ip2internal.
  destruct text; try discriminate Htext;
    rewrite (Hinv bs Hlen Hback); cbn [bind]; rewrite Hu; cbn [bind];
    now rewrite Hjoin.
Qed.

(** A printer that knows one address. *)
Definition sample_bin2ip (bs : string) : result value :=
  if (bs =? sample_ip_bytes)%string then Ok (VStr "1.2.3.4")
  else Raise SocketError.

Lemma internal2ip_ip2internal_roundtrip_witness :
  ip2internal (fun _ => Ok sample_ip_bytes) (VStr "1.2.3.4")
  = Ok (VInt 281470698652420).
Proof.
  apply (internal2ip_ip2internal_roundtrip
           (fun _ => Ok sample_ip_bytes) sample_bin2ip
           281470698652420 (VStr "1.2.3.4")).
  - lia.
  - reflexivity.
  - reflexivity.
  - intros bs _ H. unfold sample_bin2ip in H.
    destruct (bs =? sample_ip_bytes)%string eqn:E; [|discriminate H].
    apply String.eqb_eq in E. now subst bs.
Defined.

(* ------------------------------------------------------------------ *)
(** * More of the storage collaborator                                  *)
(* ------------------------------------------------------------------ *)

Module TDBOps.
Import Py TDB.
Local Open Scope py_scope.

(** [a <= b]: on the values modelled here it is [not (b < a)], and it
    raises when [b < a] raises. *)
Definition py_le (a b : value) : result bool := c <- py_lt b a ;; Ok (negb c).

(** [a >= b] *)
Definition py_ge (a b : value) : result bool := py_le b a.

Definition q_le (path : list string) (rhs : value) : query :=
  q_test path (fun x => py_le x rhs).

Definition q_ge (path : list string) (rhs : value) : query :=
  q_test path (fun x => py_ge x rhs).

(** [Query.one_of(items)]: [value in items]. *)
Definition q_one_of (path : list string) (items : list value) : query :=
  q_test path (fun x => Ok (existsb (fun i => py_eq i x) items)).

(** [Query.any(items)] for a list of items:
    [is_sequence(value) and any(e in items for e in value)]. *)
Definition q_any_in (path : list string) (items : list value) : query :=
  q_test path (fun x => match py_iter x with
                        | Ok l =>
                            Ok (existsb
                                  (fun e => existsb (fun i => py_eq i e) items)
                                  l)
                        | Raise _ => Ok false
                        end).

(** [table.remove(cond)]: the documents that pass the test go. *)
Fixpoint remove (cond : query) (t : table) : result table :=
  match t with
  | [] => Ok []
  | d :: t' =>
      b <- cond (VDict (doc_body d)) ;;
      rest <- remove cond t' ;;
      Ok (if b then rest else d :: rest)
  end.

(** [table.remove(doc_ids=ids)]: [data.pop(doc_id)] for every
    identifier. *)
Fixpoint remove_ids (ids : list Z) (t : table) : result table :=
  match ids with
  | [] => Ok t
  | id :: ids' =>
      if existsb (fun d => doc_id d =? id) t
      then remove_ids ids' (filter (fun d => negb (doc_id d =? id)) t)
      else Raise KeyError
  end.

End TDBOps.

(* ------------------------------------------------------------------ *)
(** * More of [ivre/db/tiny.py]: filters                                *)
(* ------------------------------------------------------------------ *)

Module TinyFilters.
Import Py TDB PyLib Tiny TDBOps.
Local Open Scope py_scope.

(** [TinyDB.searchnonexistent] *)
Definition searchnonexistent : query := q_eq ["_id"] (VInt 0).

(** [TinyDB.searchobjectid] *)
Definition searchobjectid (oid : value) (neg : bool) : query :=
  match oid with
  | VList l =>
      let res := q_one_of ["_id"] l in
      if neg then q_not res else res
  | _ => if neg then q_ne ["_id"] oid else q_eq ["_id"] oid
  end.

(** [TinyDB.searchversion] *)
Definition searchversion (version : value) : query :=
  if is_none version then q_exists ["schema_version"]
  else q_eq ["schema_version"] version.

Section Addresses.
Variable ip2bin : value -> result string.

(** [TinyDB.searchhost] *)
Definition searchhost (addr : value) (neg : bool) : result query :=
  a <- ip2internal ip2bin addr ;;
  Ok (if neg then q_ne ["addr"] a else q_eq ["addr"] a).

(** [TinyDB.searchhosts] *)
Definition searchhosts (hosts : list value) (neg : bool) : result query :=
  addrs <- mapM (ip2internal ip2bin) hosts ;;
  let res := q_one_of ["addr"] addrs in
  Ok (if neg then q_not res else res).

(** [TinyDB.searchrange] *)
Definition searchrange (start stop : value) (neg : bool) : result query :=
  start' <- ip2internal ip2bin start ;;
  stop' <- ip2internal ip2bin stop ;;
  let res := q_and (q_ge ["addr"] start') (q_le ["addr"] stop') in
  Ok (if neg then q_not res else res).
End Addresses.

(** [TinyDB.searchval] *)
Definition searchval (key : string) (val : value) : query := q_eq [key] val.

(** [TinyDB.searchcmp]; [None] stands for the [Exception] raised on an
    unknown operator. *)
Definition searchcmp (key : string) (val : value) (cmpop : string)
  : option query :=
  if (cmpop =? "<")%string then Some (q_lt [key] val)
  else if (cmpop =? "<=")%string then Some (q_le [key] val)
  else if (cmpop =? ">")%string then Some (q_gt [key] val)
  else if (cmpop =? ">=")%string then Some (q_ge [key] val)
  else None.

(** [TinyDBActive.searchopenport] *)
Definition searchopenport (neg : bool) : query :=
  let res := q_any ["ports"] (q_eq ["state_state"] (VStr "open")) in
  if neg then q_not res else res.

Section Times.
Variable all2datetime : value -> result value.
Variable datetime2timestamp : value -> result value.

(** [TinyDBActive.searchtimerange] *)
Definition searchtimerange (start stop : value) (neg : bool) : result query :=
  start' <- match start with
            | VDate _ => datetime2timestamp start
            | _ => Ok start
            end ;;
  stop' <- match stop with
           | VDate _ => datetime2timestamp stop
           | _ => Ok stop
           end ;;
  Ok (if neg
      then q_or (q_lt ["endtime"] start') (q_gt ["starttime"] stop')
      else q_and (q_ge ["endtime"] start') (q_le ["starttime"] stop')).

(** [TinyDBPassive.searchnewer] *)
Definition searchnewer (timestamp : value) (neg new : bool) : result query :=
  timestamp' <- to_timestamp all2datetime datetime2timestamp timestamp ;;
  let req := [if new then "firstseen" else "lastseen"] in
  Ok (if neg then q_le req timestamp' else q_gt req timestamp').
End Times.

(** [TinyDBPassive.searchport] *)
Definition passive_searchport (port protocol state : value) (neg : bool)
  : result query :=
  if negb (py_eq protocol (VStr "tcp")) then Raise ValueError
  else if negb (py_eq state (VStr "open")) then Raise ValueError
  else Ok (if neg then q_ne ["port"] port else q_eq ["port"] port).

End TinyFilters.

(* ------------------------------------------------------------------ *)
(** * Properties of the filters                                         *)
(* ------------------------------------------------------------------ *)

Import TDBOps TinyFilters.

Lemma resolve_field k d : resolve [k] (VDict d) = dict_get k d.
Proof. cbn [resolve py_getitem]. now destruct (dict_get k d). Qed.

Lemma q_ge_int k lo d a :
  dict_get k d = Some (VInt a) -> q_ge [k] (VInt lo) (VDict d) = Ok (lo <=? a).
Proof.
  intros H. unfold q_ge, q_test. rewrite resolve_field, H.
  cbn. f_equal. destruct (Z.ltb_spec a lo), (Z.leb_spec lo a); try reflexivity; lia.
Qed.

Lemma q_le_int k hi d a :
  dict_get k d = Some (VInt a) -> q_le [k] (VInt hi) (VDict d) = Ok (a <=? hi).
Proof.
  intros H. unfold q_le, q_test. rewrite resolve_field, H.
  cbn. f_equal. destruct (Z.ltb_spec hi a), (Z.leb_spec a hi); try reflexivity; lia.
Qed.

Lemma q_lt_int k v d a :
  dict_get k d = Some (VInt a) -> q_lt [k] (VInt v) (VDict d) = Ok (a <? v).
Proof. intros H. unfold q_lt, q_test. now rewrite resolve_field, H. Qed.

Lemma q_gt_int k v d a :
  dict_get k d = Some (VInt a) -> q_gt [k] (VInt v) (VDict d) = Ok (v <? a).
Proof. intros H. unfold q_gt, q_test. now rewrite resolve_field, H. Qed.

Lemma q_test_missing k test d :
  dict_get k d = None -> q_test [k] test (VDict d) = Ok false.
Proof. intros H. unfold q_test. now rewrite resolve_field, H. Qed.

Lemma addr_range_eval lo hi r a :
  dict_get "addr" r = Some (VInt a) ->
  q_and (q_ge ["addr"] (VInt lo)) (q_le ["addr"] (VInt hi)) (VDict r)
  = Ok ((lo <=? a) && (a <=? hi)).
Proof.
  intros Ha. unfold q_and. rewrite (q_ge_int _ _ _ _ Ha). cbn [bind].
  destruct (lo <=? a); [now apply q_le_int|reflexivity].
Qed.

Lemma addr_range_missing lo hi r :
  dict_get "addr" r = None ->
  q_and (q_ge ["addr"] (VInt lo)) (q_le ["addr"] (VInt hi)) (VDict r)
  = Ok false.
Proof.
  intros Ha. unfold q_and, q_ge. now rewrite (q_test_missing _ _ _ Ha).
Qed.

(** X3. [searchrange] selects the closed interval: with bounds that
    [ip2internal] turns into the integers [lo] and [hi], a record whose
    address is the integer [a] passes when [lo <= a <= hi], the negated
    filter passes in the opposite case, so that no address passes when
    [hi < lo]; a record without address fails the filter and passes the
    negated one. *)
Theorem searchrange_closed_interval
        (ip2bin : value -> result string) (start stop : value) (lo hi : Z)
        (neg : bool) :
  ip2internal ip2bin start = Ok (VInt lo) ->
  ip2internal ip2bin stop = Ok (VInt hi) ->
  exists q,
    searchrange ip2bin start stop neg = Ok q /\
    (forall (r : dict) (a : Z),
        dict_get "addr" r = Some (VInt a) ->
        q (VDict r) = Ok (xorb neg ((lo <=? a) && (a <=? hi))) /\
        (hi < lo -> q (VDict r) = Ok neg)) /\
    (forall r : dict, dict_get "addr" r = None -> q (VDict r) = Ok neg).
Proof.
  intros Hs He. unfold searchrange. rewrite Hs, He. cbn [bind].
  eexists. split; [reflexivity|].
  pose proof (addr_range_eval lo hi) as Hint.
  pose proof (addr_range_missing lo hi) as Hnone.
  split.
  - intros r a Ha.
    assert (Hq : (if neg
                  then q_not (q_and (q_ge ["addr"] (VInt lo)) (q_le ["addr"] (VInt hi)))
                  else q_and (q_ge ["addr"] (VInt lo)) (q_le ["addr"] (VInt hi)))
                   (VDict r)
                 = Ok (xorb neg ((lo <=? a) && (a <=? hi)))).
    { destruct neg; [unfold q_not|]; rewrite (Hint r a Ha); reflexivity. }
    split; [exact Hq|].
    intros Hempty. rewrite Hq. f_equal.
    assert ((lo <=? a) && (a <=? hi) = false) as ->.
    { destruct (Z.leb_spec lo a), (Z.leb_spec a hi); try reflexivity; lia. }
    now destruct neg.
  - intros r Ha. destruct neg; [unfold q_not|]; now rewrite (Hnone r Ha).
Qed.

Lemma searchrange_closed_interval_witness :
  exists q,
    searchrange no_address (VInt 10) (VInt 20) false = Ok q /\
    (forall (r : dict) (a : Z),
        dict_get "addr" r = Some (VInt a) ->
        q (VDict r) = Ok (xorb false ((10 <=? a) && (a <=? 20))) /\
        (20 < 10 -> q (VDict r) = Ok false)) /\
    (forall r : dict, dict_get "addr" r = None -> q (VDict r) = Ok false).
Proof.
  apply (searchrange_closed_interval no_address (VInt 10) (VInt 20) 10 20 false).
  - reflexivity.
  - reflexivity.
Defined.

(** X4. For an address that [ip2internal] turns into an integer,
    [searchhost] and [searchrange] from the address to itself agree, in
    both polarities, on every record whose address is an integer.  On a
    record without address they differ when negated: [searchhost(addr,
    neg=True)] fails, as the plain filter does, while the negated range
    passes. *)
Theorem searchhost_is_point_range
        (ip2bin : value -> result string) (addr : value) (n : Z) (neg : bool) :
  ip2internal ip2bin addr = Ok (VInt n) ->
  exists qh qr,
    searchhost ip2bin addr neg = Ok qh /\
    searchrange ip2bin addr addr neg = Ok qr /\
    (forall (r : dict) (a : Z),
        dict_get "addr" r = Some (VInt a) ->
        qh (VDict r) = Ok (xorb neg (a =? n)) /\ qr (VDict r) = qh (VDict r)) /\
    (forall r : dict,
        dict_get "addr" r = None ->
        qh (VDict r) = Ok false /\ qr (VDict r) = Ok neg).
Proof.
  intros Hn. unfold searchhost, searchrange. rewrite Hn. cbn [bind].
  do 2 eexists. split; [reflexivity|]. split; [reflexivity|]. split.
  - intros r a Ha.
    assert (Hh : (if neg then q_ne ["addr"] (VInt n) else q_eq ["addr"] (VInt n))
                   (VDict r) = Ok (xorb neg (a =? n))).
    { destruct neg; unfold q_ne, q_eq, q_test; rewrite resolve_field, Ha;
        reflexivity. }
    split; [exact Hh|]. rewrite Hh.
    assert (Hpoint : (n <=? a) && (a <=? n) = (a =? n)).
    { destruct (Z.eqb_spec a n), (Z.leb_spec n a), (Z.leb_spec a n);
        try reflexivity; lia. }
    destruct neg; [unfold q_not|]; rewrite (addr_range_eval n n r a Ha);
      cbn [bind xorb]; now rewrite Hpoint.
  - intros r Ha. split.
    + destruct neg; unfold q_ne, q_eq; now apply q_test_missing.
    + destruct neg; [unfold q_not|]; now rewrite (addr_range_missing n n r Ha).
Qed.

Lemma searchhost_is_point_range_witness :
  exists qh qr,
    searchhost no_address (VInt 7) true = Ok qh /\
    searchrange no_address (VInt 7) (VInt 7) true = Ok qr /\
    (forall (r : dict) (a : Z),
        dict_get "addr" r = Some (VInt a) ->
        qh (VDict r) = Ok (xorb true (a =? 7)) /\ qr (VDict r) = qh (VDict r)) /\
    (forall r : dict,
        dict_get "addr" r = None ->
        qh (VDict r) = Ok false /\ qr (VDict r) = Ok true).
Proof.
  apply (searchhost_is_point_range no_address (VInt 7) 7 true).
  reflexivity.
Defined.

(** The ports of a host among which one is open. *)
Definition has_open_port (ps : list value) : bool :=
  existsb (field_is "state_state" (VStr "open")) ps.

Lemma searchopenport_eval (host : dict) :
  searchopenport false (VDict host)
  = Ok (match dict_get "ports" host with
        | Some v => match py_iter v with
                    | Ok ps => has_open_port ps
                    | Raise _ => false
                    end
        | None => false
        end).
Proof.
  unfold searchopenport, q_any, q_test. rewrite resolve_field.
  destruct (dict_get "ports" host) as [v|]; [|reflexivity].
  destruct (py_iter v) as [ps|e]; [|reflexivity].
  apply anyM_pure. intros e _. apply q_eq_field.
Qed.

(** X5. [searchopenport] is implied by every positive [searchport] for
    the state ["open"] (the port not being ["host"]): a host on which some
    port number and protocol is found open has an open port.  Its negated
    form is the exact complement, also on hosts without a [ports]
    field. *)
Theorem searchport_open_implies_searchopenport
        (port protocol : value) (host : dict) :
  (py_eq port (VStr "host") = false ->
   searchport port protocol (VStr "open") false (VDict host) = Ok true ->
   searchopenport false (VDict host) = Ok true) /\
  (exists b, searchopenport false (VDict host) = Ok b /\
             searchopenport true (VDict host) = Ok (negb b)).
Proof.
  split.
  - intros Hport. rewrite searchopenport_eval.
    unfold searchport. rewrite Hport. unfold q_any, q_test.
    rewrite resolve_field.
    destruct (dict_get "ports" host) as [v|]; [|discriminate].
    destruct (py_iter v) as [ps|e]; [|discriminate].
    rewrite (anyM_pure _ (fun e => is_port port protocol e
                                   && field_is "state_state" (VStr "open") e)).
    2:{ intros e _. unfold q_and at 1. rewrite res_is_port. cbn [bind].
        rewrite q_eq_field. now destruct (is_port port protocol e). }
    intros [= H]. f_equal. unfold has_open_port.
    apply existsb_exists in H as (e & Hin & He).
    apply existsb_exists. exists e. apply andb_true_iff in He. tauto.
  - eexists. split; [apply searchopenport_eval|].
    change (searchopenport true) with (q_not (searchopenport false)).
    unfold q_not. now rewrite searchopenport_eval.
Qed.

Lemma searchport_open_implies_searchopenport_witness :
  searchopenport false (VDict scenario_host) = Ok true.
Proof.
  apply (proj1 (searchport_open_implies_searchopenport
                  (VInt 80) (VStr "tcp") scenario_host)).
  - reflexivity.
  - reflexivity.
Defined.

(** X6. With numbers for the bounds, [searchtimerange] passes the
    records whose scan window [starttime, endtime] meets the closed range
    from [start] to [stop], and the negated filter passes exactly the other
    records that hold both times; a record that holds neither time passes
    neither filter. *)
Theorem searchtimerange_overlap
        (datetime2timestamp : value -> result value) (start stop : Z)
        (neg : bool) :
  exists q,
    searchtimerange datetime2timestamp (VInt start) (VInt stop) neg = Ok q /\
    (forall (r : dict) (a b : Z),
        dict_get "starttime" r = Some (VInt a) ->
        dict_get "endtime" r = Some (VInt b) ->
        q (VDict r) = Ok (xorb neg ((start <=? b) && (a <=? stop)))) /\
    (forall r : dict,
        dict_get "starttime" r = None -> dict_get "endtime" r = None ->
        q (VDict r) = Ok false).
Proof.
  unfold searchtimerange. cbn [bind]. eexists. split; [reflexivity|]. split.
  - intros r a b Ha Hb. destruct neg; cbn [xorb].
    + unfold q_or. rewrite (q_lt_int _ _ _ _ Hb). cbn [bind].
      rewrite (q_gt_int _ _ _ _ Ha).
      destruct (Z.ltb_spec b start), (Z.ltb_spec stop a),
        (Z.leb_spec start b), (Z.leb_spec a stop); try reflexivity; lia.
    + unfold q_and. rewrite (q_ge_int _ _ _ _ Hb). cbn [bind].
      rewrite (q_le_int _ _ _ _ Ha). now destruct (start <=? b).
  - intros r Ha Hb. destruct neg.
    + unfold q_or, q_lt, q_gt. rewrite (q_test_missing _ _ _ Hb). cbn [bind].
      now rewrite (q_test_missing _ _ _ Ha).
    + unfold q_and, q_ge. now rewrite (q_test_missing _ _ _ Hb).
Qed.

(** X7. [searchcmp] builds a filter for the four operators [<], [<=],
    [>] and [>=] and fails for any other operator.  On a record that holds
    a number under the key, [<] and [>=] are complementary, and so are
    [<=] and [>]; a record without the key passes none of the four. *)
Theorem searchcmp_operators (key : string) (val : Z) (cmpop : string) :
  (searchcmp key (VInt val) cmpop = None <->
   cmpop <> "<" /\ cmpop <> "<=" /\ cmpop <> ">" /\ cmpop <> ">=") /\
  (exists lt le gt ge,
      searchcmp key (VInt val) "<" = Some lt /\
      searchcmp key (VInt val) "<=" = Some le /\
      searchcmp key (VInt val) ">" = Some gt /\
      searchcmp key (VInt val) ">=" = Some ge /\
      (forall (r : dict) (x : Z),
          dict_get key r = Some (VInt x) ->
          lt (VDict r) = Ok (x <? val) /\
          ge (VDict r) = Ok (negb (x <? val)) /\
          le (VDict r) = Ok (x <=? val) /\
          gt (VDict r) = Ok (negb (x <=? val))) /\
      (forall r : dict,
          dict_get key r = None ->
          lt (VDict r) = Ok false /\ le (VDict r) = Ok false /\
          gt (VDict r) = Ok false /\ ge (VDict r) = Ok false)).
Proof.
  split.
  - unfold searchcmp.
    destruct (String.eqb_spec cmpop "<"); [split; [discriminate|tauto]|].
    destruct (String.eqb_spec cmpop "<="); [split; [discriminate|tauto]|].
    destruct (String.eqb_spec cmpop ">"); [split; [discriminate|tauto]|].
    destruct (String.eqb_spec cmpop ">="); [split; [discriminate|tauto]|].
    tauto.
  - do 4 eexists. do 4 (split; [reflexivity|]). split.
    + intros r x Hx.
      rewrite (q_lt_int _ _ _ _ Hx), (q_ge_int _ _ _ _ Hx),
        (q_le_int _ _ _ _ Hx), (q_gt_int _ _ _ _ Hx).
      repeat split; f_equal.
      * destruct (Z.leb_spec val x), (Z.ltb_spec x val); try reflexivity; lia.
      * destruct (Z.leb_spec x val), (Z.ltb_spec val x); try reflexivity; lia.
    + intros r Hx. unfold q_lt, q_le, q_gt, q_ge.
      now rewrite !(q_test_missing _ _ _ Hx).
Qed.

(** X8. The passive [searchport] supports TCP and the state ["open"]
    only: any other protocol or state raises [ValueError].  Otherwise a
    record with a port passes the filter or its negation, never both, and
    a record without port passes neither. *)
Theorem passive_searchport_tcp_open_only
        (port protocol state : value) (neg : bool) :
  (py_eq protocol (VStr "tcp") = false \/ py_eq state (VStr "open") = false ->
   passive_searchport port protocol state neg = Raise ValueError) /\
  (py_eq protocol (VStr "tcp") = true -> py_eq state (VStr "open") = true ->
   exists q,
     passive_searchport port protocol state neg = Ok q /\
     (forall (r : dict) (x : value),
         dict_get "port" r = Some x ->
         q (VDict r) = Ok (xorb neg (py_eq x port))) /\
     (forall r : dict, dict_get "port" r = None -> q (VDict r) = Ok false)).
Proof.
  unfold passive_searchport. split.
  - intros [-> | Hs]; [reflexivity|].
    destruct (py_eq protocol (VStr "tcp")); [now rewrite Hs|reflexivity].
  - intros -> ->. cbn [negb]. eexists. split; [reflexivity|]. split.
    + intros r x Hx. destruct neg; unfold q_ne, q_eq, q_test;
        rewrite resolve_field, Hx; reflexivity.
    + intros r Hx. destruct neg; unfold q_ne, q_eq; now apply q_test_missing.
Qed.

Lemma passive_searchport_tcp_open_only_witness :
  passive_searchport (VInt 53) (VStr "udp") (VStr "open") false
  = Raise ValueError.
Proof.
  apply (proj1 (passive_searchport_tcp_open_only
                  (VInt 53) (VStr "udp") (VStr "open") false)).
  left. reflexivity.
Defined.

Lemma searchtimerange_overlap_witness :
  exists q,
    searchtimerange no_time (VInt 100) (VInt 200) false = Ok q /\
    q (VDict [("starttime", VInt 150); ("endtime", VInt 250)]) = Ok true.
Proof.
  destruct (searchtimerange_overlap no_time 100 200 false) as (q & Hq & Hint & _).
  exists q. split; [exact Hq|].
  apply (Hint [("starttime", VInt 150); ("endtime", VInt 250)] 150 250).
  - reflexivity.
  - reflexivity.
Defined.

Lemma searchcmp_operators_witness :
  searchcmp "openports" (VInt 3) "=" = None.
Proof.
  apply (proj1 (searchcmp_operators "openports" 3 "=")).
  repeat split; discriminate.
Defined.

(* ------------------------------------------------------------------ *)
(** * The generator of field values and the existence filter            *)
(* ------------------------------------------------------------------ *)

Section FieldValues.
Variable list_fields : list string.

(** The existence filter never raises. *)
Lemma exists_segs_pure segs : forall base baseq v,
  exists b, exists_segs list_fields segs base baseq v = Ok b.
Proof.
  induction segs as [|seg rest IH]; intros base baseq v.
  - cbn [exists_segs]. unfold q_exists, q_test.
    destruct (resolve baseq v); eauto.
  - destruct rest as [|seg' rest'].
    + cbn [exists_segs]. unfold q_exists, q_test.
      destruct (resolve (baseq ++ [seg]) v); eauto.
    + rewrite exists_segs_cons.
      destruct (in_list_fields list_fields (join_base base seg)); [|apply IH].
      unfold q_any, q_test.
      destruct (resolve (baseq ++ [seg]) v) as [x|]; [|eauto].
      destruct (py_iter x) as [l|e]; [|eauto].
      induction l as [|y l IHl]; cbn [anyM]; [eauto|].
      destruct (IH (join_base base seg) [] y) as [b ->]. cbn [bind].
      destruct b; eauto.
Qed.

Lemma anyM_found {A : Type} (f : A -> result bool) (l : list A) x :
  (forall y, exists b, f y = Ok b) ->
  In x l -> f x = Ok true -> anyM f l = Ok true.
Proof.
  intros Hpure Hin Hx. induction l as [|y l IH]; [contradiction|].
  cbn [anyM]. destruct (Hpure y) as [b Hb]. rewrite Hb. cbn [bind].
  destruct b; [reflexivity|].
  destruct Hin as [->|Hin]; [congruence|now apply IH].
Qed.

Lemma mapM_concat_nonempty {A B : Type} (f : A -> result (list B)) (l : list A) :
  forall vals, mapM f l = Ok vals -> List.concat vals <> [] ->
               exists x v, In x l /\ f x = Ok v /\ v <> [].
Proof.
  induction l as [|y l IH]; intros vals H Hne; cbn [mapM] in H.
  - injection H as <-. now contradiction Hne.
  - destruct (f y) as [v|e] eqn:Hy; [|discriminate H]. cbn [bind] in H.
    destruct (mapM f l) as [vs|e]; [|discriminate H]. injection H as <-.
    cbn [List.concat] in Hne.
    destruct v as [|b v].
    + destruct (IH vs eq_refl Hne) as (x & w & Hin & Hx & Hw).
      exists x, w. auto using in_cons.
    + exists y, (b :: v). repeat split; [now left|assumption|discriminate].
Qed.

Lemma py_getitem_resolve k v x : py_getitem k v = Ok x -> resolve [k] v = Some x.
Proof. intros H. cbn [resolve]. now rewrite H. Qed.

Lemma generate_nonempty_exists segs : forall record base countfield countval vs,
  generate_segs list_fields segs record base countfield countval = Ok vs ->
  vs <> [] ->
  forall baseq root, resolve baseq root = Some record ->
                     exists_segs list_fields segs base baseq root = Ok true.
Proof.
  induction segs as [|seg rest IH];
    intros record base countfield countval vs Hgen Hne baseq root Hres.
  - cbn [generate_segs] in Hgen. injection Hgen as <-. now contradiction Hne.
  - destruct rest as [|seg' rest'].
    + cbn [generate_segs] in Hgen.
      destruct (py_in seg record) as [present|e]; [|discriminate Hgen].
      cbn [bind] in Hgen.
      destruct present; cbn [negb] in Hgen;
        [|injection Hgen as <-; now contradiction Hne].
      destruct (py_getitem seg record) as [x|e] eqn:Hx; [|discriminate Hgen].
      cbn [exists_segs]. unfold q_exists, q_test.
      rewrite resolve_app, Hres. now rewrite (py_getitem_resolve _ _ _ Hx).
    + rewrite generate_segs_cons in Hgen.
      destruct (py_in seg record) as [present|e]; [|discriminate Hgen].
      cbn [bind] in Hgen.
      destruct present; cbn [negb] in Hgen;
        [|injection Hgen as <-; now contradiction Hne].
      destruct (match countfield with
                | Some cf =>
                    if String.prefix (seg ++ ".")%string cf
                    then cf' <- after_dot cf ;; Ok (Some cf', countval)
                    else w <- py_get cf (VInt 1) record ;; Ok (None, w)
                | None => Ok (None, countval)
                end) as [[cf' cv']|e]; [|discriminate Hgen].
      cbn [bind] in Hgen.
      destruct (py_getitem seg record) as [x|e] eqn:Hx; [|discriminate Hgen].
      cbn [bind] in Hgen.
      assert (Hext : resolve (baseq ++ [seg]) root = Some x)
        by (rewrite resolve_app, Hres; now apply py_getitem_resolve).
      rewrite exists_segs_cons.
      destruct (in_list_fields list_fields (join_base base seg)).
      * destruct (py_iter x) as [subrecs|e] eqn:Hit; [|discriminate Hgen].
        cbn [bind] in Hgen.
        destruct (mapM _ subrecs) as [vals|e] eqn:Hmap; [|discriminate Hgen].
        injection Hgen as <-.
        destruct (mapM_concat_nonempty _ _ _ Hmap Hne) as (y & v & Hin & Hy & Hv).
        unfold q_any, q_test. rewrite Hext, Hit.
        apply (anyM_found _ _ y); [intros z; apply exists_segs_pure|exact Hin|].
        apply (IH _ _ _ _ _ Hy Hv [] y eq_refl).
      * apply (IH _ _ _ _ _ Hgen Hne). exact Hext.
Qed.

(** No prefix of the path is declared as an array. *)
Fixpoint no_array (base : string) (segs : list string) : bool :=
  match segs with
  | [] => true
  | seg :: rest =>
      negb (in_list_fields list_fields (join_base base seg))
      && no_array (join_base base seg) rest
  end.

Lemma count_has_no_dot cur : String.prefix (cur ++ ".")%string "count" = false.
Proof.
  destruct (String.prefix (cur ++ ".")%string "count") eqn:H; [|reflexivity].
  destruct (prefix_after_dot _ _ H) as [cf' Hcf]. discriminate Hcf.
Qed.

Lemma generate_present segs : forall (d : dict) base v weight,
  segs <> [] ->
  no_array base segs = true ->
  resolve segs (VDict d) = Some v ->
  generate_segs list_fields segs (VDict d) base None VNone = Ok [Plain v] /\
  (weight <> VNone ->
   generate_segs list_fields segs (VDict d) base None weight
   = Ok [Weighted v weight]).
Proof.
  induction segs as [|seg rest IH]; intros d base v weight Hne Harr Hres;
    [congruence|].
  cbn [no_array] in Harr. apply andb_true_iff in Harr as [Hseg Hrest].
  apply negb_true_iff in Hseg.
  cbn [resolve py_getitem] in Hres.
  destruct (dict_get seg d) as [x|] eqn:Hget; [|discriminate Hres].
  assert (Hin : py_in seg (VDict d) = Ok true)
    by (cbn [py_in]; unfold dict_has; now rewrite Hget).
  assert (Hitem : py_getitem seg (VDict d) = Ok x)
    by (cbn [py_getitem]; now rewrite Hget).
  destruct rest as [|seg' rest'].
  - cbn [resolve] in Hres. injection Hres as ->.
    cbn [generate_segs]. rewrite Hin. cbn [bind negb]. rewrite Hitem.
    cbn [bind]. rewrite Hseg. split; [reflexivity|].
    intros Hw. unfold emit. now destruct weight.
  - rewrite !generate_segs_cons, Hin. cbn [bind negb]. rewrite Hitem.
    cbn [bind]. rewrite Hseg.
    destruct x as [| | | | | | |d']; try discriminate Hres.
    apply (IH d' _ v weight); [discriminate|exact Hrest|exact Hres].
Qed.

End FieldValues.

(** X9. The existence filter loses no value: whenever the generator of
    field values yields at least one value for a record, whatever the
    count field and count value, the filter built by
    [_search_field_exists] for the same path passes the record. *)
Theorem yielded_value_passes_exists
        (list_fields : list string) (record : value) (field : string)
        (countfield : option string) (countval : value) (vs : list emitted) :
  _generate_field_values list_fields record field "" countfield countval
  = Ok vs ->
  vs <> [] ->
  _search_field_exists list_fields field record = Ok true.
Proof.
  intros Hgen Hne. unfold _search_field_exists.
  exact (generate_nonempty_exists list_fields _ _ _ _ _ _ Hgen Hne [] record
                                  eq_refl).
Qed.

Lemma yielded_value_passes_exists_witness :
  _search_field_exists ["ports"] "ports.port" (VDict scenario_host) = Ok true.
Proof.
  apply (yielded_value_passes_exists
           ["ports"] (VDict scenario_host) "ports.port" None VNone
           [Plain (VInt 80); Plain (VInt 22)]).
  - reflexivity.
  - discriminate.
Defined.

Lemma split_dot_nonempty s : split_dot s <> [].
Proof.
  destruct s as [|c s]; [discriminate|]. cbn [split_dot].
  destruct (Ascii.eqb c "."); [discriminate|].
  destruct (split_dot s); discriminate.
Qed.

(** X10. A path that crosses no array and that the record holds, down
    through nested documents to the value [v], makes the generator yield
    [v] and nothing else.  With the count field ["count"], the value comes
    paired with the count of the record, 1 when the record has none. *)
Theorem present_path_yields_its_value
        (list_fields : list string) (r : dict) (p : string) (v : value) :
  no_array list_fields "" (split_dot p) = true ->
  resolve (split_dot p) (VDict r) = Some v ->
  _generate_field_values list_fields (VDict r) p "" None VNone
  = Ok [Plain v] /\
  (dict_get_default "count" (VInt 1) r <> VNone ->
   _generate_field_values list_fields (VDict r) p "" (Some "count") VNone
   = Ok [Weighted v (dict_get_default "count" (VInt 1) r)]).
Proof.
  intros Harr Hres. unfold _generate_field_values.
  pose proof (split_dot_nonempty p) as Hne.
  split.
  - now apply (generate_present list_fields _ r "" v VNone Hne Harr Hres).
  - intros Hw.
    destruct (split_dot p) as [|seg rest]; [congruence|].
    cbn [no_array] in Harr. apply andb_true_iff in Harr as [Hseg Hrest].
    apply negb_true_iff in Hseg.
    cbn [resolve py_getitem] in Hres.
    destruct (dict_get seg r) as [x|] eqn:Hget; [|discriminate Hres].
    assert (Hin : py_in seg (VDict r) = Ok true)
      by (cbn [py_in]; unfold dict_has; now rewrite Hget).
    assert (Hitem : py_getitem seg (VDict r) = Ok x)
      by (cbn [py_getitem]; now rewrite Hget).
    destruct rest as [|seg' rest'].
    + cbn [resolve] in Hres. injection Hres as ->.
      cbn [generate_segs]. rewrite Hin. cbn [bind negb]. rewrite Hitem.
      cbn [bind]. rewrite Hseg. reflexivity.
    + rewrite generate_segs_cons, Hin. cbn [bind negb].
      rewrite count_has_no_dot. cbn [py_get bind]. rewrite Hitem. cbn [bind].
      rewrite Hseg.
      destruct x as [| | | | | | |d']; try discriminate Hres.
      apply (generate_present list_fields _ d' _ v _); try assumption.
      discriminate.
Qed.

Lemma present_path_yields_its_value_witness :
  _generate_field_values [] (VDict [("infos", VDict [("as_num", VInt 15169)])])
                         "infos.as_num" "" None VNone
  = Ok [Plain (VInt 15169)] /\
  (dict_get_default "count" (VInt 1) [("infos", VDict [("as_num", VInt 15169)])]
   <> VNone ->
   _generate_field_values [] (VDict [("infos", VDict [("as_num", VInt 15169)])])
                          "infos.as_num" "" (Some "count") VNone
   = Ok [Weighted (VInt 15169)
                  (dict_get_default "count" (VInt 1)
                                    [("infos", VDict [("as_num", VInt 15169)])])]).
Proof.
  apply (present_path_yields_its_value
           [] [("infos", VDict [("as_num", VInt 15169)])] "infos.as_num"
           (VInt 15169)).
  - reflexivity.
  - reflexivity.
Defined.

(* ------------------------------------------------------------------ *)
(** * Properties of [get]                                               *)
(* ------------------------------------------------------------------ *)

Lemma mapM_length {A B : Type} (f : A -> result B) (l : list A) :
  forall l', mapM f l = Ok l' -> List.length l' = List.length l.
Proof.
  induction l as [|x l IH]; intros l' H; cbn [mapM] in H.
  - now injection H as <-.
  - destruct (f x) as [y|e]; [|discriminate H]. cbn [bind] in H.
    destruct (mapM f l) as [ys|e]; [|discriminate H]. injection H as <-.
    cbn [List.length]. now rewrite (IH ys eq_refl).
Qed.

Lemma project_shape list_fields wanted recs l :
  project list_fields wanted recs = Ok l ->
  map doc_id l = map doc_id recs.
Proof.
  unfold project. destruct wanted as [t|]; [|now intros [= ->]].
  revert l. induction recs as [|rec recs IH]; intros l H; cbn [mapM] in H.
  - now injection H as <-.
  - destruct (_extractor list_fields (FDict t) (VDict (doc_body rec)) "")
      as [r|e]; [|discriminate H].
    cbn [bind] in H.
    destruct (mapM _ recs) as [rs|e]; [|discriminate H]. injection H as <-.
    cbn [map doc_id fst]. now rewrite (IH rs eq_refl).
Qed.

Lemma search_sound flt db : forall res,
  search flt db = Ok res ->
  forall d, In d res -> In d db /\ flt (VDict (doc_body d)) = Ok true.
Proof.
  induction db as [|x db IH]; intros res H d Hin; cbn [search] in H.
  - injection H as <-. contradiction.
  - destruct (flt (VDict (doc_body x))) as [b|e] eqn:Hx; [|discriminate H].
    cbn [bind] in H.
    destruct (search flt db) as [rest|e]; [|discriminate H]. injection H as <-.
    destruct b.
    + destruct Hin as [<-|Hin]; [split; [now left|exact Hx]|].
      destruct (IH rest eq_refl d Hin). split; [now right|assumption].
    + destruct (IH rest eq_refl d Hin). split; [now right|assumption].
Qed.

Lemma slice_from_In {A : Type} n (l : list A) x : In x (slice_from n l) -> In x l.
Proof.
  unfold slice_from. intros H.
  rewrite <- (firstn_skipn (slice_bound n l) l). apply in_or_app. now right.
Qed.

Lemma slice_to_In {A : Type} n (l : list A) x : In x (slice_to n l) -> In x l.
Proof.
  unfold slice_to. intros H.
  rewrite <- (firstn_skipn (slice_bound n l) l). apply in_or_app. now left.
Qed.

Lemma apply_skip_limit_In limit skip l d :
  In d (apply_limit limit (apply_skip skip l)) -> In d l.
Proof.
  intros H.
  assert (H1 : In d (apply_skip skip l)).
  { destruct limit as [n|]; [now apply slice_to_In in H|exact H]. }
  destruct skip as [n|]; [now apply slice_from_In in H1|exact H1].
Qed.

(** The records that [get] hands to the projection. *)
Lemma get_unprojected list_fields db flt fields sort limit skip l :
  get list_fields db flt fields sort limit skip = Ok l ->
  exists res ordered wanted,
    search flt db = Ok res /\
    Permutation res ordered /\
    project list_fields wanted
            (apply_limit limit (apply_skip skip ordered)) = Ok l /\
    get list_fields db flt None sort limit skip
    = Ok (apply_limit limit (apply_skip skip ordered)) /\
    (fields = None -> wanted = None).
Proof.
  unfold get. intros H.
  destruct (search flt db) as [res|e]; [|discriminate H]. cbn [bind] in H |- *.
  destruct (match fields with
            | Some flds => t <- build_fields flds [] ;; Ok (Some t)
            | None => Ok None
            end) as [wanted|e] eqn:Hw; [|discriminate H].
  cbn [bind] in H.
  assert (Hnone : fields = None -> wanted = None)
    by (intros ->; now injection Hw as <-).
  destruct sort as [|ko sort].
  - exists res, res, wanted. cbn [project]. auto.
  - destruct (sorted (cmp_docs (ko :: sort)) res) as [ordered|e] eqn:Hs;
      [|discriminate H].
    cbn [bind] in H |- *. exists res, ordered, wanted. cbn [project].
    repeat split; auto. now apply sorted_perm in Hs.
Qed.

(** X11. [get] never returns more records than a limit that is not
    negative. *)
Theorem get_respects_limit
        (list_fields : list string) (db : table) (flt : query)
        (fields : option (list string)) (sort : list (string * Z))
        (limit : Z) (skip : option Z) (l : list document) :
  0 <= limit ->
  get list_fields db flt fields sort (Some limit) skip = Ok l ->
  Z.of_nat (List.length l) <= limit.
Proof.
  intros Hlim H.
  destruct (get_unprojected _ _ _ _ _ _ _ _ H)
    as (res & ordered & wanted & _ & _ & Hproj & _).
  assert (Hlen : List.length l
                 = List.length (apply_limit (Some limit) (apply_skip skip ordered))).
  { unfold project in Hproj. destruct wanted as [t|].
    - now apply mapM_length in Hproj.
    - now injection Hproj as <-. }
  rewrite Hlen. cbn [apply_limit]. unfold slice_to, slice_bound.
  destruct (Z.ltb_spec limit 0); [lia|].
  pose proof (firstn_le_length (Z.to_nat limit) (apply_skip skip ordered)). lia.
Qed.

Lemma get_respects_limit_witness :
  Z.of_nat (List.length [(1, [("a", VInt 3)])]) <= 1.
Proof.
  apply (get_respects_limit
           [] [(1, [("a", VInt 3)]); (2, [("a", VInt 1)])] q_empty None []
           1 None [(1, [("a", VInt 3)])]).
  - lia.
  - reflexivity.
Defined.

(** X12. Without projection, every record that [get] returns is a
    stored record that passes the filter, whatever the sort, the limit and
    the skip. *)
Theorem get_returns_stored_matching
        (list_fields : list string) (db : table) (flt : query)
        (sort : list (string * Z)) (limit skip : option Z)
        (l : list document) (d : document) :
  get list_fields db flt None sort limit skip = Ok l ->
  In d l ->
  In d db /\ flt (VDict (doc_body d)) = Ok true.
Proof.
  intros H Hin.
  destruct (get_unprojected _ _ _ _ _ _ _ _ H)
    as (res & ordered & wanted & Hsearch & Hperm & Hproj & _ & Hnone).
  rewrite (Hnone eq_refl) in Hproj. cbn [project] in Hproj.
  injection Hproj as <-.
  apply apply_skip_limit_In in Hin.
  apply (search_sound _ _ _ Hsearch).
  eapply Permutation_in; [apply Permutation_sym; exact Hperm|exact Hin].
Qed.

Lemma get_returns_stored_matching_witness :
  In (2, [("a", VInt 1)]) [(1, [("a", VInt 3)]); (2, [("a", VInt 1)])] /\
  q_exists ["a"] (VDict (doc_body (2, [("a", VInt 1)]))) = Ok true.
Proof.
  apply (get_returns_stored_matching
           [] [(1, [("a", VInt 3)]); (2, [("a", VInt 1)])] (q_exists ["a"])
           [("a", 1)] None None
           [(2, [("a", VInt 1)]); (1, [("a", VInt 3)])]).
  - reflexivity.
  - left. reflexivity.
Defined.

(** X13. The projection changes the contents of the records only: a
    call of [get] with requested fields returns the records of the same
    call without them, identifier by identifier and in the same order. *)
Theorem get_projection_keeps_identifiers
        (list_fields : list string) (db : table) (flt : query)
        (fields : list string) (sort : list (string * Z))
        (limit skip : option Z) (l : list document) :
  get list_fields db flt (Some fields) sort limit skip = Ok l ->
  exists whole,
    get list_fields db flt None sort limit skip = Ok whole /\
    map doc_id l = map doc_id whole.
Proof.
  intros H.
  destruct (get_unprojected _ _ _ _ _ _ _ _ H)
    as (res & ordered & wanted & _ & _ & Hproj & Hwhole & _).
  eexists. split; [exact Hwhole|]. now apply project_shape in Hproj.
Qed.

Lemma get_projection_keeps_identifiers_witness :
  exists whole,
    get [] [(1, [("a", VInt 3); ("b", VInt 0)]); (2, [("b", VInt 1)])]
        q_empty None [] None None = Ok whole /\
    map doc_id [(1, [("a", VInt 3)]); (2, [])] = map doc_id whole.
Proof.
  apply (get_projection_keeps_identifiers
           [] [(1, [("a", VInt 3); ("b", VInt 0)]); (2, [("b", VInt 1)])]
           q_empty ["a"] [] None None).
  reflexivity.
Defined.

(** ** The projection on top-level fields *)

(** The field name holds no dot. *)
Fixpoint dotless (s : string) : bool :=
  match s with
  | EmptyString => true
  | String c s' => negb (Ascii.eqb c "."%char) && dotless s'
  end.

Lemma split_dot_dotless s : dotless s = true -> split_dot s = [s].
Proof.
  induction s as [|c s IH]; [reflexivity|]. cbn [dotless split_dot].
  intros H. apply andb_true_iff in H as [Hc Hs]. apply negb_true_iff in Hc.
  rewrite Hc, (IH Hs). reflexivity.
Qed.

(** The requested names, as the tree of [get] holds them. *)
Definition flat_tree (fields : list string) (t : list (string * ftree))
  : list (string * ftree) :=
  fold_left (fun t f => ft_set f FTrue t) fields t.

Lemma build_fields_flat fields : forall t,
  Forall (fun f => dotless f = true) fields ->
  build_fields fields t = Ok (flat_tree fields t).
Proof.
  induction fields as [|f fields IH]; intros t H; [reflexivity|].
  inversion H as [|? ? Hf Hrest]; subst.
  cbn [build_fields flat_tree fold_left].
  rewrite (split_dot_dotless f Hf). cbn [add_field bind].
  now apply IH.
Qed.

Definition ft_has (k : string) (t : list (string * ftree)) : bool :=
  existsb (fun kv => (fst kv =? k)%string) t.

Lemma ft_set_has k f v t :
  ft_has k (ft_set f v t) = (f =? k)%string || ft_has k t.
Proof.
  unfold ft_has. induction t as [|[k' v'] t IH]; cbn [ft_set existsb fst].
  - now rewrite orb_false_r.
  - destruct (String.eqb_spec k' f) as [->|Hne]; cbn [existsb fst].
    + now destruct (f =? k)%string.
    + rewrite IH. destruct (k' =? k)%string, (f =? k)%string; reflexivity.
Qed.

Lemma ft_set_all_true f t :
  Forall (fun kv : string * ftree => snd kv = FTrue) t ->
  Forall (fun kv : string * ftree => snd kv = FTrue) (ft_set f FTrue t).
Proof.
  induction 1 as [|[k' v'] t Hkv Ht IH]; cbn [ft_set].
  - now repeat constructor.
  - destruct (k' =? f)%string; constructor; auto.
Qed.

Lemma flat_tree_spec fields : forall t,
  Forall (fun kv : string * ftree => snd kv = FTrue) t ->
  Forall (fun kv : string * ftree => snd kv = FTrue) (flat_tree fields t) /\
  forall k, ft_has k (flat_tree fields t)
            = existsb (fun f => (f =? k)%string) fields || ft_has k t.
Proof.
  induction fields as [|f fields IH]; intros t Ht; cbn [flat_tree fold_left].
  - split; [exact Ht|reflexivity].
  - destruct (IH (ft_set f FTrue t) (ft_set_all_true f t Ht)) as [Hall Hhas].
    split; [exact Hall|]. intros k. unfold flat_tree in Hhas. rewrite Hhas.
    rewrite ft_set_has. cbn [existsb].
    destruct (existsb _ fields), (f =? k)%string; reflexivity.
Qed.

(** One requested name after the other: the field is copied when the
    record holds it. *)
Definition copy_field (rec : dict) (res : dict) (kv : string * ftree) : dict :=
  match dict_get (fst kv) rec with
  | Some x => dict_set (fst kv) x res
  | None => res
  end.

Lemma extractor_flat list_fields (items : list (string * ftree)) rec base :
  Forall (fun kv : string * ftree => snd kv = FTrue) items ->
  _extractor list_fields (FDict items) (VDict rec) base
  = Ok (fold_left (copy_field rec) items []).
Proof.
  intros Hall. cbn [_extractor]. generalize (@nil (string * value)) as res.
  induction Hall as [|[fld sub] items Hsub Hall IH]; intros res; [reflexivity|].
  cbn [snd] in Hsub. subst sub. cbn [fold_left py_in bind].
  unfold copy_field at 2. cbn [fst]. unfold dict_has.
  destruct (dict_get fld rec) as [x|] eqn:Hget; cbn [negb].
  - cbn [py_getitem]. rewrite Hget. cbn [bind]. apply IH.
  - apply IH.
Qed.

Lemma copy_fields_get rec items : forall res k,
  dict_get k (fold_left (copy_field rec) items res)
  = if ft_has k items && dict_has k rec then dict_get k rec else dict_get k res.
Proof.
  induction items as [|[fld sub] items IH]; intros res k; [reflexivity|].
  cbn [fold_left]. rewrite IH. unfold ft_has. cbn [existsb fst].
  fold (ft_has k items).
  unfold copy_field. cbn [fst]. unfold dict_has.
  destruct (ft_has k items) eqn:Hk; cbn [andb orb].
  - rewrite orb_true_r. cbn [andb].
    destruct (dict_get k rec) as [y|] eqn:Hy; [reflexivity|].
    destruct (dict_get fld rec) as [x|] eqn:Hx; [|reflexivity].
    rewrite dict_get_set_other; [reflexivity|]. intros ->. congruence.
  - rewrite orb_false_r.
    destruct (String.eqb_spec fld k) as [->|Hne]; cbn [andb].
    + destruct (dict_get k rec) as [x|]; [apply dict_get_set_same|reflexivity].
    + destruct (dict_get fld rec) as [x|]; [|reflexivity].
      now apply dict_get_set_other.
Qed.

(** X14. For requested fields whose names hold no dot, the projection
    of [get] is the restriction of the record to these fields: a requested
    field has the value it has in the record, the requested fields that
    the record lacks are left out, and so is every field that was not
    requested. *)
Theorem flat_projection_is_restriction
        (list_fields : list string) (fields : list string) (rec : dict) :
  Forall (fun f => dotless f = true) fields ->
  exists t res,
    build_fields fields [] = Ok t /\
    _extractor list_fields (FDict t) (VDict rec) "" = Ok res /\
    forall k, dict_get k res
              = if existsb (fun f => (f =? k)%string) fields
                then dict_get k rec
                else None.
Proof.
  intros Hflat.
  destruct (flat_tree_spec fields [] (Forall_nil _)) as [Hall Hhas].
  exists (flat_tree fields []), (fold_left (copy_field rec) (flat_tree fields []) []).
  split; [now apply build_fields_flat|].
  split; [now apply extractor_flat|].
  intros k. rewrite copy_fields_get, Hhas. cbn [ft_has existsb].
  rewrite orb_false_r. unfold dict_has.
  destruct (existsb _ fields); cbn [andb]; [|reflexivity].
  now destruct (dict_get k rec).
Qed.

Lemma flat_projection_is_restriction_witness :
  exists t res,
    build_fields ["value"; "port"] [] = Ok t /\
    _extractor [] (FDict t) (VDict observation) "" = Ok res /\
    forall k, dict_get k res
              = if existsb (fun f => (f =? k)%string) ["value"; "port"]
                then dict_get k observation
                else None.
Proof.
  apply (flat_projection_is_restriction [] ["value"; "port"] observation).
  repeat constructor.
Defined.

(** ** Sorting on an integer field *)

Section OrderedSort.
Context {A : Type}.
Variable cmp : A -> A -> result Z.
Variable rank : A -> Z.
Variable dom : A -> Prop.
Hypothesis cmp_rank : forall y x,
  dom y -> dom x -> exists c, cmp y x = Ok c /\ (c < 0 <-> rank y < rank x).

Definition by_rank (a b : A) : Prop := rank a <= rank b.

Lemma insert_sorted_ordered x l :
  dom x -> Forall dom l -> StronglySorted by_rank l ->
  exists l', insert_sorted cmp x l = Ok l' /\
             Forall dom l' /\ StronglySorted by_rank l' /\
             Forall (fun z => forall b, (forall y, In y (x :: l) -> rank y >= b) ->
                                        rank z >= b) l'.
Proof.
  intros Hx Hdom Hs. induction Hs as [|y l Hs IH Hy]; cbn [insert_sorted].
  - exists [x]. repeat split; repeat constructor; auto.
    intros b Hb. apply Hb. now left.
  - inversion Hdom as [|? ? Hdy Hdl]; subst.
    destruct (cmp_rank y x Hdy Hx) as (c & -> & Hc). cbn [bind].
    destruct (Z.ltb_spec c 0) as [Hneg|Hpos].
    + destruct (IH Hdl) as (r & -> & Hdr & Hsr & Hlow). cbn [bind].
      exists (y :: r). split; [reflexivity|]. split; [now constructor|].
      split.
      * constructor; [exact Hsr|].
        rewrite Forall_forall in Hlow |- *. intros z Hz.
        unfold by_rank. specialize (Hlow z Hz (rank y)).
        assert (rank z >= rank y); [|lia].
        apply Hlow. intros w [<-|Hw]; [lia|].
        rewrite Forall_forall in Hy. specialize (Hy w Hw). unfold by_rank in Hy. lia.
      * constructor.
        -- intros b Hb. apply Hb. right. now left.
        -- eapply Forall_impl; [|exact Hlow]. cbv beta. intros z Hz b Hb.
           apply Hz. intros w [<-|Hw]; apply Hb; [now left|right; now right].
    + exists (x :: y :: l). split; [reflexivity|]. split; [now constructor|].
      split.
      * constructor; [now constructor|].
        constructor; [unfold by_rank; lia|].
        eapply Forall_impl; [|exact Hy]. unfold by_rank. intros z Hz. lia.
      * rewrite Forall_forall. intros z Hz b Hb. now apply Hb.
Qed.

Lemma sorted_ordered l :
  Forall dom l ->
  exists l', sorted cmp l = Ok l' /\ Forall dom l' /\ StronglySorted by_rank l'.
Proof.
  induction 1 as [|x l Hx Hl IH]; cbn [sorted].
  - exists []. repeat split; constructor.
  - destruct IH as (s & -> & Hds & Hss). cbn [bind].
    destruct (insert_sorted_ordered x s Hx Hds Hss) as (l' & Hl' & Hd & Hs' & _).
    eauto.
Qed.
End OrderedSort.

Lemma strongly_sorted_weaken {A : Type} (R S : A -> A -> Prop) (l : list A) :
  (forall a b, R a b -> S a b) -> StronglySorted R l -> StronglySorted S l.
Proof.
  intros HRS. induction 1 as [|x l Hs IH Hx]; constructor; [exact IH|].
  eapply Forall_impl; [|exact Hx]. apply HRS.
Qed.

(** The integer that the document holds under the key [k]. *)
Definition int_at (k : string) (d : document) : option Z :=
  match dict_get k (doc_body d) with
  | Some (VInt a) => Some a
  | _ => None
  end.

Definition int_rank (k : string) (d : document) : Z :=
  match int_at k d with Some a => a | None => 0 end.

Lemma cmp_docs_int k o y x a b :
  dotless k = true ->
  int_at k y = Some a -> int_at k x = Some b ->
  cmp_docs [(k, o)] y x
  = Ok (if a =? b then 0 else if a <? b then - o else o).
Proof.
  unfold int_at. intros Hk Hy Hx.
  destruct (dict_get k (doc_body y)) as [[| | a'| | | | |]|] eqn:Hgy;
    try discriminate Hy. injection Hy as ->.
  destruct (dict_get k (doc_body x)) as [[| | b'| | | | |]|] eqn:Hgx;
    try discriminate Hx. injection Hx as ->.
  assert (Hstep : forall body v, dict_get k body = Some v ->
                                 cmp_step k (VDict body) = Ok v).
  { intros body v Hv. unfold cmp_step, dict_get_default.
    destruct body; [discriminate Hv|]. cbn [truthy py_get].
    unfold dict_get_default. now rewrite Hv. }
  unfold cmp_docs. cbn [_cmp]. rewrite (split_dot_dotless k Hk).
  cbn [cmp_walk]. rewrite (Hstep _ _ Hgy), (Hstep _ _ Hgx).
  cbn [bind py_eq is_none py_lt].
  destruct (a =? b); [reflexivity|]. now destruct (a <? b).
Qed.

(** X15. Sorting on one top-level field that holds an integer in every
    selected record never fails; in direction 1 the records come out with
    that integer never decreasing, in direction -1 never increasing. *)
Theorem sort_on_integer_field_is_ordered
        (k : string) (l : list document) :
  dotless k = true ->
  Forall (fun d => int_at k d <> None) l ->
  (exists l', sorted (cmp_docs [(k, 1)]) l = Ok l' /\
              Permutation l l' /\
              StronglySorted (fun d1 d2 => int_rank k d1 <= int_rank k d2) l') /\
  (exists l', sorted (cmp_docs [(k, -1)]) l = Ok l' /\
              Permutation l l' /\
              StronglySorted (fun d1 d2 => int_rank k d1 >= int_rank k d2) l').
Proof.
  intros Hk Hall.
  assert (Hcmp : forall o y x,
             int_at k y <> None -> int_at k x <> None ->
             cmp_docs [(k, o)] y x
             = Ok (if int_rank k y =? int_rank k x then 0
                   else if int_rank k y <? int_rank k x then - o else o)).
  { intros o y x Hy Hx. unfold int_rank.
    destruct (int_at k y) as [a|] eqn:Ha; [|congruence].
    destruct (int_at k x) as [b|] eqn:Hb; [|congruence].
    now apply cmp_docs_int. }
  split.
  - destruct (sorted_ordered (cmp_docs [(k, 1)]) (int_rank k)
                             (fun d => int_at k d <> None)) with (l := l)
      as (l' & Hs & _ & Hord); [|exact Hall|].
    + intros y x Hy Hx. rewrite (Hcmp 1 y x Hy Hx). eexists. split; [reflexivity|].
      destruct (Z.eqb_spec (int_rank k y) (int_rank k x)),
        (Z.ltb_spec (int_rank k y) (int_rank k x)); lia.
    + exists l'. split; [exact Hs|]. split; [now apply sorted_perm in Hs|exact Hord].
  - destruct (sorted_ordered (cmp_docs [(k, -1)]) (fun d => - int_rank k d)
                             (fun d => int_at k d <> None)) with (l := l)
      as (l' & Hs & _ & Hord); [|exact Hall|].
    + intros y x Hy Hx. rewrite (Hcmp (-1) y x Hy Hx). eexists. split; [reflexivity|].
      destruct (Z.eqb_spec (int_rank k y) (int_rank k x)),
        (Z.ltb_spec (int_rank k y) (int_rank k x)); lia.
    + exists l'. split; [exact Hs|]. split; [now apply sorted_perm in Hs|].
      eapply strongly_sorted_weaken; [|exact Hord].
      unfold by_rank. intros d1 d2 H. lia.
Qed.

Lemma sort_on_integer_field_is_ordered_witness :
  (exists l', sorted (cmp_docs [("port", 1)])
                     [(1, [("port", VInt 443)]); (2, [("port", VInt 22)])]
              = Ok l' /\
              Permutation [(1, [("port", VInt 443)]); (2, [("port", VInt 22)])] l' /\
              StronglySorted
                (fun d1 d2 => int_rank "port" d1 <= int_rank "port" d2) l') /\
  (exists l', sorted (cmp_docs [("port", -1)])
                     [(1, [("port", VInt 443)]); (2, [("port", VInt 22)])]
              = Ok l' /\
              Permutation [(1, [("port", VInt 443)]); (2, [("port", VInt 22)])] l' /\
              StronglySorted
                (fun d1 d2 => int_rank "port" d1 >= int_rank "port" d2) l').
Proof.
  apply (sort_on_integer_field_is_ordered
           "port" [(1, [("port", VInt 443)]); (2, [("port", VInt 22)])]).
  - reflexivity.
  - repeat constructor; discriminate.
Defined.

(* ------------------------------------------------------------------ *)
(** * More of [ivre/db/tiny.py]: stored records                         *)
(* ------------------------------------------------------------------ *)

Module TinyStore.
Import Py TDB PyLib Tiny TDBOps.
Local Open Scope py_scope.

(** [TinyDB.remove]: [rec] is a record or the identifier of one. *)
Definition tinydb_remove (rec : value) (db : table) : result table :=
  id <- match rec with
        | VDict _ => py_getitem "_id" rec
        | _ => Ok rec
        end ;;
  remove (q_eq ["_id"] id) db.

Section TinyDBActive.
Variable list_fields : list string.
Variable bin2ip : string -> result value.
Variable all2datetime : value -> result value.

(** [d[k] = internal2ip(d[k])], where [KeyError] and [socket.error] are
    passed over. *)
Definition convert_ip (k : string) (d : dict) : result dict :=
  match dict_get k d with
  | None => Ok d
  | Some a =>
      match internal2ip bin2ip a with
      | Ok v => Ok (dict_set k v d)
      | Raise KeyError | Raise SocketError => Ok d
      | Raise e => Raise e
      end
  end.

(** The same on an element of an array; subscripting anything but a
    document raises [TypeError]. *)
Definition convert_ip_in (k : string) (v : value) : result value :=
  match v with
  | VDict d => d' <- convert_ip k d ;; Ok (VDict d')
  | _ => Raise TypeError
  end.

(** [for e in obj.get(k, []): ...], the elements being changed in
    place. *)
Definition convert_each (f : value -> result value) (k : string) (d : dict)
  : result dict :=
  match dict_get k d with
  | None => Ok d
  | Some v =>
      elems <- py_iter v ;;
      elems' <- mapM f elems ;;
      Ok (match v with
          | VList _ => dict_set k (VList elems') d
          | _ => d
          end)
  end.

(** The hops of a trace. *)
Definition convert_trace (trace : value) : result value :=
  match trace with
  | VDict d => d' <- convert_each (convert_ip_in "ipaddr") "hops" d ;;
               Ok (VDict d')
  | _ => Raise AttributeError
  end.

(** The body of the loop of [TinyDBActive._get]. *)
Definition active_convert (host : document) : result document :=
  h1 <- convert_ip "addr" (doc_body host) ;;
  h2 <- convert_each (convert_ip_in "state_reason_ip") "ports" h1 ;;
  h3 <- convert_each convert_trace "traces" h2 ;;
  h4 <- internal2rec_fld all2datetime "starttime" h3 ;;
  h5 <- internal2rec_fld all2datetime "endtime" h4 ;;
  Ok (doc_id host, h5).

(** [TinyDBActive.get] *)
Definition active_get (db : table) (flt : query)
           (fields : option (list string)) (sort : list (string * Z))
           (limit skip : option Z) : result (list document) :=
  recs <- get list_fields db flt fields sort limit skip ;;
  mapM active_convert recs.

(** [TinyDBActive.getscanids] *)
Definition getscanids (host : value) : result value :=
  py_get "scanid" (VList []) host.

(** The loop of [TinyDBNmap.remove] over the scan identifiers: a scan
    document goes when no stored host refers to it any more.  The
    exception raised, if any, comes with the table of scan documents as the
    loop left it. *)
Fixpoint remove_orphans (scanids : list value) (db db_scans : table)
  : option exn * table :=
  match scanids with
  | [] => (None, db_scans)
  | scanid :: rest =>
      match TDB.get (q_any_in ["scanid"] [scanid]) db with
      | Raise e => (Some e, db_scans)
      | Ok found =>
          if match found with
             | None => true
             | Some h => negb (truthy (VDict (doc_body h)))
             end
          then match remove (q_eq ["_id"] scanid) db_scans with
               | Ok db_scans' => remove_orphans rest db db_scans'
               | Raise e => (Some e, db_scans)
               end
          else remove_orphans rest db db_scans
      end
  end.

(** [TinyDBNmap.remove]: the exception raised, if any, the table of
    hosts and the table of scan documents after the call. *)
Definition nmap_remove (rec : value) (db db_scans : table)
  : option exn * table * table :=
  match (match rec with
         | VDict _ => py_get "scanid" (VList []) rec
         | _ =>
             hosts <- active_get db (q_eq ["_id"] rec) None [] None None ;;
             match hosts with
             | [] => Ok (VList [])
             | h :: _ => py_get "scanid" (VList []) (VDict (doc_body h))
             end
         end) with
  | Raise e => (Some e, db, db_scans)
  | Ok scanids =>
      match tinydb_remove rec db with
      | Raise e => (Some e, db, db_scans)
      | Ok db' =>
          match py_iter scanids with
          | Raise e => (Some e, db', db_scans)
          | Ok ids =>
              (fst (remove_orphans ids db' db_scans), db',
               snd (remove_orphans ids db' db_scans))
          end
      end
  end.

End TinyDBActive.

Section TinyDBNmap.
Variable bytes_decode : string -> result string.

(** [TinyDBNmap.getscan] *)
Definition getscan (scanid : value) (db_scans : table)
  : result (option document) :=
  id <- match scanid with
        | VBytes b =>
            match bytes_decode b with
            | Ok s => Ok (VStr s)
            | Raise AttributeError => Ok scanid
            | Raise e => Raise e
            end
        | _ => Ok scanid
        end ;;
  TDB.get (q_eq ["_id"] id) db_scans.

(** [TinyDBNmap.is_scan_present] *)
Definition is_scan_present (scanid : value) (db_scans : table) : result bool :=
  found <- getscan scanid db_scans ;;
  Ok (match found with Some _ => true | None => false end).

End TinyDBNmap.

Section TinyDBPassive.
Variable ip2bin : value -> result string.
Variable all2datetime : value -> result value.
Variable datetime2timestamp : value -> result value.

(** [TinyDBPassive.insert] *)
Definition passive_insert (spec : dict)
           (getinfos : option (dict -> result dict)) (db : table)
  : result table :=
  spec1 <- match getinfos with
           | Some resolver => infos <- resolver spec ;;
                              Ok (dict_update spec infos)
           | None => Ok spec
           end ;;
  spec2 <- rec2internal ip2bin all2datetime datetime2timestamp spec1 ;;
  Ok (snd (insert spec2 db)).

End TinyDBPassive.

(** The argument of [TinyDBPassive.remove]: an identifier or a filter. *)
Inductive spec_or_id : Type :=
| ById (id : Z)
| ByFilter (flt : query).

(** [TinyDBPassive.remove] *)
Definition passive_remove (target : spec_or_id) (db : table) : result table :=
  match target with
  | ById id => remove_ids [id] db
  | ByFilter flt => remove flt db
  end.

End TinyStore.

(* ------------------------------------------------------------------ *)
(** * Properties of the stored records                                  *)
(* ------------------------------------------------------------------ *)

Import TinyStore.

Lemma remove_pure (cond : query) (test : dict -> bool) (t : table) :
  (forall d : dict, cond (VDict d) = Ok (test d)) ->
  remove cond t = Ok (filter (fun d => negb (passes test d)) t).
Proof.
  intros Hpure. induction t as [|d t IH]; [reflexivity|].
  cbn [remove filter]. rewrite Hpure, IH. cbn [bind].
  change (passes test d) with (test (doc_body d)).
  now destruct (test (doc_body d)).
Qed.

(** The stored document has the identifier [id] in its [_id] field. *)
Definition has_id (id : value) (d : document) : bool :=
  field_is "_id" id (VDict (doc_body d)).

Lemma has_id_passes id :
  passes (fun d => field_is "_id" id (VDict d)) = has_id id.
Proof. reflexivity. Qed.

(** X16. A scan document whose identifier is not stored yet is stored
    by [store_scan_doc], which returns the decoded identifier; [getscan]
    then finds it, by the identifier as bytes or as text, with its [_id]
    field decoded and its other fields as given; and every scan document
    that was present before is still present. *)
Theorem stored_scan_is_found
        (bytes_decode : string -> result string)
        (scan : dict) (db_scans : table) (raw id : string) :
  dict_get "_id" scan = Some (VBytes raw) ->
  bytes_decode raw = Ok id ->
  is_scan_present bytes_decode (VStr id) db_scans = Ok false ->
  exists db_scans',
    store_scan_doc bytes_decode scan db_scans = (Ok (VStr id), db_scans') /\
    getscan bytes_decode (VBytes raw) db_scans'
    = Ok (Some (next_id db_scans, dict_set "_id" (VStr id) scan)) /\
    getscan bytes_decode (VStr id) db_scans'
    = Ok (Some (next_id db_scans, dict_set "_id" (VStr id) scan)) /\
    (forall other,
        is_scan_present bytes_decode other db_scans = Ok true ->
        is_scan_present bytes_decode other db_scans' = Ok true).
Proof.
  intros Hraw Hdec Habsent.
  assert (Hget : forall v t,
             TDB.get (q_eq ["_id"] v) t = Ok (find (has_id v) t)).
  { intros v t. rewrite <- has_id_passes. apply get_pure. intros d.
    apply q_eq_field. }
  unfold is_scan_present, getscan in Habsent. cbn [bind] in Habsent.
  rewrite Hget in Habsent. cbn [bind] in Habsent.
  destruct (find (has_id (VStr id)) db_scans) eqn:Hfind; [discriminate Habsent|].
  exists (db_scans ++ [(next_id db_scans, dict_set "_id" (VStr id) scan)]).
  assert (Hnew : find (has_id (VStr id))
                      (db_scans ++ [(next_id db_scans, dict_set "_id" (VStr id) scan)])
                 = Some (next_id db_scans, dict_set "_id" (VStr id) scan)).
  { rewrite find_app, Hfind. cbn [find]. unfold has_id, field_is.
    cbn [doc_body snd]. rewrite resolve_field, dict_get_set_same.
    cbn [py_eq]. now rewrite String.eqb_refl. }
  split; [|split; [|split]].
  - unfold store_scan_doc. cbn [py_getitem]. rewrite Hraw.
    cbn [bind py_decode]. rewrite Hdec. cbn [bind].
    rewrite Hget, Hfind. reflexivity.
  - unfold getscan. rewrite Hdec. cbn [bind]. now rewrite Hget, Hnew.
  - unfold getscan. cbn [bind]. now rewrite Hget, Hnew.
  - intros other. unfold is_scan_present, getscan.
    destruct (match other with
              | VBytes b =>
                  match bytes_decode b with
                  | Ok s => Ok (VStr s)
                  | Raise AttributeError => Ok other
                  | Raise e => Raise e
                  end
              | _ => Ok other
              end) as [oid|e]; [|discriminate].
    cbn [bind]. rewrite !Hget, find_app. cbn [bind].
    destruct (find (has_id oid) db_scans); [reflexivity|discriminate].
Qed.

Lemma stored_scan_is_found_witness :
  exists db_scans',
    store_scan_doc (fun b => Ok b)
                   [("_id", VBytes "beef"); ("scanner", VStr "nmap")]
                   [(1, [("_id", VStr "f00d")])]
    = (Ok (VStr "beef"), db_scans') /\
    getscan (fun b => Ok b) (VBytes "beef") db_scans'
    = Ok (Some (next_id [(1, [("_id", VStr "f00d")])],
                dict_set "_id" (VStr "beef")
                         [("_id", VBytes "beef"); ("scanner", VStr "nmap")])) /\
    getscan (fun b => Ok b) (VStr "beef") db_scans'
    = Ok (Some (next_id [(1, [("_id", VStr "f00d")])],
                dict_set "_id" (VStr "beef")
                         [("_id", VBytes "beef"); ("scanner", VStr "nmap")])) /\
    (forall other,
        is_scan_present (fun b => Ok b) other [(1, [("_id", VStr "f00d")])]
        = Ok true ->
        is_scan_present (fun b => Ok b) other db_scans' = Ok true).
Proof.
  apply (stored_scan_is_found
           (fun b => Ok b) [("_id", VBytes "beef"); ("scanner", VStr "nmap")]
           [(1, [("_id", VStr "f00d")])] "beef" "beef").
  - reflexivity.
  - reflexivity.
  - reflexivity.
Defined.

(** The stored host lists the scan identifier [sid] in its [scanid]
    field. *)
Definition refers_to (sid : value) (body : dict) : bool :=
  match dict_get "scanid" body with
  | Some v => match py_iter v with
              | Ok l => existsb (fun e => py_eq sid e) l
              | Raise _ => false
              end
  | None => false
  end.

(** Some stored host refers to the scan. *)
Definition still_referenced (sid : value) (db : table) : bool :=
  existsb (fun h => refers_to sid (doc_body h)) db.

(** The scan document is that of a listed scan that no stored host
    refers to. *)
Definition orphaned (scanids : list value) (db : table) (s : document) : bool :=
  existsb (fun sid => has_id sid s && negb (still_referenced sid db)) scanids.

Lemma q_any_in_refers sid body :
  q_any_in ["scanid"] [sid] (VDict body) = Ok (refers_to sid body).
Proof.
  unfold q_any_in, q_test, refers_to. rewrite resolve_field.
  destruct (dict_get "scanid" body) as [v|]; [|reflexivity].
  destruct (py_iter v) as [l|e]; [|reflexivity].
  f_equal. induction l as [|x l IH]; [reflexivity|].
  cbn [existsb] in *. now rewrite IH, orb_false_r.
Qed.

Lemma find_existsb {A : Type} (p : A -> bool) (l : list A) :
  match find p l with Some _ => true | None => false end = existsb p l.
Proof.
  induction l as [|x l IH]; [reflexivity|]. cbn [find existsb].
  now destruct (p x).
Qed.

Lemma filter_filter {A : Type} (p q : A -> bool) (l : list A) :
  filter p (filter q l) = filter (fun x => q x && p x) l.
Proof.
  induction l as [|x l IH]; [reflexivity|]. cbn [filter].
  destruct (q x); cbn [filter andb]; [|exact IH].
  destruct (p x); now rewrite IH.
Qed.

Lemma remove_orphans_spec (scanids : list value) (db : table) :
  forall db_scans,
    remove_orphans scanids db db_scans
    = (None, filter (fun s => negb (orphaned scanids db s)) db_scans).
Proof.
  induction scanids as [|sid rest IH]; intros db_scans.
  - cbn [remove_orphans orphaned existsb negb].
    f_equal. induction db_scans as [|s l IHl]; [reflexivity|].
    cbn [filter]. now rewrite <- IHl.
  - cbn [remove_orphans].
    rewrite (get_pure _ (refers_to sid) (q_any_in_refers sid)).
    assert (Hcond : match find (passes (refers_to sid)) db with
                    | None => true
                    | Some h => negb (truthy (VDict (doc_body h)))
                    end = negb (still_referenced sid db)).
    { unfold still_referenced. rewrite <- find_existsb.
      change (fun h : document => refers_to sid (doc_body h))
        with (passes (refers_to sid)).
      destruct (find (passes (refers_to sid)) db) as [h|] eqn:Hf; [|reflexivity].
      apply find_some in Hf as [_ Hh]. unfold passes, refers_to in Hh.
      destruct (doc_body h); [discriminate Hh|reflexivity]. }
    rewrite Hcond.
    destruct (still_referenced sid db) eqn:Href; cbn [negb].
    + rewrite IH. f_equal. apply filter_ext. intros s.
      unfold orphaned. cbn [existsb]. rewrite Href. cbn [negb].
      now rewrite andb_false_r.
    + rewrite (remove_pure _ (fun d => field_is "_id" sid (VDict d)))
        by (intros d; apply q_eq_field).
      rewrite IH, filter_filter. f_equal. apply filter_ext. intros s.
      unfold orphaned. cbn [existsb]. rewrite Href. cbn [negb].
      rewrite andb_true_r. rewrite has_id_passes.
      now destruct (has_id sid s), (existsb _ rest).
Qed.

(** X17. Removing a host record removes, from the stored hosts, the
    records with its [_id], and from the stored scan documents, those of
    its scans that no remaining host refers to; the scan documents of
    scans that a remaining host still lists, and those of other scans,
    stay. *)
Theorem removing_a_host_removes_its_orphaned_scans
        (list_fields : list string) (bin2ip : string -> result value)
        (all2datetime : value -> result value)
        (host : dict) (id : value) (scanids : list value)
        (db db_scans : table) :
  dict_get "_id" host = Some id ->
  dict_get "scanid" host = Some (VList scanids) ->
  let db' := filter (fun h => negb (has_id id h)) db in
  nmap_remove list_fields bin2ip all2datetime (VDict host) db db_scans
  = (None, db', filter (fun s => negb (orphaned scanids db' s)) db_scans).
Proof.
  intros Hid Hscan db'. unfold nmap_remove.
  cbn [py_get]. unfold dict_get_default. rewrite Hscan.
  unfold tinydb_remove. cbn [py_getitem]. rewrite Hid. cbn [bind].
  rewrite (remove_pure _ (fun d => field_is "_id" id (VDict d)))
    by (intros d; apply q_eq_field).
  rewrite has_id_passes. fold db'. cbn [py_iter].
  now rewrite remove_orphans_spec.
Qed.

(** Two hosts of two scans, one scan shared. *)
Definition two_hosts : table :=
  [(1, [("_id", VStr "h1"); ("scanid", VList [VStr "s1"; VStr "s2"])]);
   (2, [("_id", VStr "h2"); ("scanid", VList [VStr "s2"])])].

Definition two_scans : table :=
  [(1, [("_id", VStr "s1")]); (2, [("_id", VStr "s2")])].

Lemma removing_a_host_removes_its_orphaned_scans_witness :
  nmap_remove [] no_text no_time
              (VDict [("_id", VStr "h1");
                      ("scanid", VList [VStr "s1"; VStr "s2"])])
              two_hosts two_scans
  = (None,
     filter (fun h => negb (has_id (VStr "h1") h)) two_hosts,
     filter (fun s => negb (orphaned [VStr "s1"; VStr "s2"]
                              (filter (fun h => negb (has_id (VStr "h1") h))
                                      two_hosts) s))
            two_scans).
Proof.
  apply (removing_a_host_removes_its_orphaned_scans
           [] no_text no_time
           [("_id", VStr "h1"); ("scanid", VList [VStr "s1"; VStr "s2"])]
           (VStr "h1") [VStr "s1"; VStr "s2"] two_hosts two_scans).
  - reflexivity.
  - reflexivity.
Defined.

(** The example, evaluated: the first host goes with the scan that only
    it referred to. *)
Example remove_first_host :
  nmap_remove [] no_text no_time
              (VDict [("_id", VStr "h1");
                      ("scanid", VList [VStr "s1"; VStr "s2"])])
              two_hosts two_scans
  = (None,
     [(2, [("_id", VStr "h2"); ("scanid", VList [VStr "s2"])])],
     [(2, [("_id", VStr "s2")])]).
Proof. reflexivity. Qed.

(* ------------------------------------------------------------------ *)
(** * What [topvalues] counts                                           *)
(* ------------------------------------------------------------------ *)

Section Counting.
Context {K : Type}.
Variable key_eqb : K -> K -> bool.
Hypothesis key_sym : forall x y, key_eqb x y = key_eqb y x.
Hypothesis key_trans :
  forall x y z, key_eqb x y = true -> key_eqb y z = true -> key_eqb x z = true.

(** The sum of the counts that come with a key equal to [k]. *)
Definition weight_of (k : K) (l : list (K * Z)) : Z :=
  fold_right Z.add 0 (map snd (filter (fun vc => key_eqb (fst vc) k) l)).

(** No key of the counter is equal to [k]. *)
Definition fresh (k : K) (c : list (K * Z)) : Prop :=
  forall k', In k' (map fst c) -> key_eqb k' k = false.

(** No two entries of the counter have equal keys. *)
Fixpoint distinct (c : list (K * Z)) : Prop :=
  match c with
  | [] => True
  | x :: c' => fresh (fst x) c' /\ distinct c'
  end.

Lemma key_eqb_class k k' x :
  key_eqb k' k = true -> key_eqb k' x = key_eqb k x.
Proof.
  intros H. destruct (key_eqb k x) eqn:E.
  - now apply (key_trans k' k x).
  - destruct (key_eqb k' x) eqn:E'; [|reflexivity].
    rewrite <- E. symmetry. apply (key_trans k k' x); [|exact E'].
    now rewrite key_sym.
Qed.

Lemma weight_of_cons k x l :
  weight_of k (x :: l)
  = (if key_eqb (fst x) k then snd x else 0) + weight_of k l.
Proof.
  unfold weight_of. cbn [filter].
  destruct (key_eqb (fst x) k); cbn [map fold_right]; lia.
Qed.

Lemma weight_of_class k k' l :
  key_eqb k' k = true -> weight_of k' l = weight_of k l.
Proof.
  intros H. induction l as [|x l IH]; [reflexivity|].
  rewrite !weight_of_cons, IH. f_equal.
  rewrite (key_sym (fst x) k'), (key_sym (fst x) k).
  now rewrite (key_eqb_class k k' (fst x) H).
Qed.

Lemma weight_of_fresh k l : fresh k l -> weight_of k l = 0.
Proof.
  induction l as [|x l IH]; intros Hf; [reflexivity|].
  rewrite weight_of_cons, IH.
  - rewrite (Hf (fst x)); [reflexivity|now left].
  - intros k' Hk'. apply Hf. now right.
Qed.

Lemma weight_of_entry k n l :
  key_eqb k k = true -> distinct l -> In (k, n) l -> weight_of k l = n.
Proof.
  intros Hrefl. induction l as [|x l IH]; [contradiction|].
  cbn [distinct In]. intros [Hfresh Hd] Hin.
  rewrite weight_of_cons. destruct Hin as [->|Hin].
  - cbn [fst snd]. rewrite Hrefl, weight_of_fresh by exact Hfresh. lia.
  - rewrite (IH Hd Hin).
    assert (E : key_eqb (fst x) k = false).
    { rewrite key_sym. apply Hfresh.
      change k with (fst (k, n)). now apply in_map. }
    rewrite E. lia.
Qed.

Lemma distinct_pairwise l : distinct l ->
  forall x y, In x l -> In y l -> key_eqb (fst x) (fst y) = true -> x = y.
Proof.
  induction l as [|a l IH]; [intros _ x y []|].
  cbn [distinct]. intros [Hfresh Hd] x y [->|Hx] [->|Hy] He.
  - reflexivity.
  - rewrite key_sym, (Hfresh (fst y)) in He; [discriminate|now apply in_map].
  - rewrite (Hfresh (fst x)) in He; [discriminate|now apply in_map].
  - now apply IH.
Qed.

Lemma distinct_NoDup l :
  (forall k, In k (map fst l) -> key_eqb k k = true) ->
  distinct l -> NoDup l.
Proof.
  induction l as [|a l IH]; intros Hrefl; [constructor|].
  cbn [distinct]. intros [Hfresh Hd]. constructor.
  - intros Hin. apply (in_map fst) in Hin.
    specialize (Hfresh (fst a) Hin).
    rewrite (Hrefl (fst a)) in Hfresh; [discriminate|now left].
  - apply IH; [|exact Hd]. intros k Hk. apply Hrefl. now right.
Qed.

Lemma counter_add_keys k n c x :
  In x (map fst (counter_add key_eqb k n c)) -> In x (map fst c) \/ x = k.
Proof.
  induction c as [|[k' m] c IH]; cbn [counter_add map fst In].
  - intuition.
  - destruct (key_eqb k' k); cbn [map fst In]; intuition.
Qed.

Lemma counter_add_keeps k n c x :
  In x (map fst c) -> In x (map fst (counter_add key_eqb k n c)).
Proof.
  induction c as [|[k' m] c IH]; [contradiction|].
  cbn [counter_add map fst In].
  destruct (key_eqb k' k); cbn [map fst In]; intuition.
Qed.

Lemma counter_add_covers k n c :
  key_eqb k k = true ->
  exists k', In k' (map fst (counter_add key_eqb k n c)) /\ key_eqb k' k = true.
Proof.
  intros Hrefl. induction c as [|[k' m] c IH]; cbn [counter_add].
  - exists k. split; [now left|exact Hrefl].
  - destruct (key_eqb k' k) eqn:E.
    + exists k'. split; [now left|exact E].
    + destruct IH as (k2 & Hin & He). exists k2. split; [now right|exact He].
Qed.

Lemma counter_add_distinct k n c :
  distinct c -> distinct (counter_add key_eqb k n c).
Proof.
  induction c as [|[k' m] c IH]; cbn [counter_add distinct].
  - intros _. split; [intros k' []|exact I].
  - intros [Hfresh Hd]. destruct (key_eqb k' k) eqn:E; cbn [distinct fst].
    + split; assumption.
    + split; [|now apply IH].
      intros k2 Hk2. apply counter_add_keys in Hk2 as [Hk2| ->].
      * now apply Hfresh.
      * now rewrite key_sym.
Qed.

Lemma counter_add_weight k n c x :
  weight_of x (counter_add key_eqb k n c)
  = weight_of x c + (if key_eqb k x then n else 0).
Proof.
  induction c as [|[k' m] c IH]; cbn [counter_add].
  - rewrite weight_of_cons. cbn [fst snd]. unfold weight_of. cbn. lia.
  - destruct (key_eqb k' k) eqn:E.
    + rewrite !weight_of_cons. cbn [fst snd].
      rewrite (key_eqb_class k k' x E).
      destruct (key_eqb k x); lia.
    + rewrite !weight_of_cons, IH. lia.
Qed.

(** [res[val] += count] for every pair of the stream. *)
Definition tally (stream c0 : list (K * Z)) : list (K * Z) :=
  fold_left (fun res vc => counter_add key_eqb (fst vc) (snd vc) res) stream c0.

Lemma tally_spec stream : forall c0,
  (forall k, In k (map fst stream) -> key_eqb k k = true) ->
  distinct c0 ->
  distinct (tally stream c0) /\
  (forall x, In x (map fst (tally stream c0))
             -> In x (map fst c0) \/ In x (map fst stream)) /\
  (forall x, In x (map fst c0) -> In x (map fst (tally stream c0))) /\
  (forall k, In k (map fst stream) ->
             exists k', In k' (map fst (tally stream c0)) /\
                        key_eqb k' k = true) /\
  (forall x, weight_of x (tally stream c0) = weight_of x c0 + weight_of x stream).
Proof.
  induction stream as [|[k n] stream IH]; intros c0 Hrefl Hd;
    cbn [tally fold_left].
  - split; [exact Hd|]. split; [tauto|]. split; [tauto|].
    split; [intros k []|].
    intros x. unfold weight_of at 3. cbn. lia.
  - assert (Hrefl' : forall k0, In k0 (map fst stream) -> key_eqb k0 k0 = true)
      by (intros k0 Hk0; apply Hrefl; now right).
    destruct (IH (counter_add key_eqb k n c0) Hrefl'
                 (counter_add_distinct k n c0 Hd))
      as (H1 & H2 & H3 & H4 & H5).
    fold (tally stream (counter_add key_eqb (fst (k, n)) (snd (k, n)) c0)).
    cbn [fst snd]. split; [exact H1|]. split; [|split; [|split]].
    + intros x Hx. apply H2 in Hx as [Hx|Hx].
      * apply counter_add_keys in Hx as [Hx| ->]; [now left|].
        right. now left.
      * right. now right.
    + intros x Hx. now apply H3, counter_add_keeps.
    + intros k0 [<-|Hk0]; [|now apply H4].
      destruct (counter_add_covers k n c0) as (k' & Hin & He).
      { apply Hrefl. now left. }
      exists k'. split; [now apply H3|exact He].
    + intros x. rewrite H5, counter_add_weight, weight_of_cons.
      cbn [fst snd]. lia.
Qed.

Lemma insert_desc_perm (x : K * Z) l : Permutation (x :: l) (insert_desc x l).
Proof.
  induction l as [|y l IH]; cbn [insert_desc]; [reflexivity|].
  destruct (snd x <? snd y); [|reflexivity].
  rewrite perm_swap. now constructor.
Qed.

Lemma sort_desc_perm (c : list (K * Z)) : Permutation c (sort_desc c).
Proof.
  induction c as [|x c IH]; cbn [sort_desc fold_right]; [constructor|].
  rewrite <- insert_desc_perm. now constructor.
Qed.

Lemma count_all_tally (stream : list K) :
  count_all key_eqb stream = tally (map (fun k => (k, 1)) stream) [].
Proof.
  unfold count_all, tally. generalize (@nil (K * Z)).
  induction stream as [|k stream IH]; intros c; [reflexivity|].
  cbn [map fold_left fst snd]. apply IH.
Qed.

Lemma ranked_spec (stream : list (K * Z)) :
  (forall k, In k (map fst stream) -> key_eqb k k = true) ->
  NoDup (sort_desc (tally stream [])) /\
  (forall x y, In x (sort_desc (tally stream [])) ->
               In y (sort_desc (tally stream [])) ->
               key_eqb (fst x) (fst y) = true -> x = y) /\
  (forall k n, In (k, n) (sort_desc (tally stream [])) ->
               In k (map fst stream) /\ n = weight_of k stream) /\
  (forall k, In k (map fst stream) ->
             exists k', In (k', weight_of k stream) (sort_desc (tally stream []))
                        /\ key_eqb k' k = true).
Proof.
  intros Hrefl.
  destruct (tally_spec stream [] Hrefl I) as (H1 & H2 & _ & H4 & H5).
  pose proof (sort_desc_perm (tally stream [])) as Hp.
  assert (Hkeys : forall k, In k (map fst (tally stream [])) ->
                            In k (map fst stream)).
  { intros k Hk. now destruct (H2 k Hk) as [[]|]. }
  assert (Hentry : forall k n, In (k, n) (tally stream []) ->
                               In k (map fst stream) /\ n = weight_of k stream).
  { intros k n Hin.
    assert (Hk : In k (map fst stream))
      by (apply Hkeys; change k with (fst (k, n)); now apply in_map).
    split; [exact Hk|].
    rewrite <- (weight_of_entry k n _ (Hrefl k Hk) H1 Hin), H5.
    unfold weight_of at 1. cbn. lia. }
  split; [|split; [|split]].
  - eapply Permutation_NoDup; [exact Hp|].
    apply distinct_NoDup; [|exact H1].
    intros k Hk. now apply Hrefl, Hkeys.
  - intros x y Hx Hy. apply (distinct_pairwise _ H1);
      eapply Permutation_in; try (apply Permutation_sym; exact Hp); assumption.
  - intros k n Hin. apply Hentry.
    eapply Permutation_in; [apply Permutation_sym; exact Hp|exact Hin].
  - intros k Hk. destruct (H4 k Hk) as (k' & Hin & He).
    apply in_map_iff in Hin as ([k2 m] & Hfst & Hkm). cbn [fst] in Hfst. subst k2.
    exists k'. split; [|exact He].
    apply (Permutation_in _ Hp).
    destruct (Hentry k' m Hkm) as [_ Hm].
    rewrite <- (weight_of_class k k' stream He), <- Hm. exact Hkm.
Qed.

End Counting.


(** The equality of Python makes 1 and [True] one key. *)
Definition mixed_stream : list (value * Z) :=
  [(VInt 1, 3); (VStr "a", 5); (VBool true, 4)].


(** The examples, evaluated: the counts of 1 and [True] are summed under
    the key that came first, and three occurrences make one entry. *)
Example topvalues_sums_counts :
  topvalues_weighted py_eq (fun v => v) mixed_stream None
  = [[("_id", VInt 1); ("count", VInt 7)];
     [("_id", VStr "a"); ("count", VInt 5)]] /\
  topvalues_distinct py_eq (fun v => v) [VInt 1; VBool true; VInt 1] None
  = [[("_id", VInt 1); ("count", VInt 3)]].
Proof. split; reflexivity. Qed.

(* ------------------------------------------------------------------ *)
(** * The merge of sightings                                            *)
(* ------------------------------------------------------------------ *)

Lemma dict_set_set k v1 v2 d :
  dict_set k v2 (dict_set k v1 d) = dict_set k v2 d.
Proof.
  induction d as [|[k' v'] d IH]; cbn [dict_set].
  - now rewrite String.eqb_refl.
  - destruct (k' =? k)%string eqn:E; cbn [dict_set]; rewrite E; [reflexivity|].
    now rewrite IH.
Qed.

Lemma dict_set_swap k k' v v' d :
  k <> k' -> dict_get k d <> None ->
  dict_set k v (dict_set k' v' d) = dict_set k' v' (dict_set k v d).
Proof.
  intros Hne. induction d as [|[a x] d IH]; intros Hin; [now elim Hin|].
  cbn [dict_get] in Hin. cbn [dict_set].
  destruct (String.eqb_spec a k) as [->|Hak].
  - rewrite (proj2 (String.eqb_neq k k') Hne). cbn [dict_set].
    now rewrite String.eqb_refl, (proj2 (String.eqb_neq k k') Hne).
  - destruct (String.eqb_spec a k') as [->|Hak']; cbn [dict_set].
    + rewrite (proj2 (String.eqb_neq k' k) Hak), String.eqb_refl. reflexivity.
    + rewrite (proj2 (String.eqb_neq a k) Hak), (proj2 (String.eqb_neq a k') Hak').
      now rewrite IH.
Qed.

(** X19. Sightings merge in any grouping: on a record that holds numbers
    for [count], [firstseen] and [lastseen], folding two sightings one
    after the other gives the record that folding their sum gives: the
    counts added, the earlier first time, the later last time.  Every
    other field is left as it is. *)
Theorem op_update_composes
        (n1 n2 t1 t2 u1 u2 : Z) (doc : dict) (c f l : Z) :
  dict_get "count" doc = Some (VInt c) ->
  dict_get "firstseen" doc = Some (VInt f) ->
  dict_get "lastseen" doc = Some (VInt l) ->
  (doc1 <- op_update (VInt n1) (VInt t1) (VInt u1) doc ;;
   op_update (VInt n2) (VInt t2) (VInt u2) doc1)
  = op_update (VInt (n1 + n2)) (VInt (Z.min t1 t2)) (VInt (Z.max u1 u2)) doc /\
  exists doc',
    op_update (VInt (n1 + n2)) (VInt (Z.min t1 t2)) (VInt (Z.max u1 u2)) doc
    = Ok doc' /\
    dict_get "count" doc' = Some (VInt (c + n1 + n2)) /\
    dict_get "firstseen" doc' = Some (VInt (Z.min f (Z.min t1 t2))) /\
    dict_get "lastseen" doc' = Some (VInt (Z.max l (Z.max u1 u2))) /\
    forall k, k <> "count" -> k <> "firstseen" -> k <> "lastseen" ->
              dict_get k doc' = dict_get k doc.
Proof.
  intros Hc Hf Hl.
  rewrite (op_update_numbers_ok n1 t1 u1 doc c f l Hc Hf Hl). cbn [bind].
  rewrite (op_update_numbers_ok (n1 + n2) (Z.min t1 t2) (Z.max u1 u2)
                                doc c f l Hc Hf Hl).
  split.
  - rewrite (op_update_numbers_ok n2 t2 u2 _ (c + n1) (Z.min f t1) (Z.max l u1)).
    + rewrite (dict_set_swap "count" "lastseen").
      2: discriminate.
      2: { rewrite dict_get_set_other by discriminate.
           rewrite dict_get_set_same. discriminate. }
      rewrite (dict_set_swap "count" "firstseen").
      2: discriminate.
      2: { rewrite dict_get_set_same. discriminate. }
      rewrite dict_set_set.
      rewrite (dict_set_swap "firstseen" "lastseen").
      2: discriminate.
      2: { rewrite dict_get_set_same. discriminate. }
      rewrite dict_set_set, dict_set_set.
      now rewrite Z.max_assoc, Z.min_assoc, Z.add_assoc.
    + rewrite !dict_get_set_other by discriminate. apply dict_get_set_same.
    + rewrite dict_get_set_other by discriminate. apply dict_get_set_same.
    + apply dict_get_set_same.
  - eexists. split; [reflexivity|]. split; [|split; [|split]].
    + rewrite !dict_get_set_other by discriminate.
      rewrite dict_get_set_same. do 2 f_equal. lia.
    + rewrite dict_get_set_other by discriminate. apply dict_get_set_same.
    + apply dict_get_set_same.
    + intros k H1 H2 H3. now rewrite !dict_get_set_other by congruence.
Qed.

Lemma op_update_composes_witness :
  (doc1 <- op_update (VInt 1) (VInt 20) (VInt 25)
                     [("port", VInt 80); ("count", VInt 2);
                      ("firstseen", VInt 10); ("lastseen", VInt 30)] ;;
   op_update (VInt 4) (VInt 5) (VInt 40) doc1)
  = op_update (VInt (1 + 4)) (VInt (Z.min 20 5)) (VInt (Z.max 25 40))
              [("port", VInt 80); ("count", VInt 2);
               ("firstseen", VInt 10); ("lastseen", VInt 30)] /\
  exists doc',
    op_update (VInt (1 + 4)) (VInt (Z.min 20 5)) (VInt (Z.max 25 40))
              [("port", VInt 80); ("count", VInt 2);
               ("firstseen", VInt 10); ("lastseen", VInt 30)]
    = Ok doc' /\
    dict_get "count" doc' = Some (VInt (2 + 1 + 4)) /\
    dict_get "firstseen" doc' = Some (VInt (Z.min 10 (Z.min 20 5))) /\
    dict_get "lastseen" doc' = Some (VInt (Z.max 30 (Z.max 25 40))) /\
    forall k, k <> "count" -> k <> "firstseen" -> k <> "lastseen" ->
              dict_get k doc'
              = dict_get k [("port", VInt 80); ("count", VInt 2);
                            ("firstseen", VInt 10); ("lastseen", VInt 30)].
Proof.
  apply (op_update_composes
           1 4 20 5 25 40
           [("port", VInt 80); ("count", VInt 2);
            ("firstseen", VInt 10); ("lastseen", VInt 30)] 2 10 30).
  - reflexivity.
  - reflexivity.
  - reflexivity.
Defined.

Lemma update_one_frame transform id : forall t t',
  update_one transform id t = Ok t' ->
  map doc_id t' = map doc_id t /\
  forall d, In d t -> doc_id d <> id -> In d t'.
Proof.
  intros t t'. unfold update_one.
  destruct (existsb _ t); [|discriminate].
  revert t'. induction t as [|x t IH]; intros t' H; cbn [mapM] in H.
  - injection H as <-. split; [reflexivity|]. intros d [].
  - destruct (Z.eqb_spec (doc_id x) id) as [Hx|Hx].
    + destruct (transform (doc_body x)) as [body|e]; [|discriminate H].
      cbn [bind] in H.
      destruct (mapM _ t) as [r|e]; [|discriminate H]. injection H as <-.
      destruct (IH r eq_refl) as [Hids Hkeep]. split.
      * cbn [map doc_id fst]. now rewrite Hids.
      * intros d [->|Hin] Hd; [congruence|]. right. now apply Hkeep.
    + cbn [bind] in H.
      destruct (mapM _ t) as [r|e]; [|discriminate H]. injection H as <-.
      destruct (IH r eq_refl) as [Hids Hkeep]. split.
      * cbn [map]. now rewrite Hids.
      * intros d [->|Hin] Hd; [now left|]. right. now apply Hkeep.
Qed.

Section PassiveFrame.
Variable list_fields : list string.
Variable ip2bin : value -> result string.
Variable bin2ip : string -> result value.
Variable all2datetime : value -> result value.
Variable datetime2timestamp : value -> result value.
Variable decode_b64 : string -> result string.
Variable str_encode : string -> string.

(** X20. A call of [insert_or_update] with numbers for the times touches
    one record.  When a stored record matches the observation, the
    resolver [getinfos] is not called, the table keeps its identifiers in
    their order, and every record with another identifier than the
    matching one is kept as it is.  When no stored record matches, the
    resolver is called once, on the observation as given, if there is one;
    the call adds one record at the end, under a new identifier, or, when
    it raises, leaves the table as it was. *)
Theorem insert_or_update_touches_one_record
        (ts : Z) (ls : option Z) (orig s1 : dict)
        (getinfos : option (dict -> result dict)) (db : table) (out : outcome) :
  rec2internal ip2bin all2datetime datetime2timestamp orig = Ok s1 ->
  out = insert_or_update list_fields ip2bin bin2ip all2datetime
                         datetime2timestamp decode_b64 str_encode
                         (VInt ts) (Some orig) getinfos (lastseen_arg ls) db ->
  ((exists d, In d db /\ matches (spec_key s1) (doc_body d) = true) ->
   exists cur,
     In cur db /\ matches (spec_key s1) (doc_body cur) = true /\
     resolver_calls out = [] /\
     map doc_id (db_after out) = map doc_id db /\
     forall d, In d db -> doc_id d <> doc_id cur -> In d (db_after out)) /\
  ((forall d, In d db -> matches (spec_key s1) (doc_body d) = false) ->
   resolver_calls out = match getinfos with
                        | Some _ => [orig]
                        | None => []
                        end /\
   match raised out with
   | None => exists new, db_after out = db ++ [(next_id db, new)]
   | Some _ => db_after out = db
   end).
Proof.
  intros Hrec ->.
  rewrite (insert_or_update_eval list_fields ip2bin bin2ip all2datetime
             datetime2timestamp decode_b64 str_encode ts ls orig s1 getinfos db
             Hrec).
  split.
  - intros (d & Hd & Hm).
    destruct (find (passes (matches (spec_key s1))) db) as [cur|] eqn:Hfind.
    + apply find_some in Hfind as [Hcur Hpass]. exists cur.
      split; [exact Hcur|]. split; [exact Hpass|].
      cbn [update_ids].
      destruct (update_one _ (doc_id cur) db) as [db'|e] eqn:Hup;
        cbn [bind resolver_calls db_after].
      * apply update_one_frame in Hup as [Hids Hkeep]. auto.
      * auto.
    + exfalso. pose proof (find_none _ _ Hfind d Hd) as Hnot.
      unfold passes in Hnot. congruence.
  - intros Hnone.
    destruct (find (passes (matches (spec_key s1))) db) as [cur|] eqn:Hfind.
    + exfalso. apply find_some in Hfind as [Hcur Hpass].
      unfold passes in Hpass. rewrite (Hnone cur Hcur) in Hpass. discriminate.
    + destruct getinfos as [resolver|].
      * destruct (resolver orig) as [infos|e]; cbn [resolver_calls raised db_after];
          (split; [reflexivity|]); [eexists; reflexivity|reflexivity].
      * cbn [resolver_calls raised db_after]. split; [reflexivity|].
        eexists; reflexivity.
Qed.

End PassiveFrame.

(** A sighting of a name, and a table that holds another record and a
    record of this name. *)
Definition sighting : dict :=
  [("recontype", VStr "DNS_ANSWER"); ("value", VStr "example.org")].

Definition sightings_table : table :=
  [(1, [("recontype", VStr "DNS_ANSWER"); ("value", VStr "example.com");
        ("count", VInt 1); ("firstseen", VInt 3); ("lastseen", VInt 3)]);
   (2, [("recontype", VStr "DNS_ANSWER"); ("value", VStr "example.org");
        ("count", VInt 2); ("firstseen", VInt 4); ("lastseen", VInt 8)])].

Lemma insert_or_update_touches_one_record_witness :
  ((exists d, In d sightings_table /\
              matches (spec_key sighting) (doc_body d) = true) ->
   exists cur,
     In cur sightings_table /\
     matches (spec_key sighting) (doc_body cur) = true /\
     resolver_calls
       (insert_or_update [] no_address no_text no_time no_time no_base64
                         (fun s => s) (VInt 9) (Some sighting)
                         (Some (fun _ => Ok [])) (lastseen_arg None)
                         sightings_table) = [] /\
     map doc_id
         (db_after
            (insert_or_update [] no_address no_text no_time no_time no_base64
                              (fun s => s) (VInt 9) (Some sighting)
                              (Some (fun _ => Ok [])) (lastseen_arg None)
                              sightings_table))
     = map doc_id sightings_table /\
     forall d, In d sightings_table -> doc_id d <> doc_id cur ->
               In d (db_after
                       (insert_or_update [] no_address no_text no_time no_time
                                         no_base64 (fun s => s) (VInt 9)
                                         (Some sighting)
                                         (Some (fun _ => Ok []))
                                         (lastseen_arg None)
                                         sightings_table))) /\
  (exists d, In d sightings_table /\
             matches (spec_key sighting) (doc_body d) = true).
Proof.
  split.
  - apply (insert_or_update_touches_one_record
             [] no_address no_text no_time no_time no_base64 (fun s => s)
             9 None sighting sighting (Some (fun _ => Ok [])) sightings_table
             _ eq_refl eq_refl).
  - exists (2, [("recontype", VStr "DNS_ANSWER"); ("value", VStr "example.org");
                ("count", VInt 2); ("firstseen", VInt 4); ("lastseen", VInt 8)]).
    split; [right; left; reflexivity|reflexivity].
Defined.

(** The example, evaluated: the second record takes the sighting, the
    first is as it was, and the resolver is not called. *)
Example sighting_merged :
  insert_or_update [] no_address no_text no_time no_time no_base64
                   (fun s => s) (VInt 9) (Some sighting)
                   (Some (fun _ => Ok [])) VNone sightings_table
  = mk_outcome None
      [(1, [("recontype", VStr "DNS_ANSWER"); ("value", VStr "example.com");
            ("count", VInt 1); ("firstseen", VInt 3); ("lastseen", VInt 3)]);
       (2, [("recontype", VStr "DNS_ANSWER"); ("value", VStr "example.org");
            ("count", VInt 3); ("firstseen", VInt 4); ("lastseen", VInt 9)])]
      [].
Proof. reflexivity. Qed.

(* ------------------------------------------------------------------ *)
(** * Removal from the passive records                                  *)
(* ------------------------------------------------------------------ *)

Lemma remove_spec (cond : query) : forall t t',
  remove cond t = Ok t' ->
  search cond t' = Ok [] /\
  forall d, In d t' <-> In d t /\ cond (VDict (doc_body d)) = Ok false.
Proof.
  induction t as [|x t IH]; intros t' H; cbn [remove] in H.
  - injection H as <-. split; [reflexivity|]. intros d. cbn [In]. tauto.
  - destruct (cond (VDict (doc_body x))) as [b|e] eqn:Hb; [|discriminate H].
    cbn [bind] in H.
    destruct (remove cond t) as [rest|e]; [|discriminate H].
    cbn [bind] in H. injection H as <-.
    destruct (IH rest eq_refl) as [Hs Hin].
    destruct b.
    + split; [exact Hs|]. intros d. rewrite Hin. cbn [In].
      split; [tauto|]. intros [[->|Hd] Hc]; [congruence|tauto].
    + split.
      * cbn [search]. now rewrite Hb, Hs.
      * intros d. cbn [In]. rewrite Hin.
        split; [|tauto]. intros [->|[Hd Hc]]; auto.
Qed.

Section PassiveRemoval.
Variable list_fields : list string.
Variable bin2ip : string -> result value.
Variable all2datetime : value -> result value.
Variable decode_b64 : string -> result string.
Variable str_encode : string -> string.

(** X21. What the passive [remove] removes is gone, and nothing else is.
    Called with a filter, it leaves the records that fail the filter, and
    [get] with the same filter then returns nothing, whatever the sort,
    the limit and the skip; called with an identifier, it leaves the
    records with another identifier. *)
Theorem removed_records_are_gone
        (target : spec_or_id) (db db' : table) :
  passive_remove target db = Ok db' ->
  match target with
  | ByFilter flt =>
      (forall d, In d db' <-> In d db /\ flt (VDict (doc_body d)) = Ok false) /\
      forall sort limit skip,
        passive_get list_fields bin2ip all2datetime decode_b64 str_encode
                    db' flt None sort limit skip = Ok []
  | ById id => forall d, In d db' <-> In d db /\ doc_id d <> id
  end.
Proof.
  destruct target as [id|flt]; cbn [passive_remove].
  - cbn [remove_ids]. destruct (existsb _ db); [|discriminate].
    intros [= <-] d. rewrite filter_In.
    destruct (Z.eqb_spec (doc_id d) id); cbn [negb]; intuition congruence.
  - intros H. apply remove_spec in H as [Hs Hin]. split; [exact Hin|].
    intros sort limit skip. unfold passive_get, get. rewrite Hs. cbn [bind].
    assert (Hcut : apply_limit limit (apply_skip skip []) = []).
    { destruct skip as [n|]; cbn [apply_skip]; unfold slice_from;
        rewrite ?skipn_nil;
        destruct limit as [m|]; cbn [apply_limit]; unfold slice_to;
        now rewrite ?firstn_nil. }
    destruct sort as [|s sort]; cbn [sorted bind]; now rewrite Hcut.
Qed.

End PassiveRemoval.

Lemma removed_records_are_gone_witness :
  (forall d,
      In d [(1, [("port", VInt 80)])]
      <-> In d [(1, [("port", VInt 80)]); (2, [("port", VInt 443)])] /\
          q_eq ["port"] (VInt 443) (VDict (doc_body d)) = Ok false) /\
  forall sort limit skip,
    passive_get [] no_text no_time no_base64 (fun s => s)
                [(1, [("port", VInt 80)])] (q_eq ["port"] (VInt 443))
                None sort limit skip = Ok [].
Proof.
  apply (removed_records_are_gone
           [] no_text no_time no_base64 (fun s => s)
           (ByFilter (q_eq ["port"] (VInt 443)))
           [(1, [("port", VInt 80)]); (2, [("port", VInt 443)])]
           [(1, [("port", VInt 80)])]).
  reflexivity.
Defined.

(* ------------------------------------------------------------------ *)
(** * Addresses that cannot be printed                                  *)
(* ------------------------------------------------------------------ *)

Lemma mapM_raise_In {A B : Type} (f : A -> result B) (l : list A) x e :
  In x l -> f x = Raise e -> exists e', mapM f l = Raise e'.
Proof.
  induction l as [|y l IH]; [contradiction|]. intros [->|Hin] Hx; cbn [mapM].
  - rewrite Hx. now exists e.
  - destruct (f y) as [b|e0]; [|now exists e0]. cbn [bind].
    destruct (IH Hin Hx) as [e' ->]. now exists e'.
Qed.

Section Unprintable.
Variable list_fields : list string.
Variable bin2ip : string -> result value.
Variable all2datetime : value -> result value.
Variable decode_b64 : string -> result string.
Variable str_encode : string -> string.

Lemma convert_each_other f k k' d d' :
  k' <> k -> convert_each f k' d = Ok d' -> dict_get k d' = dict_get k d.
Proof.
  intros Hne. unfold convert_each.
  destruct (dict_get k' d) as [v|]; [|now intros [= <-]].
  destruct (py_iter v) as [elems|e]; [|discriminate]. cbn [bind].
  destruct (mapM f elems) as [elems'|e]; [|discriminate]. cbn [bind].
  intros [= <-]. destruct v; try reflexivity.
  now apply dict_get_set_other.
Qed.

Lemma internal2rec_fld_other k k' d d' :
  k' <> k -> internal2rec_fld all2datetime k' d = Ok d' ->
  dict_get k d' = dict_get k d.
Proof.
  intros Hne. unfold internal2rec_fld.
  destruct (dict_get k' d) as [x|]; [|now intros [= <-]].
  destruct (all2datetime x) as [v|[]]; try discriminate.
  - intros [= <-]. now apply dict_get_set_other.
  - now intros [= <-].
Qed.

Lemma active_convert_addr (host out : document) (d1 : dict) :
  convert_ip bin2ip "addr" (doc_body host) = Ok d1 ->
  active_convert bin2ip all2datetime host = Ok out ->
  dict_get "addr" (doc_body out) = dict_get "addr" d1.
Proof.
  intros H1. unfold active_convert. rewrite H1. cbn [bind].
  destruct (convert_each _ "ports" d1) as [h2|e] eqn:H2; [|discriminate].
  cbn [bind].
  destruct (convert_each _ "traces" h2) as [h3|e] eqn:H3; [|discriminate].
  cbn [bind].
  destruct (internal2rec_fld _ "starttime" h3) as [h4|e] eqn:H4; [|discriminate].
  cbn [bind].
  destruct (internal2rec_fld _ "endtime" h4) as [h5|e] eqn:H5; [|discriminate].
  cbn [bind]. intros [= <-]. cbn [doc_body snd].
  rewrite (internal2rec_fld_other "addr" "endtime" h4 h5) by (discriminate || exact H5).
  rewrite (internal2rec_fld_other "addr" "starttime" h3 h4) by (discriminate || exact H4).
  rewrite (convert_each_other _ "addr" "traces" h2 h3) by (discriminate || exact H3).
  now rewrite (convert_each_other _ "addr" "ports" d1 h2) by (discriminate || exact H2).
Qed.

(** X22. A stored address that cannot be printed.  An integer outside
    0 .. 2^128 - 1 makes the conversion of the record raise the error of
    [struct.pack], for hosts and for passive records; so [get] on the
    hosts raises as soon as the filter selects such a host.  An address in
    the range that [bin2ip] rejects with [socket.error] is passed over for
    a host, which comes with the stored integer, while for a passive record
    the error stops the conversion. *)
Theorem unprintable_address_on_reading
        (id : Z) (body : dict) (n : Z) :
  dict_get "addr" body = Some (VInt n) ->
  (~ (0 <= n < 2 ^ 128) ->
   active_convert bin2ip all2datetime (id, body) = Raise StructError /\
   internal2rec bin2ip all2datetime decode_b64 str_encode (id, body)
   = Raise StructError /\
   forall db flt fields sort limit skip recs,
     get list_fields db flt fields sort limit skip = Ok recs ->
     In (id, body) recs ->
     exists e, active_get list_fields bin2ip all2datetime
                          db flt fields sort limit skip = Raise e) /\
  (forall bs,
      pack_QQ (Z.shiftr n 64) (Z.land n 18446744073709551615) = Ok bs ->
      bin2ip bs = Raise SocketError ->
      internal2rec bin2ip all2datetime decode_b64 str_encode (id, body)
      = Raise SocketError /\
      (forall out,
          active_convert bin2ip all2datetime (id, body) = Ok out ->
          dict_get "addr" (doc_body out) = Some (VInt n)) /\
      (dict_get "ports" body = None -> dict_get "traces" body = None ->
       dict_get "starttime" body = None -> dict_get "endtime" body = None ->
       active_convert bin2ip all2datetime (id, body) = Ok (id, body))).
Proof.
  intros Haddr. split.
  - intros Hn. pose proof (internal2ip_out_of_range bin2ip n Hn) as Hi.
    assert (Hc : active_convert bin2ip all2datetime (id, body) = Raise StructError).
    { unfold active_convert, convert_ip. cbn [doc_body snd].
      now rewrite Haddr, Hi. }
    split; [exact Hc|]. split.
    + unfold internal2rec. cbn [doc_body snd]. now rewrite Haddr, Hi.
    + intros db flt fields sort limit skip recs Hget Hin.
      unfold active_get. rewrite Hget. cbn [bind].
      eapply mapM_raise_In; eassumption.
  - intros bs Hp Hb.
    assert (Hi : internal2ip bin2ip (VInt n) = Raise SocketError).
    { unfold internal2ip. cbn [as_num]. now rewrite Hp. }
    assert (Hc : convert_ip bin2ip "addr" body = Ok body).
    { unfold convert_ip. now rewrite Haddr, Hi. }
    split; [|split].
    + unfold internal2rec. cbn [doc_body snd]. now rewrite Haddr, Hi.
    + intros out Hout.
      rewrite (active_convert_addr (id, body) out body Hc Hout). exact Haddr.
    + intros Hports Htraces Hstart Hend.
      unfold active_convert. cbn [doc_body doc_id fst snd]. rewrite Hc.
      cbn [bind]. unfold convert_each, internal2rec_fld.
      rewrite Hports. cbn [bind]. rewrite Htraces. cbn [bind].
      rewrite Hstart. cbn [bind]. now rewrite Hend.
Qed.

End Unprintable.

Lemma unprintable_address_on_reading_witness :
  (active_convert (fun _ => Raise SocketError) no_time
                  (1, [("addr", VInt (-1))]) = Raise StructError /\
   internal2rec (fun _ => Raise SocketError) no_time no_base64 (fun s => s)
                (1, [("addr", VInt (-1))]) = Raise StructError /\
   forall db flt fields sort limit skip recs,
     get [] db flt fields sort limit skip = Ok recs ->
     In (1, [("addr", VInt (-1))]) recs ->
     exists e, active_get [] (fun _ => Raise SocketError) no_time
                          db flt fields sort limit skip = Raise e) /\
  (internal2rec (fun _ => Raise SocketError) no_time no_base64 (fun s => s)
                (1, [("addr", VInt 5)]) = Raise SocketError /\
   (forall out,
       active_convert (fun _ => Raise SocketError) no_time
                      (1, [("addr", VInt 5)]) = Ok out ->
       dict_get "addr" (doc_body out) = Some (VInt 5)) /\
   (dict_get "ports" [("addr", VInt 5)] = None ->
    dict_get "traces" [("addr", VInt 5)] = None ->
    dict_get "starttime" [("addr", VInt 5)] = None ->
    dict_get "endtime" [("addr", VInt 5)] = None ->
    active_convert (fun _ => Raise SocketError) no_time
                   (1, [("addr", VInt 5)]) = Ok (1, [("addr", VInt 5)]))).
Proof.
  split.
  - apply (proj1 (unprintable_address_on_reading
                    [] (fun _ => Raise SocketError) no_time no_base64
                    (fun s => s) 1 [("addr", VInt (-1))] (-1) eq_refl)).
    lia.
  - eapply (proj2 (unprintable_address_on_reading
                     [] (fun _ => Raise SocketError) no_time no_base64
                     (fun s => s) 1 [("addr", VInt 5)] 5 eq_refl)).
    + reflexivity.
    + reflexivity.
Defined.

(** An address in the range, with a printer that rejects it: the host is
    returned with the stored integer. *)
Example rejected_address_kept :
  active_get [] (fun _ => Raise SocketError) no_time
             [(1, [("addr", VInt 5)])] q_empty None [] None None
  = Ok [(1, [("addr", VInt 5)])].
Proof. reflexivity. Qed.

(* ------------------------------------------------------------------ *)
(** * Passive records, stored and read back                             *)
(* ------------------------------------------------------------------ *)

Lemma dict_set_same_value k v d : dict_get k d = Some v -> dict_set k v d = d.
Proof.
  induction d as [|[k' v'] d IH]; [discriminate|]. cbn [dict_get dict_set].
  destruct (k' =? k)%string; [now intros [= ->]|].
  intros H. now rewrite IH.
Qed.

Lemma dict_remove_absent k d : dict_get k d = None -> dict_remove k d = d.
Proof.
  induction d as [|[k' v'] d IH]; [reflexivity|]. cbn [dict_get dict_remove].
  destruct (k' =? k)%string; [discriminate|].
  intros H. now rewrite IH.
Qed.

Lemma ip2internal_text (ip2bin : value -> result string) (a bs : string) :
  ip2bin (VStr a) = Ok bs ->
  String.length bs = 16%nat ->
  exists n,
    ip2internal ip2bin (VStr a) = Ok (VInt n) /\
    0 <= n < 2 ^ 128 /\
    forall bin2ip, internal2ip bin2ip (VInt n) = bin2ip bs.
Proof.
  intros Hbin Hlen. unfold ip2internal. rewrite Hbin. cbn [bind].
  destruct (unpack_QQ bs) as [[val1 val2]|e] eqn:Hu.
  - destruct (unpack_pack _ _ _ Hu) as (R1 & R2 & Hp).
    destruct (join_split_128 val1 val2 R1 R2) as (Hr & Hhi & Hlo).
    exists (Z.shiftl val1 64 + val2). cbn [bind].
    split; [reflexivity|]. split; [exact Hr|].
    intros bin2ip. unfold internal2ip. cbn [as_num].
    now rewrite Hhi, Hlo, Hp.
  - exfalso. unfold unpack_QQ in Hu. rewrite Hlen in Hu. discriminate Hu.
Qed.

Section PassiveRoundTrip.
Variable ip2bin : value -> result string.
Variable bin2ip : string -> result value.
Variable all2datetime : value -> result value.
Variable datetime2timestamp : value -> result value.
Variable decode_b64 : string -> result string.
Variable str_encode : string -> string.

(** X23. A passive record reads back as it was given.  For a record
    with an address text that the codec of [ivre.utils] accepts and prints
    back, with dates for [firstseen] and [lastseen] that the conversion to
    a timestamp and back returns, without [_id], and that is not a
    certificate record: [rec2internal] stores the address as an unsigned
    128-bit integer and the dates as timestamps, and [internal2rec] of
    what is stored is the record as given, with its identifier added as
    [_id]. *)
Theorem passive_record_reads_back
        (rec : dict) (a bs : string) (f l : Z) (tf tl : value) (id : Z) :
  dict_get "addr" rec = Some (VStr a) ->
  ip2bin (VStr a) = Ok bs ->
  String.length bs = 16%nat ->
  bin2ip bs = Ok (VStr a) ->
  dict_get "firstseen" rec = Some (VDate f) ->
  datetime2timestamp (VDate f) = Ok tf ->
  all2datetime tf = Ok (VDate f) ->
  dict_get "lastseen" rec = Some (VDate l) ->
  datetime2timestamp (VDate l) = Ok tl ->
  all2datetime tl = Ok (VDate l) ->
  dict_get "_id" rec = None ->
  py_eq (dict_get_default "recontype" VNone rec) (VStr "SSL_SERVER")
  && py_eq (dict_get_default "source" VNone rec) (VStr "cert") = false ->
  exists stored n,
    rec2internal ip2bin all2datetime datetime2timestamp rec = Ok stored /\
    dict_get "addr" stored = Some (VInt n) /\
    0 <= n < 2 ^ 128 /\
    dict_get "firstseen" stored = Some tf /\
    dict_get "lastseen" stored = Some tl /\
    internal2rec bin2ip all2datetime decode_b64 str_encode (id, stored)
    = Ok (id, dict_set "_id" (VInt id) rec).
Proof.
  intros Haddr Hbin Hlen Hprint Hf Hft Hfd Hl Hlt Hld Hid Hcert.
  destruct (ip2internal_text ip2bin a bs Hbin Hlen) as (n & Hin & Hn & Hout).
  set (stored := dict_set "lastseen" tl
                   (dict_set "firstseen" tf (dict_set "addr" (VInt n) rec))).
  assert (Hstore : rec2internal ip2bin all2datetime datetime2timestamp rec
                   = Ok stored).
  { unfold rec2internal. rewrite Haddr, Hin. cbn [bind].
    unfold rec2internal_fld at 1.
    rewrite dict_get_set_other by discriminate. rewrite Hf.
    cbn [to_timestamp]. rewrite Hft. cbn [bind].
    rewrite dict_remove_absent
      by (rewrite !dict_get_set_other by discriminate; exact Hid).
    unfold rec2internal_fld.
    rewrite !dict_get_set_other by discriminate. rewrite Hl.
    cbn [to_timestamp]. rewrite Hlt. cbn [bind].
    rewrite dict_remove_absent
      by (rewrite !dict_get_set_other by discriminate; exact Hid).
    reflexivity. }
  assert (Hsa : dict_get "addr" stored = Some (VInt n)).
  { unfold stored. rewrite !dict_get_set_other by discriminate.
    apply dict_get_set_same. }
  assert (Hsf : dict_get "firstseen" stored = Some tf).
  { unfold stored. rewrite dict_get_set_other by discriminate.
    apply dict_get_set_same. }
  assert (Hsl : dict_get "lastseen" stored = Some tl).
  { unfold stored. apply dict_get_set_same. }
  assert (Hback : dict_set "lastseen" (VDate l)
                    (dict_set "firstseen" (VDate f)
                       (dict_set "addr" (VStr a) stored)) = rec).
  { unfold stored.
    rewrite (dict_set_swap "addr" "lastseen").
    2: discriminate.
    2: { rewrite dict_get_set_other by discriminate.
         rewrite dict_get_set_same. discriminate. }
    rewrite (dict_set_swap "addr" "firstseen").
    2: discriminate.
    2: { rewrite dict_get_set_same. discriminate. }
    rewrite dict_set_set, (dict_set_same_value "addr" _ rec Haddr).
    rewrite (dict_set_swap "firstseen" "lastseen").
    2: discriminate.
    2: { rewrite dict_get_set_same. discriminate. }
    rewrite !dict_set_set, (dict_set_same_value "firstseen" _ rec Hf).
    apply (dict_set_same_value "lastseen" _ rec Hl). }
  exists stored, n. repeat (split; [assumption|]).
  unfold internal2rec. cbn [doc_body doc_id fst snd].
  rewrite Hsa, Hout, Hprint. cbn [bind].
  unfold internal2rec_fld at 1.
  rewrite dict_get_set_other by discriminate. rewrite Hsf, Hfd. cbn [bind].
  unfold internal2rec_fld.
  rewrite !dict_get_set_other by discriminate. rewrite Hsl, Hld. cbn [bind].
  rewrite Hback, Hcert. reflexivity.
Qed.

End PassiveRoundTrip.

(** A codec for one address and two dates: the text 1.2.3.4 and its 16
    bytes, the dates 1 and 2 and the timestamps 100 and 200. *)
Definition sample_ip2bin (v : value) : result string :=
  match v with
  | VStr "1.2.3.4" => Ok sample_ip_bytes
  | _ => Raise ValueError
  end.

Definition sample_timestamp (v : value) : result value :=
  match v with
  | VDate c => Ok (VInt (100 * c))
  | _ => Raise TypeError
  end.

Definition sample_datetime (v : value) : result value :=
  match v with
  | VInt t => Ok (VDate (t / 100))
  | _ => Raise TypeError
  end.

Definition dated_record : dict :=
  [("addr", VStr "1.2.3.4"); ("recontype", VStr "DNS_ANSWER");
   ("value", VStr "example.com");
   ("firstseen", VDate 1); ("lastseen", VDate 2)].

Lemma passive_record_reads_back_witness :
  exists stored n,
    rec2internal sample_ip2bin sample_datetime sample_timestamp dated_record
    = Ok stored /\
    dict_get "addr" stored = Some (VInt n) /\
    0 <= n < 2 ^ 128 /\
    dict_get "firstseen" stored = Some (VInt 100) /\
    dict_get "lastseen" stored = Some (VInt 200) /\
    internal2rec sample_bin2ip sample_datetime no_base64 (fun s => s)
                 (7, stored)
    = Ok (7, dict_set "_id" (VInt 7) dated_record).
Proof.
  apply (passive_record_reads_back
           sample_ip2bin sample_bin2ip sample_datetime sample_timestamp
           no_base64 (fun s => s)
           dated_record "1.2.3.4" sample_ip_bytes 1 2 (VInt 100) (VInt 200) 7);
    reflexivity.
Defined.

(* ------------------------------------------------------------------ *)
(** * Filters on sets of addresses, on identifiers and on times         *)
(* ------------------------------------------------------------------ *)

Lemma one_of_ints (a : Z) (ints : list Z) :
  existsb (fun i => py_eq i (VInt a)) (map VInt ints)
  = existsb (fun i => i =? a) ints.
Proof.
  induction ints as [|i ints IH]; [reflexivity|].
  cbn [map existsb py_eq]. now rewrite IH.
Qed.

(** X24. [searchhosts] is membership: for hosts that [ip2internal] turns
    into integers, a record whose address is an integer passes when this
    integer is one of them, and the negated filter passes in the opposite
    case; a record without address fails the filter and passes the negated
    one.  So an empty list of hosts selects nothing, and its negation
    everything. *)
Theorem searchhosts_is_membership
        (ip2bin : value -> result string) (hosts : list value)
        (ints : list Z) (neg : bool) :
  mapM (ip2internal ip2bin) hosts = Ok (map VInt ints) ->
  exists q,
    searchhosts ip2bin hosts neg = Ok q /\
    (forall (r : dict) (a : Z),
        dict_get "addr" r = Some (VInt a) ->
        q (VDict r) = Ok (xorb neg (existsb (fun i => i =? a) ints))) /\
    (forall r : dict, dict_get "addr" r = None -> q (VDict r) = Ok neg) /\
    (ints = [] -> forall r : dict, q (VDict r) = Ok neg).
Proof.
  intros Hints. unfold searchhosts. rewrite Hints. cbn [bind].
  eexists. split; [reflexivity|].
  assert (Hin : forall r a, dict_get "addr" r = Some (VInt a) ->
            (if neg then q_not (q_one_of ["addr"] (map VInt ints))
             else q_one_of ["addr"] (map VInt ints)) (VDict r)
            = Ok (xorb neg (existsb (fun i => i =? a) ints))).
  { intros r a Ha.
    destruct neg; [unfold q_not|]; unfold q_one_of, q_test;
      rewrite resolve_field, Ha; cbn [bind xorb]; now rewrite one_of_ints. }
  assert (Hout : forall r, dict_get "addr" r = None ->
            (if neg then q_not (q_one_of ["addr"] (map VInt ints))
             else q_one_of ["addr"] (map VInt ints)) (VDict r) = Ok neg).
  { intros r Ha.
    destruct neg; [unfold q_not|]; unfold q_one_of;
      now rewrite (q_test_missing _ _ _ Ha). }
  split; [exact Hin|]. split; [exact Hout|].
  intros -> r. destruct (dict_get "addr" r) as [x|] eqn:Hx; [|now apply Hout].
  destruct neg; [unfold q_not|]; unfold q_one_of, q_test;
    rewrite resolve_field, Hx; reflexivity.
Qed.

Lemma searchhosts_is_membership_witness :
  exists q,
    searchhosts no_address [VInt 10; VInt 20] true = Ok q /\
    (forall (r : dict) (a : Z),
        dict_get "addr" r = Some (VInt a) ->
        q (VDict r) = Ok (xorb true (existsb (fun i => i =? a) [10; 20]))) /\
    (forall r : dict, dict_get "addr" r = None -> q (VDict r) = Ok true) /\
    ([10; 20] = [] -> forall r : dict, q (VDict r) = Ok true).
Proof.
  apply (searchhosts_is_membership no_address [VInt 10; VInt 20] [10; 20] true).
  reflexivity.
Defined.

(** X25. [searchobjectid] with a list of one identifier and with the
    identifier itself agree, in both polarities, on every record that has
    an [_id]; on a record without [_id] they differ when negated: the
    negated list form passes, the negated single form fails.  With a list,
    a record passes when its [_id] is equal to an identifier of the list,
    and the negated filter passes in the opposite case. *)
Theorem searchobjectid_list_and_single (oid : value) (oids : list value) :
  (forall l, oid <> VList l) ->
  (forall (r : dict) (x : value) (neg : bool),
      dict_get "_id" r = Some x ->
      searchobjectid (VList [oid]) neg (VDict r)
      = searchobjectid oid neg (VDict r) /\
      searchobjectid (VList oids) neg (VDict r)
      = Ok (xorb neg (existsb (fun i => py_eq i x) oids))) /\
  (forall r : dict,
      dict_get "_id" r = None ->
      searchobjectid (VList [oid]) true (VDict r) = Ok true /\
      searchobjectid oid true (VDict r) = Ok false).
Proof.
  intros Hsingle.
  assert (Hoid : forall neg, searchobjectid oid neg
                             = if neg then q_ne ["_id"] oid else q_eq ["_id"] oid).
  { intros neg. destruct oid; try reflexivity. now elim (Hsingle l). }
  split.
  - intros r x neg Hx. rewrite Hoid. cbn [searchobjectid]. split.
    + destruct neg; [unfold q_not|]; unfold q_one_of, q_ne, q_eq, q_test;
        rewrite resolve_field, Hx; cbn [bind existsb];
        now rewrite orb_false_r, (py_eq_sym oid x).
    + destruct neg; [unfold q_not|]; unfold q_one_of, q_test;
        rewrite resolve_field, Hx; reflexivity.
  - intros r Hx. rewrite Hoid. cbn [searchobjectid]. split.
    + unfold q_not, q_one_of. now rewrite (q_test_missing _ _ _ Hx).
    + unfold q_ne. now apply q_test_missing.
Qed.

Lemma searchobjectid_list_and_single_witness :
  (forall (r : dict) (x : value) (neg : bool),
      dict_get "_id" r = Some x ->
      searchobjectid (VList [VStr "a1"]) neg (VDict r)
      = searchobjectid (VStr "a1") neg (VDict r) /\
      searchobjectid (VList [VStr "a1"; VStr "b2"]) neg (VDict r)
      = Ok (xorb neg (existsb (fun i => py_eq i x) [VStr "a1"; VStr "b2"]))) /\
  (forall r : dict,
      dict_get "_id" r = None ->
      searchobjectid (VList [VStr "a1"]) true (VDict r) = Ok true /\
      searchobjectid (VStr "a1") true (VDict r) = Ok false).
Proof.
  apply (searchobjectid_list_and_single (VStr "a1") [VStr "a1"; VStr "b2"]).
  intros l H. discriminate H.
Defined.

(** X26. [searchnewer] splits the records at the timestamp: on a record
    that holds a number for the field looked at, [firstseen] when [new]
    and [lastseen] otherwise, the filter passes when that number is after
    the timestamp and the negated filter in the opposite case; a record
    without the field passes neither.  A date given for the timestamp
    gives the filter of its conversion by [datetime2timestamp]. *)
Theorem searchnewer_splits_at_timestamp
        (all2datetime datetime2timestamp : value -> result value)
        (ts : Z) (new : bool) :
  (exists newer older,
      searchnewer all2datetime datetime2timestamp (VInt ts) false new = Ok newer /\
      searchnewer all2datetime datetime2timestamp (VInt ts) true new = Ok older /\
      (forall (r : dict) (x : Z),
          dict_get (if new then "firstseen" else "lastseen") r = Some (VInt x) ->
          newer (VDict r) = Ok (ts <? x) /\
          older (VDict r) = Ok (negb (ts <? x))) /\
      (forall r : dict,
          dict_get (if new then "firstseen" else "lastseen") r = None ->
          newer (VDict r) = Ok false /\ older (VDict r) = Ok false)) /\
  (forall (c : Z) (neg : bool),
      datetime2timestamp (VDate c) = Ok (VInt ts) ->
      searchnewer all2datetime datetime2timestamp (VDate c) neg new
      = searchnewer all2datetime datetime2timestamp (VInt ts) neg new).
Proof.
  split.
  - unfold searchnewer. cbn [to_timestamp bind].
    do 2 eexists. split; [reflexivity|]. split; [reflexivity|]. split.
    + intros r x Hx. split.
      * now apply q_gt_int.
      * unfold q_le, q_test. rewrite resolve_field, Hx.
        unfold py_le. reflexivity.
    + intros r Hx. split; [unfold q_gt|unfold q_le]; now apply q_test_missing.
  - intros c neg Hc. unfold searchnewer. cbn [to_timestamp]. now rewrite Hc.
Qed.

Lemma searchnewer_splits_at_timestamp_witness :
  searchnewer sample_datetime sample_timestamp (VDate 3) false true
  = searchnewer sample_datetime sample_timestamp (VInt 300) false true.
Proof.
  apply (proj2 (searchnewer_splits_at_timestamp
                  sample_datetime sample_timestamp 300 true) 3 false).
  reflexivity.
Defined.

(* ------------------------------------------------------------------ *)
(** * Plain insertion of passive records                                *)
(* ------------------------------------------------------------------ *)

Section PassiveInsert.
Variable ip2bin : value -> result string.
Variable all2datetime : value -> result value.
Variable datetime2timestamp : value -> result value.

(** X27. The passive [insert] never merges.  When the record, completed
    by what the resolver gives if there is one, is converted to [s], the
    call adds [s] at the end of the table under an identifier that no
    stored record has; the filter built from the fields of [s] then finds
    it, after the records it found before.  So a record inserted twice is
    stored twice. *)
Theorem passive_insert_always_adds
        (spec s : dict) (getinfos : option (dict -> result dict))
        (db : table) :
  wf_dict s ->
  match getinfos with
  | Some resolver =>
      exists infos, resolver spec = Ok infos /\
                    rec2internal ip2bin all2datetime datetime2timestamp
                                 (dict_update spec infos) = Ok s
  | None => rec2internal ip2bin all2datetime datetime2timestamp spec = Ok s
  end ->
  passive_insert ip2bin all2datetime datetime2timestamp spec getinfos db
  = Ok (db ++ [(next_id db, s)]) /\
  ~ In (next_id db) (map doc_id db) /\
  search (spec_cond s) (db ++ [(next_id db, s)])
  = (found <- search (spec_cond s) db ;; Ok (found ++ [(next_id db, s)])).
Proof.
  intros Hwf Hprep. split; [|split].
  - unfold passive_insert, insert.
    destruct getinfos as [resolver|].
    + destruct Hprep as (infos & -> & Hs). cbn [bind]. now rewrite Hs.
    + cbn [bind]. now rewrite Hprep.
  - apply next_id_fresh.
  - rewrite !(search_pure _ _ (spec_cond_pure s)). cbn [bind].
    rewrite filter_app. cbn [filter]. unfold passes at 2. cbn [doc_body snd].
    now rewrite (matches_self s Hwf).
Qed.

End PassiveInsert.

Lemma sighting_wf : wf_dict sighting.
Proof.
  unfold wf_dict, sighting. cbn [wf_value map fst].
  split; [|tauto].
  repeat constructor; cbn [In]; intuition discriminate.
Defined.

Lemma passive_insert_always_adds_witness :
  passive_insert no_address no_time no_time sighting None sightings_table
  = Ok (sightings_table ++ [(next_id sightings_table, sighting)]) /\
  ~ In (next_id sightings_table) (map doc_id sightings_table) /\
  search (spec_cond sighting)
         (sightings_table ++ [(next_id sightings_table, sighting)])
  = (found <- search (spec_cond sighting) sightings_table ;;
     Ok (found ++ [(next_id sightings_table, sighting)])).
Proof.
  apply (passive_insert_always_adds
           no_address no_time no_time sighting sighting None sightings_table).
  - exact sighting_wf.
  - reflexivity.
Defined.
